(** * Draw-probability model of svwb-prob-calc

    A shallow embedding of the numeric core of the two calculator pages:
    [clamp], [combination], [zeroHitHypergeometricRatio],
    [probabilityAtLeastOne] (general model, both policies) and
    [probabilityAtLeastOneKeep] (restricted keep-only model); of the range
    slider [DualRangeSlider] (its numeric helpers and its drag handlers); and
    of what the pages compute around the models: the sweeps of n and m, the
    tables, the chart coordinates and the colours.

    JavaScript numbers are modelled by [number]: the three non-finite values
    and the finite values as exact rationals kept in lowest terms.
    Comparisons, [Math.min], [Math.max], [Math.floor], [Math.round] and the
    arithmetic operators follow the language's rules on NaN and the
    infinities, but finite arithmetic is exact: rounding, overflow to
    Infinity, underflow to zero and the sign of zero are outside [number].
    The exact values and the program's doubles agree where no operation
    rounds: on the integers up to 2^53 under [+], [-], [*] and exact
    quotients.  Order and range survive rounding, short of a difference that
    overflows.  The statements about the slider and the pages are made on
    such arguments (integers up to 2^53, magnitudes up to 2^1022); the
    probability models clamp their arguments to the integers 0 .. 40 before
    any arithmetic.  Module [F64] gives the zero-hit ratio over the kernel's
    binary64 numbers, for the one statement that rounding decides: a long
    product underflows to 0.

    Loops are modelled with fuel: one unit per evaluation of the loop test.
    [None] means the fuel ran out before the loop ended. *)

From Stdlib Require Import QArith Qround Qreduction Qcanon ZArith List Bool Lia Lqa.
From Stdlib Require Import Factorial Znumtheory Sorted.
From Stdlib Require String Ascii DecimalString DecimalZ DecimalPos.
From Stdlib Require PrimFloat.
Import ListNotations.

Open Scope Q_scope.

(** ** Numbers *)

Module JsNumber.

Inductive number : Type :=
| NaN
| NegInf
| PosInf
| Fin (q : Q).

(** A finite value in lowest terms. *)
Definition fin (q : Q) : number := Fin (Qred q).

Definition ofZ (z : Z) : number := Fin (inject_Z z).

Definition zero : number := ofZ 0.
Definition one : number := ofZ 1.

(** [Number.isFinite]. *)
Definition isFinite (a : number) : bool :=
  match a with
  | Fin _ => true
  | _ => false
  end.

(** [a <= b]. *)
Definition leb (a b : number) : bool :=
  match a, b with
  | NaN, _ | _, NaN => false
  | NegInf, _ => true
  | _, PosInf => true
  | PosInf, _ => false
  | Fin _, NegInf => false
  | Fin p, Fin q => Qle_bool p q
  end.

(** [a < b]. *)
Definition ltb (a b : number) : bool :=
  match a, b with
  | NaN, _ | _, NaN => false
  | NegInf, NegInf => false
  | NegInf, _ => true
  | PosInf, _ => false
  | Fin _, PosInf => true
  | Fin _, NegInf => false
  | Fin p, Fin q => negb (Qle_bool q p)
  end.

(** [a > b]. *)
Definition gtb (a b : number) : bool := ltb b a.

(** [a === b]. *)
Definition strict_eq (a b : number) : bool :=
  match a, b with
  | NegInf, NegInf => true
  | PosInf, PosInf => true
  | Fin p, Fin q => Qeq_bool p q
  | _, _ => false
  end.

(** [Math.floor]. *)
Definition floor (a : number) : number :=
  match a with
  | Fin q => ofZ (Qfloor q)
  | _ => a
  end.

(** [Math.min] and [Math.max] of two arguments: NaN if either is NaN. *)
Definition min (a b : number) : number :=
  match a, b with
  | NaN, _ | _, NaN => NaN
  | _, _ => if leb a b then a else b
  end.

Definition max (a b : number) : number :=
  match a, b with
  | NaN, _ | _, NaN => NaN
  | _, _ => if leb a b then b else a
  end.

Definition neg (a : number) : number :=
  match a with
  | NaN => NaN
  | NegInf => PosInf
  | PosInf => NegInf
  | Fin q => fin (- q)
  end.

(** [a + b]. *)
Definition add (a b : number) : number :=
  match a, b with
  | NaN, _ | _, NaN => NaN
  | PosInf, NegInf | NegInf, PosInf => NaN
  | PosInf, _ | _, PosInf => PosInf
  | NegInf, _ | _, NegInf => NegInf
  | Fin p, Fin q => fin (p + q)
  end.

(** [a - b]. *)
Definition sub (a b : number) : number :=
  match a, b with
  | NaN, _ | _, NaN => NaN
  | PosInf, PosInf | NegInf, NegInf => NaN
  | PosInf, _ | _, NegInf => PosInf
  | NegInf, _ | _, PosInf => NegInf
  | Fin p, Fin q => fin (p - q)
  end.

(** An infinity of the sign of [inf] times the sign of the finite [q];
    NaN when [q] is zero. *)
Definition scaled_inf (inf : number) (q : Q) : number :=
  if Qeq_bool q 0 then NaN
  else if Qle_bool 0 q then inf
  else neg inf.

(** [a * b]. *)
Definition mul (a b : number) : number :=
  match a, b with
  | NaN, _ | _, NaN => NaN
  | PosInf, PosInf | NegInf, NegInf => PosInf
  | PosInf, NegInf | NegInf, PosInf => NegInf
  | Fin p, (PosInf | NegInf) => scaled_inf b p
  | (PosInf | NegInf), Fin q => scaled_inf a q
  | Fin p, Fin q => fin (p * q)
  end.

(** [a / b]; a finite zero divisor counts as positive zero. *)
Definition div (a b : number) : number :=
  match a, b with
  | NaN, _ | _, NaN => NaN
  | (PosInf | NegInf), (PosInf | NegInf) => NaN
  | (PosInf | NegInf), Fin q => if Qle_bool 0 q then a else neg a
  | Fin _, (PosInf | NegInf) => zero
  | Fin p, Fin q =>
      if Qeq_bool q 0 then scaled_inf PosInf p
      else fin (p / q)
  end.

End JsNumber.

Import JsNumber.

(** ** The program *)

Definition bind {A B : Type} (c : option A) (k : A -> option B) : option B :=
  match c with
  | Some a => k a
  | None => None
  end.

Notation "x <- c ;; k" := (bind c (fun x => k))
  (at level 61, c at next level, right associativity).

Inductive KeepMode : Type :=
| keep
| noKeep.

(** [clamp(value, min, max)] = [Math.max(min, Math.min(max, value))]. *)
Definition clamp (value lo hi : number) : number :=
  max lo (min hi value).

(** The loop of [combination]:
    [for (let i = 1; i <= kEff; i += 1) result *= (n - kEff + i) / i]. *)
Fixpoint combination_loop (fuel : nat) (n kEff : number) (i : Z)
    (result : number) : option number :=
  match fuel with
  | O => None
  | S fuel' =>
      if leb (ofZ i) kEff then
        combination_loop fuel' n kEff (i + 1)
          (mul result (div (add (sub n kEff) (ofZ i)) (ofZ i)))
      else Some result
  end.

Definition combination (fuel : nat) (n k : number) : option number :=
  if negb (isFinite n) || negb (isFinite k) then Some zero
  else
    let n := floor n in
    let k := floor k in
    if ltb k zero || gtb k n then Some zero
    else
      let kEff := min k (sub n k) in
      if strict_eq kEff zero then Some one
      else combination_loop fuel n kEff 1 one.

(** The loop of [zeroHitHypergeometricRatio]. *)
Fixpoint zeroHit_loop (fuel : nat) (total nonTargets draws : number) (i : Z)
    (product : number) : option number :=
  match fuel with
  | O => None
  | S fuel' =>
      if ltb (ofZ i) draws then
        let numerator := sub nonTargets (ofZ i) in
        let denominator := sub total (ofZ i) in
        if leb numerator zero then Some zero
        else zeroHit_loop fuel' total nonTargets draws (i + 1)
               (mul product (div numerator denominator))
      else Some product
  end.

(** The function is declared twice, once per page, with the same body. *)
Definition zeroHitHypergeometricRatio (fuel : nat)
    (total targetInDeck draws : number) : option number :=
  if leb draws zero then Some one
  else if leb targetInDeck zero then Some one
  else if leb total zero then Some one
  else if gtb draws total then Some zero
  else
    let nonTargets := sub total targetInDeck in
    if ltb nonTargets zero then Some zero
    else zeroHit_loop fuel total nonTargets draws 0 one.

(** The summation loop of the no-keep policy. *)
Fixpoint noKeep_loop (fuel0 fuel : nat) (n l denomInitial kMax : number)
    (k : Z) (sum : number) : option number :=
  match fuel with
  | O => None
  | S fuel' =>
      if leb (ofZ k) kMax then
        c1 <- combination fuel0 n (ofZ k) ;;
        c2 <- combination fuel0 (sub (add (ofZ 36) l) n) (sub l (ofZ k)) ;;
        let plNumerator := mul c1 c2 in
        let pl := if strict_eq denomInitial zero then zero
                  else div plNumerator denomInitial in
        qLk <- zeroHitHypergeometricRatio fuel0 (ofZ 36) (sub n (ofZ k)) l ;;
        noKeep_loop fuel0 fuel' n l denomInitial kMax (k + 1)
          (add sum (mul pl qLk))
      else Some sum
  end.

Definition probabilityAtLeastOne (fuel : nat) (keepMode : KeepMode)
    (mulliganCount targetsInDeck drawsFromDeck : number) : option number :=
  let n := clamp (floor targetsInDeck) zero (ofZ 40) in
  let l := clamp (floor mulliganCount) zero (ofZ 40) in
  let m := clamp (floor drawsFromDeck) zero (ofZ 40) in
  match keepMode with
  | keep =>
      pNoInitial <- zeroHitHypergeometricRatio fuel (ofZ 40) n (ofZ 4) ;;
      pNoMulligan <- zeroHitHypergeometricRatio fuel (ofZ 36) n l ;;
      pNoDraws <- zeroHitHypergeometricRatio fuel (ofZ 36) n m ;;
      let pNo := mul (mul pNoInitial pNoMulligan) pNoDraws in
      Some (clamp (sub one pNo) zero one)
  | noKeep =>
      qM <- zeroHitHypergeometricRatio fuel (ofZ 36) n m ;;
      denomInitial <- combination fuel (add (ofZ 36) l) l ;;
      let kMax := min l n in
      sum <- noKeep_loop fuel fuel n l denomInitial kMax 0 zero ;;
      let pNo := mul qM sum in
      Some (clamp (sub one pNo) zero one)
  end.

Definition probabilityAtLeastOneKeep (fuel : nat) (n l m : number)
    : option number :=
  let nn := clamp (floor n) zero (ofZ 40) in
  let ll := clamp (floor l) zero (ofZ 4) in
  let mm := clamp (floor m) zero (ofZ 40) in
  pNoMulligan <- zeroHitHypergeometricRatio fuel (ofZ 36) nn ll ;;
  pNoDraws <- zeroHitHypergeometricRatio fuel (ofZ 36) nn mm ;;
  let pNo := mul pNoMulligan pNoDraws in
  Some (clamp (sub one pNo) zero one).

(** ** The specification's formulas

    Definitions written after the specification's wording, to be compared
    with the program above. *)

(** The integers [i], [i+1], ..., [i+len-1]. *)
Fixpoint zrange (i : Z) (len : nat) : list Z :=
  match len with
  | O => []
  | S len' => i :: zrange (i + 1) len'
  end.

Module Spec.

(** The integers [i] with [0 <= i < draws], i.e. [0 .. draws-1]. *)
Definition indices (draws : number) : list Z :=
  match draws with
  | Fin q => zrange 0 (Z.to_nat (Qceiling q))
  | _ => []
  end.

(** The running product over [i = 0 .. draws-1] of
    [(nonTargets - i) / (total - i)], or 0 if any numerator is [<= 0]. *)
Definition running_product (total nonTargets draws : number) : number :=
  let idx := indices draws in
  if existsb (fun i => leb (sub nonTargets (ofZ i)) zero) idx then zero
  else fold_left
         (fun p i => mul p (div (sub nonTargets (ofZ i)) (sub total (ofZ i))))
         idx one.

(** The short-circuit rules in their priority order, then the product. *)
Definition zeroHitRatio (total targetInDeck draws : number) : number :=
  if leb draws zero then one
  else if leb targetInDeck zero then one
  else if leb total zero then one
  else if gtb draws total then zero
  else if ltb (sub total targetInDeck) zero then zero
  else running_product total (sub total targetInDeck) draws.

(** [kEff = min(k, n-k)] on the floored arguments. *)
Definition kEff (n k : number) : Z :=
  match n, k with
  | Fin p, Fin q => Z.min (Qfloor q) (Qfloor p - Qfloor q)
  | _, _ => 0
  end.

(** [C(n,k)] as the minimal-index product over [i = 1 .. kEff] of
    [(n - kEff + i) / i]. *)
Definition combination (n k : number) : number :=
  match n, k with
  | Fin p, Fin q =>
      let n' := Qfloor p in
      let k' := Qfloor q in
      if ((k' <? 0) || (k' >? n'))%Z then zero
      else
        let e := Z.min k' (n' - k') in
        if (e =? 0)%Z then one
        else fold_left
               (fun r i => mul r (div (ofZ (n' - e + i)) (ofZ i)))
               (zrange 1 (Z.to_nat e)) one
  | _, _ => zero
  end.

End Spec.

(** "Floored and clamped to [0, hi]". *)
Definition floorClamp (x : number) (hi : Z) : number :=
  clamp (floor x) zero (ofZ hi).

(** The no-keep policy. *)
Module NoKeepSpec.

(** The integers [k] with [0 <= k <= kMax]. *)
Definition upTo (kMax : number) : list Z :=
  match kMax with
  | Fin q => zrange 0 (Z.to_nat (Qfloor q + 1))
  | _ => []
  end.

(** [P_l(k) = C(n,k) * C(36+l-n, l-k) / C(36+l, l)], taken to be 0 when
    [C(36+l, l) = 0]. *)
Definition P_l (n l : number) (k : Z) : number :=
  let denom := Spec.combination (add (ofZ 36) l) l in
  if strict_eq denom zero then zero
  else div (mul (Spec.combination n (ofZ k))
                (Spec.combination (sub (add (ofZ 36) l) n) (sub l (ofZ k))))
           denom.

(** [Q_l(k) = zeroHitRatio(36, n-k, l)]. *)
Definition Q_l (n l : number) (k : Z) : number :=
  Spec.zeroHitRatio (ofZ 36) (sub n (ofZ k)) l.

(** [Q_m = zeroHitRatio(36, n, m)]. *)
Definition Q_m (n m : number) : number :=
  Spec.zeroHitRatio (ofZ 36) n m.

(** The sum over [k = 0 .. min(l,n)] of [P_l(k) * Q_l(k)]. *)
Definition missSum (n l : number) : number :=
  fold_left (fun s k => add s (mul (P_l n l k) (Q_l n l k)))
            (upTo (min l n)) zero.

(** [clamp(1 - Q_m * sum, 0, 1)]. *)
Definition atLeastOne (n l m : number) : number :=
  clamp (sub one (mul (Q_m n m) (missSum n l))) zero one.

End NoKeepSpec.

(** [le_result a b]: both calls return and the first value is [<=] the
    second. *)
Definition le_result (a b : option number) : Prop :=
  match a, b with
  | Some x, Some y => leb x y = true
  | _, _ => False
  end.

(** ** Values

    Finite values as rationals, for the bounds and the order. *)

(** [val_is x q]: the number [x] is finite and equal to the rational [q]. *)
Definition val_is (x : number) (q : Q) : Prop :=
  match x with
  | Fin p => p == q
  | _ => False
  end.

(** A finite value is in lowest terms. *)
Definition reduced (x : number) : Prop :=
  match x with
  | Fin q => Qred q = q
  | _ => True
  end.

(** The value of [clamp(x, 0, 1)] on a finite [x]. *)
Definition clampQ (q : Q) : Q :=
  if Qle_bool q 0 then 0 else if Qle_bool 1 q then 1 else q.

(** An argument that is not NaN, floored and clamped to [0, hi], as an
    integer: [max(0, min(hi, floor x))], with [hi] for +Infinity and 0 for
    -Infinity. *)
Definition clampZ (x : number) (hi : Z) : Z :=
  match x with
  | Fin q => Z.max 0 (Z.min hi (Qfloor q))
  | PosInf => hi
  | _ => 0
  end.

(** The product of the first [len] factors [(nt - j) / (T - j)]. *)
Fixpoint missProduct (T nt : Z) (len : nat) : Q :=
  match len with
  | O => 1
  | S len' =>
      missProduct T nt len' *
      (inject_Z (nt - Z.of_nat len') / inject_Z (T - Z.of_nat len'))
  end.

(** The value of the ratio on integer arguments. *)
Definition missValue (T t d : Z) : Q :=
  if ((d <=? 0) || (t <=? 0) || (T <=? 0))%Z then 1
  else if (T - t <? d)%Z then 0
  else missProduct T (T - t) (Z.to_nat d).

(** The ratio when the draw count is NaN: the loop does not run. *)
Definition nanDrawsValue (T t : Z) : Q :=
  if ((t <=? 0) || (T <=? 0))%Z then 1
  else if (T - t <? 0)%Z then 0
  else 1.

(** The value of the ratio on a floored and clamped draw count. *)
Definition drawsValue (T t : Z) (d : number) : Q :=
  match d with
  | Fin q => missValue T t (Qfloor q)
  | _ => nanDrawsValue T t
  end.

(** ** The clamps of the specification, by cases

    "Floored and clamped to [0, hi]" ([input], through [clampZ] above) and
    "clamped to [0, 1]" ([toUnit]), written after the specification's words
    and without the program's [clamp].  A NaN is neither floored nor
    clamped. *)
Module ClampSpec.

Definition input (x : number) (hi : Z) : number :=
  match x with
  | NaN => NaN
  | _ => ofZ (clampZ x hi)
  end.

Definition toUnit (x : number) : number :=
  if ltb x zero then zero
  else if leb one x then one
  else x.

End ClampSpec.

(** ** The zero-hit ratio in binary64

    The same function over the kernel's binary64 numbers, every operation
    rounding as the language's does.  The loop counter is a double, as in the
    program; [draws > total] is written [total <? draws]. *)
Module F64.

Import PrimFloat.
Local Open Scope float_scope.

(** The double of an integer, exact below [2^53]. *)
Fixpoint ofPos (p : positive) : float :=
  match p with
  | xH => 1
  | xO q => 2 * ofPos q
  | xI q => 2 * ofPos q + 1
  end.

Definition ofZ (z : Z) : float :=
  match z with
  | Z0 => 0
  | Zpos p => ofPos p
  | Zneg p => - ofPos p
  end.

Fixpoint zeroHit_loop (fuel : nat) (total nonTargets draws i product : float)
    : option float :=
  match fuel with
  | O => None
  | S fuel' =>
      if i <? draws then
        let numerator := nonTargets - i in
        let denominator := total - i in
        if numerator <=? 0 then Some 0
        else zeroHit_loop fuel' total nonTargets draws (i + 1)
               (product * (numerator / denominator))
      else Some product
  end.

Definition zeroHitHypergeometricRatio (fuel : nat)
    (total targetInDeck draws : float) : option float :=
  if draws <=? 0 then Some 1
  else if targetInDeck <=? 0 then Some 1
  else if total <=? 0 then Some 1
  else if total <? draws then Some 0
  else
    let nonTargets := total - targetInDeck in
    if nonTargets <? 0 then Some 0
    else zeroHit_loop fuel total nonTargets draws 0 1.

(** [0 <= r <= 1] and [r === 0]. *)
Definition inUnit (r : float) : bool := (0 <=? r) && (r <=? 1).

Definition isZero (r : float) : bool := (r =? 0).

Local Close Scope float_scope.

End F64.

(** One call on integers: the binary64 result is in [0, 1] and is 0 exactly
    when the draws exceed the non-targets. *)
Definition f64_cell_ok (T t d : Z) : bool :=
  match F64.zeroHitHypergeometricRatio 101 (F64.ofZ T) (F64.ofZ t) (F64.ofZ d)
  with
  | Some r => F64.inUnit r && Bool.eqb (F64.isZero r) (T - t <? d)%Z
  | None => false
  end.

(** ** The no-keep sum as a table

    The sum is evaluated on the 41 x 41 grid of clamped arguments. *)

(** The clamped arguments [0 .. 40]. *)
Definition grid : list Z := zrange 0 41.

(** A finite value [>= 0]. *)
Definition nonneg (x : number) : bool :=
  match x with
  | Fin q => Qle_bool 0 q
  | _ => false
  end.

Definition geb (x y : number) : bool := leb y x.

(** [R] holds between each element and the next. *)
Fixpoint adjacent {A : Type} (R : A -> A -> bool) (xs : list A) : bool :=
  match xs with
  | x :: (y :: _) as rest => R x y && adjacent R rest
  | _ => true
  end.

(** [R] holds between the elements at the same position. *)
Fixpoint pointwise {A : Type} (R : A -> A -> bool) (xs ys : list A) : bool :=
  match xs, ys with
  | x :: xs', y :: ys' => R x y && pointwise R xs' ys'
  | _, _ => true
  end.

(** The table of [F l n] over the grid: row [l], column [n]. *)
Definition tableOf (F : Z -> Z -> number) : list (list number) :=
  map (fun l => map (fun n => F l n) grid) grid.

(** Every entry is a finite value [>= 0]; every row is non-increasing; the
    rows up to [l = 36] are non-increasing from one row to the next. *)
Definition table_check (rows : list (list number)) : bool :=
  forallb (forallb nonneg) rows &&
  forallb (adjacent geb) rows &&
  adjacent (pointwise geb) (firstn 37 rows).

(** A table of [f a b] for [a0 <= a < a0 + rows] and [0 <= b < cols], and
    the lookup in it. *)
Definition tab (a0 : Z) (rows cols : nat) (f : Z -> Z -> number)
    : list (list number) :=
  map (fun a => map (fun b => f a b) (zrange 0 cols)) (zrange a0 rows).

Definition look (a0 : Z) (T : list (list number)) (a b : Z) : number :=
  nth (Z.to_nat b) (nth (Z.to_nat (a - a0)) T []) NaN.

(** [combination] and the zero-hit ratio over 36 cards on integers. *)
Definition combF (a b : Z) : number := Spec.combination (ofZ a) (ofZ b).

Definition zhF (t d : Z) : number :=
  Spec.zeroHitRatio (ofZ 36) (ofZ t) (ofZ d).

(** The sum of the no-keep policy for mulligan count [l] and [n] targets,
    over given combination and zero-hit functions. *)
Definition cellWith (C Zh : Z -> Z -> number) (l n : Z) : number :=
  fold_left
    (fun s k =>
       add s (mul (if strict_eq (C (36 + l) l)%Z zero then zero
                   else div (mul (C n k) (C (36 + l - n) (l - k))%Z)
                            (C (36 + l) l)%Z)
                  (Zh (n - k)%Z l)))
    (zrange 0 (Z.to_nat (Z.min l n + 1))) zero.

(** The same sum with both functions read from tables computed once. *)
Definition fastCell : Z -> Z -> number :=
  cellWith (look (-4) (tab (-4) 81 41 combF)) (look 0 (tab 0 41 41 zhF)).

(** ** Factorials, for the binomial coefficient *)

(** [n!] as a rational. *)
Definition factQ (n : nat) : Q := inject_Z (Z.of_nat (fact n)).

(** The product over [i = 1 .. len] of [(m + i) / i]. *)
Fixpoint risingQ (m : Z) (len : nat) : Q :=
  match len with
  | O => 1
  | S len' =>
      risingQ m len' *
      (inject_Z (m + Z.of_nat (S len')) / inject_Z (Z.of_nat (S len')))
  end.

(** ** The range slider

    [DualRangeSlider] is declared once per page with the same body.  Its
    numeric helpers and its drag handlers are modelled over the props; a
    handler returns the arguments of the [onChange] call it makes, if any. *)

(** [Math.round]: the nearest integer, a tie going toward +Infinity. *)
Definition round (a : number) : number :=
  match a with
  | Fin q => ofZ (Qfloor (q + (1 # 2)))
  | _ => a
  end.

Module DualRangeSlider.

(** The handle being dragged: ['min'] or ['max']; [None] is [null]. *)
Inductive Handle : Type :=
| handle_min
| handle_max.

(** The two fields read from [getBoundingClientRect()]. *)
Record DOMRect : Type := { rect_left : number; rect_width : number }.

(** The [step] prop with its default value 1. *)
Definition stepOrDefault (step : option number) : number :=
  match step with
  | Some s => s
  | None => one
  end.

Section Props.

Variables min max step valueMin valueMax : number.

Definition range : number := sub max min.

Definition percent (v : number) : number :=
  mul (div (sub v min) range) (ofZ 100).

Definition left : number := percent valueMin.
Definition right : number := percent valueMax.

(** The width of the selected range: [Math.max(0, right - left)]. *)
Definition selectedWidth : number := JsNumber.max zero (sub right left).

Definition quantize (value : number) : number :=
  let snapped := add (mul (round (div (sub value min) step)) step) min in
  clamp snapped min max.

(** [rect] is [None] when the container is not mounted. *)
Definition positionToValue (rect : option DOMRect) (clientX : number)
    : number :=
  match rect with
  | None => min
  | Some r =>
      let x := clamp (sub clientX (rect_left r)) zero (rect_width r) in
      let ratio := if strict_eq (rect_width r) zero then zero
                   else div x (rect_width r) in
      let raw := add min (mul ratio (sub max min)) in
      quantize raw
  end.

Definition onMove (dragging : option Handle) (rect : option DOMRect)
    (clientX : number) : option (number * number) :=
  match dragging with
  | None => None
  | Some h =>
      let val := positionToValue rect clientX in
      match h with
      | handle_min =>
          let next := JsNumber.min val valueMax in
          if negb (strict_eq next valueMin) then Some (next, valueMax)
          else None
      | handle_max =>
          let next := JsNumber.max val valueMin in
          if negb (strict_eq next valueMax) then Some (valueMin, next)
          else None
      end
  end.

(** [touch] is the [clientX] of [e.touches[0]], [None] when there is no
    touch point. *)
Definition onTouchMove (dragging : option Handle) (rect : option DOMRect)
    (touch : option number) : option (number * number) :=
  match dragging with
  | None => None
  | Some h =>
      match touch with
      | None => None
      | Some clientX =>
          let val := positionToValue rect clientX in
          match h with
          | handle_min =>
              let next := JsNumber.min val valueMax in
              if negb (strict_eq next valueMin) then Some (next, valueMax)
              else None
          | handle_max =>
              let next := JsNumber.max val valueMin in
              if negb (strict_eq next valueMax) then Some (valueMin, next)
              else None
          end
      end
  end.

End Props.

End DualRangeSlider.

(** A finite value of magnitude at most [2^1022]: the difference of two
    such values is finite in binary64 too. *)
Definition moderate (x : number) : bool :=
  leb (ofZ (- 2 ^ 1022)) x && leb x (ofZ (2 ^ 1022)).

(** The value of [clamp] on finite arguments. *)
Definition clampQ3 (v lo hi : Q) : Q :=
  let m := if Qle_bool hi v then hi else v in
  if Qle_bool lo m then m else lo.

(** The snapped value of [quantize] before the clamp, on finite values. *)
Definition snapQ (b s a : Q) : Q :=
  inject_Z (Qfloor ((a - b) / s + (1 # 2))) * s + b.

(** The ratio of [positionToValue], on finite values. *)
Definition ratioQ (x rl w : Q) : Q :=
  if Qeq_bool w 0 then 0 else clampQ3 (x - rl) 0 w / w.

(** ** The pages

    The sweep of the two sliders, the table and the chart coordinates of
    [Home], and the colours and the table of [MulliganKeepPage]. *)

(** An exception: [Array.from] throws a [RangeError] on a length above
    [2^32 - 1]. *)
Inductive thrown : Type :=
| RangeError.

(** [ToLength]: truncate, then clamp to [0, 2^53 - 1]. *)
Definition toLength (x : number) : Z :=
  match x with
  | NaN | NegInf => 0
  | PosInf => 2 ^ 53 - 1
  | Fin q => Z.max 0 (Z.min (2 ^ 53 - 1) (Qfloor q))
  end.

(** [Array.from({ length: len }, (_, i) => f(i))]. *)
Definition arrayFromLength {A : Type} (len : number) (f : Z -> A)
    : thrown + list A :=
  let n := toLength len in
  if (2 ^ 32 - 1 <? n)%Z then inl RangeError
  else inr (map f (zrange 0 (Z.to_nat n))).

(** The body of [nValues] and of [mValues], on both pages: the integers
    from the smaller slider value to the larger one.  The sums [start + i]
    are exact here; the program's agree with them up to [2^53]. *)
Definition valuesBetween (vMin vMax : number) : thrown + list number :=
  let start := min vMin vMax in
  let end_ := max vMin vMax in
  arrayFromLength (add (sub end_ start) one) (fun i => add start (ofZ i)).

Module Home.

Definition tableData (fuel : nat) (keepMode : KeepMode)
    (mulliganCount : number) (nValues mValues : list number)
    : list (list (option number)) :=
  map (fun n =>
         map (fun m => probabilityAtLeastOne fuel keepMode mulliganCount n m)
             mValues)
      nValues.

Definition chartWidth : number := ofZ 720.
Definition chartHeight : number := ofZ 320.

Record Margin : Type :=
  { top : number; right : number; bottom : number; left : number }.

Definition margin : Margin :=
  {| top := ofZ 16; right := ofZ 16; bottom := ofZ 32; left := ofZ 40 |}.

Definition innerWidth : number :=
  sub (sub chartWidth (left margin)) (right margin).

Definition innerHeight : number :=
  sub (sub chartHeight (top margin)) (bottom margin).

(** The abscissa of the point of index [idx] among [length] values of m:
    [length > 1 ? (idx * innerWidth) / (length - 1) : innerWidth / 2]. *)
Definition pointX (length idx : Z) : number :=
  if gtb (ofZ length) (ofZ 1)
  then div (mul (ofZ idx) innerWidth) (sub (ofZ length) (ofZ 1))
  else div innerWidth (ofZ 2).

(** The ordinate of a probability [p]: [innerHeight - p * innerHeight]. *)
Definition pointY (p : number) : number :=
  sub innerHeight (mul p innerHeight).

Import String.
Local Open Scope string_scope.

(** The decimal text of an integer, as a template literal prints it. *)
Definition showZ (z : Z) : String.string :=
  DecimalString.NilZero.string_of_int (Z.to_int z).

(** [(n * 37) % 360]; the remainder has the sign of [n].  The product is
    exact here; the program's agrees with it while [|n * 37| <= 2^53]. *)
Definition hue (n : Z) : Z := Z.rem (n * 37) 360.

(** [colorForN] on an integer target count. *)
Definition colorForN (n : Z) : String.string :=
  String.append "hsl(" (String.append (showZ (hue n)) " 70% 45%)").

Local Close Scope string_scope.

End Home.

Module MulliganKeepPage.

Definition lCurves : list Z := [0; 1; 2; 3; 4]%Z.
Definition lRows : list Z := [0; 1; 2; 3; 4]%Z.

Import String.
Local Open Scope string_scope.

Definition palette : list String.string :=
  ["#0072B2"; "#E69F00"; "#009E73"; "#D55E00"; "#CC79A7"].

Local Close Scope string_scope.

(** [palette[l % palette.length]] on an integer [l]; [None] is
    [undefined]. *)
Definition colorForL (l : Z) : option String.string :=
  let i := Z.rem l (Z.of_nat (List.length palette)) in
  if (i <? 0)%Z then None else nth_error palette (Z.to_nat i).

(** The rows of the table: one per [l] of [lRows], one cell per m. *)
Definition tableRows (fuel : nat) (n : number) (mValues : list number)
    : list (list (option number)) :=
  map (fun l =>
         map (fun m => probabilityAtLeastOneKeep fuel n (ofZ l) m) mValues)
      lRows.

End MulliganKeepPage.

(** ** The program on concrete arguments *)

Example keep_three_targets_opening_hand :
  probabilityAtLeastOne 42 keep (ofZ 0) (ofZ 3) (ofZ 0) =
  Some (Fin (137 # 494)).
Proof. reflexivity. Qed.

Example keep_no_targets :
  probabilityAtLeastOne 42 keep (ofZ 2) (ofZ 0) (ofZ 9) = Some zero.
Proof. reflexivity. Qed.

Example keep_every_card_a_target :
  probabilityAtLeastOne 42 keep (ofZ 0) (ofZ 40) (ofZ 0) = Some one.
Proof. reflexivity. Qed.

Example noKeep_three_targets_five_draws :
  probabilityAtLeastOne 42 noKeep (ofZ 0) (ofZ 3) (ofZ 5) =
  Some (Fin (529 # 1428)).
Proof. reflexivity. Qed.

Example restricted_fractional_and_infinite_arguments :
  probabilityAtLeastOneKeep 42 (Fin (7 # 2)) PosInf NegInf =
  probabilityAtLeastOneKeep 42 (ofZ 3) (ofZ 4) (ofZ 0).
Proof. reflexivity. Qed.

Example combination_76_40 :
  combination 42 (ofZ 76) (ofZ 40) = Some (ofZ 6212195276963285554210).
Proof. reflexivity. Qed.

Example loop_out_of_fuel :
  zeroHitHypergeometricRatio 3 (ofZ 36) (ofZ 3) (ofZ 9) = None.
Proof. reflexivity. Qed.

(** ** Integers inside [number] *)

Lemma Qred_inject_Z (z : Z) : Qred (inject_Z z) = inject_Z z.
Proof.
  apply Qred_identity. simpl. apply Z.gcd_1_r.
Qed.

Lemma fin_eq_ofZ (q : Q) (z : Z) : q == inject_Z z -> fin q = ofZ z.
Proof.
  intros H. unfold fin, ofZ. f_equal.
  rewrite (Qred_complete _ _ H). apply Qred_inject_Z.
Qed.

Lemma sub_ofZ (a b : Z) : sub (ofZ a) (ofZ b) = ofZ (a - b).
Proof.
  simpl. apply fin_eq_ofZ. unfold Qminus, Z.sub.
  rewrite inject_Z_plus, inject_Z_opp. reflexivity.
Qed.

Lemma add_ofZ (a b : Z) : add (ofZ a) (ofZ b) = ofZ (a + b).
Proof.
  simpl. apply fin_eq_ofZ. rewrite inject_Z_plus. reflexivity.
Qed.

Lemma leb_ofZ (a b : Z) : leb (ofZ a) (ofZ b) = (a <=? b)%Z.
Proof.
  simpl. unfold Qle_bool. simpl. now rewrite !Z.mul_1_r.
Qed.

Lemma ltb_ofZ (a b : Z) : ltb (ofZ a) (ofZ b) = (a <? b)%Z.
Proof.
  simpl. unfold Qle_bool. simpl. rewrite !Z.mul_1_r.
  now rewrite Z.ltb_antisym.
Qed.

Lemma strict_eq_ofZ (a b : Z) : strict_eq (ofZ a) (ofZ b) = (a =? b)%Z.
Proof.
  simpl. unfold Qeq_bool. simpl. now rewrite !Z.mul_1_r.
Qed.

(** An integer is below [q] exactly when it is below the ceiling of [q]. *)
Lemma ltb_ofZ_Fin (i : Z) (q : Q) : ltb (ofZ i) (Fin q) = (i <? Qceiling q)%Z.
Proof.
  simpl. destruct (Z.ltb_spec i (Qceiling q)) as [H | H].
  - apply negb_true_iff. apply not_true_iff_false. rewrite Qle_bool_iff.
    apply Qlt_not_le.
    apply Qle_lt_trans with (inject_Z (Qceiling q - 1)).
    + rewrite <- Zle_Qle. lia.
    + apply Qceiling_lt.
  - apply negb_false_iff. rewrite Qle_bool_iff.
    apply Qle_trans with (inject_Z (Qceiling q)).
    + apply Qle_ceiling.
    + rewrite <- Zle_Qle. exact H.
Qed.

Lemma zrange_length (i : Z) (len : nat) : length (zrange i len) = len.
Proof.
  revert i. induction len as [| len IH]; intros i; simpl; [reflexivity |].
  now rewrite IH.
Qed.

Lemma zrange_In (j i : Z) (len : nat) :
  In j (zrange i len) <-> (i <= j < i + Z.of_nat len)%Z.
Proof.
  revert i. induction len as [| len IH]; intros i; simpl.
  - lia.
  - rewrite IH. lia.
Qed.

Lemma zrange_snoc (i : Z) (len : nat) :
  zrange i (S len) = zrange i len ++ [(i + Z.of_nat len)%Z].
Proof.
  revert i. induction len as [| len IH]; intros i.
  - simpl. now rewrite Z.add_0_r.
  - change (zrange i (S (S len))) with (i :: zrange (i + 1) (S len)).
    rewrite IH. simpl. do 3 f_equal. lia.
Qed.

Lemma min_ofZ (a b : Z) : min (ofZ a) (ofZ b) = ofZ (Z.min a b).
Proof.
  unfold min. change (ofZ a) with (Fin (inject_Z a)) at 1.
  change (ofZ b) with (Fin (inject_Z b)) at 1. cbv iota beta.
  change (leb (Fin (inject_Z a)) (Fin (inject_Z b))) with (leb (ofZ a) (ofZ b)).
  rewrite leb_ofZ. destruct (Z.leb_spec a b).
  - now rewrite Z.min_l.
  - now rewrite Z.min_r by lia.
Qed.

Lemma max_ofZ (a b : Z) : max (ofZ a) (ofZ b) = ofZ (Z.max a b).
Proof.
  unfold max. change (ofZ a) with (Fin (inject_Z a)) at 1.
  change (ofZ b) with (Fin (inject_Z b)) at 1. cbv iota beta.
  change (leb (Fin (inject_Z a)) (Fin (inject_Z b))) with (leb (ofZ a) (ofZ b)).
  rewrite leb_ofZ. destruct (Z.leb_spec a b).
  - now rewrite Z.max_r.
  - now rewrite Z.max_l by lia.
Qed.

(** ** The loops against their closed forms *)

Section ZeroHitLoop.

Variables total nonTargets draws : number.

Let numerator_le_0 (j : Z) : bool := leb (sub nonTargets (ofZ j)) zero.
Let step (p : number) (j : Z) : number :=
  mul p (div (sub nonTargets (ofZ j)) (sub total (ofZ j))).

(** The loop visits [i, i+1, ...] while the test holds; it answers 0 at the
    first numerator [<= 0] and the accumulated product otherwise. *)
Lemma zeroHit_loop_closed (len : nat) :
  forall (fuel : nat) (i : Z) (p : number),
    (len < fuel)%nat ->
    (forall j, In j (zrange i len) -> ltb (ofZ j) draws = true) ->
    ltb (ofZ (i + Z.of_nat len)) draws = false ->
    zeroHit_loop fuel total nonTargets draws i p =
    Some (if existsb numerator_le_0 (zrange i len) then zero
          else fold_left step (zrange i len) p).
Proof.
  induction len as [| len IH]; intros fuel i p Hfuel Hin Hout.
  - destruct fuel as [| fuel]; [lia |].
    cbn [zeroHit_loop zrange existsb fold_left].
    change (Z.of_nat 0) with 0%Z in Hout.
    rewrite Z.add_0_r in Hout. now rewrite Hout.
  - destruct fuel as [| fuel]; [lia |].
    cbn [zeroHit_loop zrange existsb fold_left].
    rewrite (Hin i) by (left; reflexivity).
    fold (numerator_le_0 i). destruct (numerator_le_0 i); [reflexivity |].
    cbn [orb]. apply IH.
    + lia.
    + intros j Hj. apply Hin. right. exact Hj.
    + replace (i + 1 + Z.of_nat len)%Z with (i + Z.of_nat (S len))%Z by lia.
      exact Hout.
Qed.

End ZeroHitLoop.

Lemma zeroHit_loop_indices (fuel : nat) (total nonTargets draws p : number) :
  draws <> PosInf ->
  (length (Spec.indices draws) < fuel)%nat ->
  zeroHit_loop fuel total nonTargets draws 0 p =
  Some (if existsb (fun j => leb (sub nonTargets (ofZ j)) zero)
             (Spec.indices draws)
        then zero
        else fold_left
               (fun p j =>
                  mul p (div (sub nonTargets (ofZ j)) (sub total (ofZ j))))
               (Spec.indices draws) p).
Proof.
  intros Hinf Hfuel.
  destruct draws as [| | | q]; try contradiction.
  - destruct fuel; [simpl in Hfuel; lia | reflexivity].
  - destruct fuel; [simpl in Hfuel; lia | reflexivity].
  - unfold Spec.indices in *. rewrite zrange_length in Hfuel.
    apply zeroHit_loop_closed; [exact Hfuel | |].
    + intros j Hj. apply zrange_In in Hj. rewrite ltb_ofZ_Fin.
      apply Z.ltb_lt. lia.
    + rewrite ltb_ofZ_Fin. apply Z.ltb_ge. lia.
Qed.

Section CombinationLoop.

Variables n e : Z.

Let step (r : number) (i : Z) : number :=
  mul r (div (ofZ (n - e + i)) (ofZ i)).

Lemma combination_loop_closed (len : nat) :
  forall (fuel : nat) (i : Z) (r : number),
    (len < fuel)%nat ->
    (i + Z.of_nat len = e + 1)%Z ->
    combination_loop fuel (ofZ n) (ofZ e) i r =
    Some (fold_left step (zrange i len) r).
Proof.
  induction len as [| len IH]; intros fuel i r Hfuel Hlen.
  - destruct fuel as [| fuel]; [lia |]. simpl zrange. simpl fold_left.
    cbn [combination_loop]. rewrite leb_ofZ.
    destruct (Z.leb_spec i e); [lia | reflexivity].
  - destruct fuel as [| fuel]; [lia |].
    cbn [combination_loop zrange fold_left]. rewrite leb_ofZ.
    destruct (Z.leb_spec i e); [| lia].
    rewrite sub_ofZ, add_ofZ. fold (step r i). apply IH; lia.
Qed.

End CombinationLoop.

(** ** Claims about the combinatorial ratio engine *)

(** The program against the rule chain of the specification. *)
Lemma zeroHit_computes (fuel : nat) (total targetInDeck draws : number) :
  draws <> PosInf ->
  (length (Spec.indices draws) < fuel)%nat ->
  zeroHitHypergeometricRatio fuel total targetInDeck draws =
  Some (Spec.zeroHitRatio total targetInDeck draws).
Proof.
  intros Hinf Hfuel.
  unfold zeroHitHypergeometricRatio, Spec.zeroHitRatio.
  destruct (leb draws zero); [reflexivity |].
  destruct (leb targetInDeck zero); [reflexivity |].
  destruct (leb total zero); [reflexivity |].
  destruct (gtb draws total); [reflexivity |].
  cbv zeta. destruct (ltb (sub total targetInDeck) zero); [reflexivity |].
  unfold Spec.running_product. cbv zeta.
  now apply zeroHit_loop_indices.
Qed.

(** C5. [zeroHitHypergeometricRatio] applies the short-circuit rules in the
    stated order (draws <= 0 gives 1, then targetInDeck <= 0 gives 1, then
    total <= 0 gives 1, then draws > total gives 0, then
    total - targetInDeck < 0 gives 0) and otherwise returns the running
    product over i = 0..draws-1 of (nonTargets - i)/(total - i), or 0 when a
    numerator is <= 0.  The loop ends for every draw count but +Infinity. *)
Theorem zeroHit_follows_rules (fuel : nat) (total targetInDeck draws : number) :
  draws <> PosInf ->
  (length (Spec.indices draws) < fuel)%nat ->
  zeroHitHypergeometricRatio fuel total targetInDeck draws =
  Some (Spec.zeroHitRatio total targetInDeck draws).
Proof.
  intros Hinf Hfuel. now apply zeroHit_computes.
Qed.

Lemma zeroHit_follows_rules_witness :
  zeroHitHypergeometricRatio 5 (ofZ 36) (ofZ 3) (ofZ 4) =
  Some (Spec.zeroHitRatio (ofZ 36) (ofZ 3) (ofZ 4)).
Proof.
  apply zeroHit_follows_rules; [discriminate | vm_compute; lia].
Defined.

(** The program against the minimal-index product of the specification. *)
Lemma combination_computes (fuel : nat) (n k : number) :
  (Z.to_nat (Spec.kEff n k) < fuel)%nat ->
  combination fuel n k = Some (Spec.combination n k).
Proof.
  intros Hfuel. unfold combination, Spec.combination.
  destruct n as [| | | p]; try reflexivity.
  destruct k as [| | | q]; try reflexivity.
  cbn [isFinite negb orb floor]. cbv zeta.
  unfold gtb, zero. rewrite !ltb_ofZ, sub_ofZ, min_ofZ.
  rewrite Z.gtb_ltb.
  destruct ((Qfloor q <? 0)%Z || (Qfloor p <? Qfloor q)%Z) eqn:Hguard;
    [reflexivity |].
  rewrite strict_eq_ofZ.
  destruct (Z.eqb_spec (Z.min (Qfloor q) (Qfloor p - Qfloor q)) 0) as [He | He];
    [reflexivity |].
  apply orb_false_iff in Hguard. destruct Hguard as [H1 H2].
  apply Z.ltb_ge in H1, H2.
  simpl in Hfuel.
  apply combination_loop_closed; lia.
Qed.

(** C6. [combination] returns 0 when an argument is not finite or when,
    after flooring, k < 0 or k > n; otherwise, with kEff = min(k, n-k), it
    returns 1 when kEff = 0 and the product over i = 1..kEff of
    (n - kEff + i)/i otherwise. *)
Theorem combination_minimal_product (fuel : nat) (n k : number) :
  (Z.to_nat (Spec.kEff n k) < fuel)%nat ->
  combination fuel n k = Some (Spec.combination n k).
Proof.
  intros Hfuel. now apply combination_computes.
Qed.

Lemma combination_minimal_product_witness :
  combination 3 (ofZ 5) (ofZ 2) = Some (Spec.combination (ofZ 5) (ofZ 2)).
Proof.
  apply combination_minimal_product. vm_compute. lia.
Defined.

(** ** Finite values *)

Lemma val_is_ofZ (z : Z) : val_is (ofZ z) (inject_Z z).
Proof. unfold val_is, ofZ. reflexivity. Qed.

Lemma val_is_fin (q r : Q) : q == r -> val_is (fin q) r.
Proof. intros H. unfold val_is, fin. now rewrite Qred_correct. Qed.

Lemma val_is_Qeq (x : number) (q r : Q) : val_is x q -> q == r -> val_is x r.
Proof.
  destruct x; cbn [val_is]; try contradiction. intros H1 H2. now rewrite H1.
Qed.

Lemma val_is_mul (a b : number) (p q : Q) :
  val_is a p -> val_is b q -> val_is (mul a b) (p * q).
Proof.
  destruct a, b; cbn [val_is mul add sub]; try contradiction. intros Ha Hb.
  unfold fin, val_is. now rewrite Qred_correct, Ha, Hb.
Qed.

Lemma val_is_add (a b : number) (p q : Q) :
  val_is a p -> val_is b q -> val_is (add a b) (p + q).
Proof.
  destruct a, b; cbn [val_is mul add sub]; try contradiction. intros Ha Hb.
  unfold fin, val_is. now rewrite Qred_correct, Ha, Hb.
Qed.

Lemma val_is_sub (a b : number) (p q : Q) :
  val_is a p -> val_is b q -> val_is (sub a b) (p - q).
Proof.
  destruct a, b; cbn [val_is mul add sub]; try contradiction. intros Ha Hb.
  unfold fin, val_is. now rewrite Qred_correct, Ha, Hb.
Qed.

Lemma val_is_div (a b : number) (p q : Q) :
  val_is a p -> val_is b q -> ~ q == 0 -> val_is (div a b) (p / q).
Proof.
  destruct a as [| | | a], b as [| | | b]; cbn [val_is div];
    try contradiction.
  intros Ha Hb Hq.
  destruct (Qeq_bool b 0) eqn:E.
  - apply Qeq_bool_eq in E. exfalso. apply Hq. now rewrite <- Hb.
  - unfold fin, val_is. now rewrite Qred_correct, Ha, Hb.
Qed.

Lemma val_is_leb (a b : number) (p q : Q) :
  val_is a p -> val_is b q -> leb a b = Qle_bool p q.
Proof.
  destruct a as [| | | a], b as [| | | b]; cbn [val_is leb];
    try contradiction.
  intros Ha Hb.
  destruct (Qle_bool a b) eqn:E1, (Qle_bool p q) eqn:E2; try reflexivity.
  - apply Qle_bool_iff in E1. rewrite Ha, Hb in E1.
    apply Qle_bool_iff in E1. congruence.
  - apply Qle_bool_iff in E2. rewrite <- Ha, <- Hb in E2.
    apply Qle_bool_iff in E2. congruence.
Qed.

(** ** [zeroHitHypergeometricRatio] on integers *)

Lemma indices_ofZ (d : Z) : Spec.indices (ofZ d) = zrange 0 (Z.to_nat d).
Proof. unfold Spec.indices, ofZ. now rewrite Qceiling_Z. Qed.

Lemma inject_Z_pos (a : Z) : (0 < a)%Z -> 0 < inject_Z a.
Proof. intros H. change 0 with (inject_Z 0). now rewrite <- Zlt_Qlt. Qed.

Lemma factor_bounds (a b : Z) :
  (0 < a <= b)%Z ->
  0 < inject_Z a / inject_Z b /\ inject_Z a / inject_Z b <= 1.
Proof.
  intros [Ha Hab].
  assert (Hb : 0 < inject_Z b) by (apply inject_Z_pos; lia).
  split.
  - apply Qlt_shift_div_l; [exact Hb |]. rewrite Qmult_0_l.
    now apply inject_Z_pos.
  - apply Qle_shift_div_r; [exact Hb |]. rewrite Qmult_1_l.
    now rewrite <- Zle_Qle.
Qed.

Lemma missProduct_bounds (T nt : Z) (len : nat) :
  (Z.of_nat len <= nt <= T)%Z ->
  0 < missProduct T nt len /\ missProduct T nt len <= 1.
Proof.
  induction len as [| len IH]; intros H.
  - simpl. lra.
  - cbn [missProduct].
    destruct IH as [IH1 IH2]; [lia |].
    destruct (factor_bounds (nt - Z.of_nat len) (T - Z.of_nat len))
      as [F1 F2]; [lia |].
    split; nra.
Qed.

Section RunningProduct.

Variables T nt : Z.

Let step (p : number) (j : Z) : number :=
  mul p (div (sub (ofZ nt) (ofZ j)) (sub (ofZ T) (ofZ j))).

Lemma fold_missProduct (len : nat) :
  (Z.of_nat len <= nt <= T)%Z ->
  val_is (fold_left step (zrange 0 len) one) (missProduct T nt len).
Proof.
  induction len as [| len IH]; intros H.
  - simpl. reflexivity.
  - rewrite zrange_snoc, fold_left_app. cbn [fold_left missProduct].
    unfold step at 1. rewrite !sub_ofZ, Z.add_0_l.
    apply val_is_mul; [apply IH; lia |].
    apply val_is_div; try apply val_is_ofZ.
    intros E. assert (0 < inject_Z (T - Z.of_nat len))
      by (apply inject_Z_pos; lia).
    lra.
Qed.

(** With at least as many non-targets as draws no numerator is [<= 0]. *)
Lemma running_product_val (d : Z) :
  (0 <= d <= nt)%Z -> (nt <= T)%Z ->
  val_is (Spec.running_product (ofZ T) (ofZ nt) (ofZ d))
         (missProduct T nt (Z.to_nat d)).
Proof.
  intros Hd HT. unfold Spec.running_product. cbv zeta. rewrite indices_ofZ.
  destruct (existsb _ _) eqn:E.
  - apply existsb_exists in E. destruct E as [j [Hj Hle]].
    apply zrange_In in Hj. rewrite sub_ofZ in Hle. unfold zero in Hle.
    rewrite leb_ofZ in Hle. apply Z.leb_le in Hle. lia.
  - apply fold_missProduct. lia.
Qed.

(** With fewer non-targets than draws the numerator reaches 0. *)
Lemma running_product_zero (d : Z) :
  (0 <= nt < d)%Z ->
  Spec.running_product (ofZ T) (ofZ nt) (ofZ d) = zero.
Proof.
  intros Hd. unfold Spec.running_product. cbv zeta. rewrite indices_ofZ.
  destruct (existsb _ _) eqn:E; [reflexivity |].
  exfalso. apply not_true_iff_false in E. apply E.
  apply existsb_exists. exists nt. split.
  - apply zrange_In. lia.
  - rewrite sub_ofZ, Z.sub_diag. reflexivity.
Qed.

End RunningProduct.

Lemma Spec_zeroHitRatio_val (T t d : Z) :
  val_is (Spec.zeroHitRatio (ofZ T) (ofZ t) (ofZ d)) (missValue T t d).
Proof.
  unfold Spec.zeroHitRatio, missValue, gtb, zero.
  rewrite !leb_ofZ, ltb_ofZ, sub_ofZ, ltb_ofZ.
  destruct (Z.leb_spec d 0); [reflexivity |].
  destruct (Z.leb_spec t 0); [reflexivity |].
  destruct (Z.leb_spec T 0); [reflexivity |]. cbn [orb].
  destruct (Z.ltb_spec T d).
  - destruct (Z.ltb_spec (T - t) d); [reflexivity | lia].
  - destruct (Z.ltb_spec (T - t) 0).
    + destruct (Z.ltb_spec (T - t) d); [reflexivity | lia].
    + destruct (Z.ltb_spec (T - t) d).
      * rewrite running_product_zero by lia. reflexivity.
      * apply running_product_val; lia.
Qed.

Lemma zeroHit_val (fuel : nat) (T t d : Z) :
  (Z.to_nat d < fuel)%nat ->
  exists x, zeroHitHypergeometricRatio fuel (ofZ T) (ofZ t) (ofZ d) = Some x
            /\ val_is x (missValue T t d).
Proof.
  intros Hfuel. eexists. split.
  - apply zeroHit_computes; [discriminate |].
    now rewrite indices_ofZ, zrange_length.
  - apply Spec_zeroHitRatio_val.
Qed.

Lemma missValue_bounds (T t d : Z) :
  0 <= missValue T t d /\ missValue T t d <= 1.
Proof.
  unfold missValue.
  destruct ((d <=? 0) || (t <=? 0) || (T <=? 0))%Z eqn:E; [lra |].
  apply orb_false_iff in E. destruct E as [E E3].
  apply orb_false_iff in E. destruct E as [E1 E2].
  apply Z.leb_gt in E1, E2, E3.
  destruct (Z.ltb_spec (T - t) d); [lra |].
  destruct (missProduct_bounds T (T - t) (Z.to_nat d)); [lia | lra].
Qed.

Lemma missValue_positive (T t d : Z) :
  (1 <= t)%Z -> (1 <= d <= T - t)%Z ->
  0 < missValue T t d /\ missValue T t d <= 1.
Proof.
  intros Ht Hd. unfold missValue.
  destruct (Z.leb_spec d 0); [lia |].
  destruct (Z.leb_spec t 0); [lia |].
  destruct (Z.leb_spec T 0); [lia |]. cbn [orb].
  destruct (Z.ltb_spec (T - t) d); [lia |].
  apply missProduct_bounds. lia.
Qed.

Lemma missValue_zero (T t d : Z) :
  (1 <= T)%Z -> (1 <= t)%Z -> (1 <= d)%Z -> (T - t < d)%Z ->
  missValue T t d = 0.
Proof.
  intros HT Ht Hd Hs. unfold missValue.
  destruct (Z.leb_spec d 0); [lia |].
  destruct (Z.leb_spec t 0); [lia |].
  destruct (Z.leb_spec T 0); [lia |]. cbn [orb].
  destruct (Z.ltb_spec (T - t) d); [reflexivity | lia].
Qed.

(** C8, as amended.  For integers total >= 1, targetInDeck >= 1 and
    draws >= 1 with draws > total - targetInDeck, the ratio is 0. *)
Theorem zeroHit_zero_beyond_nonTargets (fuel : nat) (T t d : Z) :
  (1 <= T)%Z -> (1 <= t)%Z -> (1 <= d)%Z -> (T - t < d)%Z ->
  (Z.to_nat d < fuel)%nat ->
  zeroHitHypergeometricRatio fuel (ofZ T) (ofZ t) (ofZ d) = Some zero.
Proof.
  intros HT Ht Hd Hs Hfuel.
  rewrite zeroHit_computes;
    [| discriminate | now rewrite indices_ofZ, zrange_length].
  f_equal. unfold Spec.zeroHitRatio, gtb, zero.
  rewrite !leb_ofZ, ltb_ofZ, sub_ofZ, ltb_ofZ.
  destruct (Z.leb_spec d 0); [lia |].
  destruct (Z.leb_spec t 0); [lia |].
  destruct (Z.leb_spec T 0); [lia |].
  destruct (Z.ltb_spec T d); [reflexivity |].
  destruct (Z.ltb_spec (T - t) 0); [reflexivity |].
  apply running_product_zero. lia.
Qed.

Lemma zeroHit_zero_beyond_nonTargets_witness :
  zeroHitHypergeometricRatio 4 (ofZ 36) (ofZ 34) (ofZ 3) = Some zero.
Proof.
  apply zeroHit_zero_beyond_nonTargets; lia.
Defined.

(** C8, as stated, fails: without targets the ratio is 1 even for more
    draws than the 36 cards (a call the general model makes for n = 0 and
    m = 37); with no draws it is 1 whatever the deck holds; and a fractional
    draw count leaves the loop before a numerator reaches 0. *)
Lemma zeroHit_zero_beyond_nonTargets_counterexample :
  (gtb (ofZ 37) (sub (ofZ 36) (ofZ 0)) = true /\
   zeroHitHypergeometricRatio 42 (ofZ 36) (ofZ 0) (ofZ 37) = Some one) /\
  (gtb (ofZ 0) (sub (ofZ 5) (ofZ 10)) = true /\
   zeroHitHypergeometricRatio 42 (ofZ 5) (ofZ 10) (ofZ 0) = Some one) /\
  (gtb (Fin (7 # 10)) (sub (ofZ 5) (Fin (9 # 2))) = true /\
   zeroHitHypergeometricRatio 42 (ofZ 5) (Fin (9 # 2)) (Fin (7 # 10)) =
   Some (Fin (1 # 10))).
Proof.
  repeat split; reflexivity.
Qed.

(** ** The ratio in binary64 on small integers *)

Lemma f64_loop_fuel (fuel : nat) :
  forall fuel' total nonTargets draws i product r,
    (fuel <= fuel')%nat ->
    F64.zeroHit_loop fuel total nonTargets draws i product = Some r ->
    F64.zeroHit_loop fuel' total nonTargets draws i product = Some r.
Proof.
  induction fuel as [| fuel IH]; intros fuel' total nonTargets draws i product
    r Hle H; [discriminate H |].
  destruct fuel' as [| fuel']; [lia |].
  cbn [F64.zeroHit_loop] in *.
  destruct (PrimFloat.ltb i draws); [| exact H].
  cbv zeta in *.
  destruct (PrimFloat.leb _ _); [exact H |].
  apply IH; [lia | exact H].
Qed.

Lemma f64_zeroHit_fuel (fuel fuel' : nat) (total t d r : PrimFloat.float) :
  (fuel <= fuel')%nat ->
  F64.zeroHitHypergeometricRatio fuel total t d = Some r ->
  F64.zeroHitHypergeometricRatio fuel' total t d = Some r.
Proof.
  intros Hle. unfold F64.zeroHitHypergeometricRatio.
  destruct (PrimFloat.leb d _); [trivial |].
  destruct (PrimFloat.leb t _); [trivial |].
  destruct (PrimFloat.leb total _); [trivial |].
  destruct (PrimFloat.ltb total d); [trivial |].
  cbv zeta. destruct (PrimFloat.ltb _ _); [trivial |].
  now apply f64_loop_fuel.
Qed.

(** All calls with total, targets and draws in 1 .. 100, evaluated. *)
Lemma f64_cube_checked :
  forallb (fun T =>
             forallb (fun t => forallb (f64_cell_ok T t) (zrange 1 100))
                     (zrange 1 100))
          (zrange 1 100) = true.
Proof. vm_cast_no_check (eq_refl true). Qed.

Section Cube.

Variable cell : Z -> Z -> Z -> bool.
Variable n : nat.
Hypothesis checked :
  forallb (fun T =>
             forallb (fun t => forallb (cell T t) (zrange 1 n)) (zrange 1 n))
          (zrange 1 n) = true.

Lemma cube_cell (T t d : Z) :
  (1 <= T <= Z.of_nat n)%Z -> (1 <= t <= Z.of_nat n)%Z ->
  (1 <= d <= Z.of_nat n)%Z -> cell T t d = true.
Proof.
  intros HT Ht Hd.
  assert (IT : In T (zrange 1 n)) by (apply zrange_In; lia).
  assert (It : In t (zrange 1 n)) by (apply zrange_In; lia).
  assert (Id : In d (zrange 1 n)) by (apply zrange_In; lia).
  pose proof (proj1 (forallb_forall _ _) checked T IT) as H1.
  pose proof (proj1 (forallb_forall _ _) H1 t It) as H2.
  exact (proj1 (forallb_forall _ _) H2 d Id).
Qed.

End Cube.

Lemma f64_cell_checked (T t d : Z) :
  (1 <= T <= 100)%Z -> (1 <= t <= 100)%Z -> (1 <= d <= 100)%Z ->
  f64_cell_ok T t d = true.
Proof.
  intros HT Ht Hd.
  apply (cube_cell f64_cell_ok 100 f64_cube_checked); lia.
Qed.

(** C10, as amended.  For integers 1 <= total, targetInDeck, draws <= 100
    (the program's decks have 36 and 40 cards) the ratio is in [0,1] and is
    0 exactly when draws > total - targetInDeck, so it is positive for
    draws <= total - targetInDeck; this holds of the exact value and of the
    binary64 result alike. *)
Theorem zeroHit_positive_within_nonTargets (fuel : nat) (T t d : Z) :
  (1 <= T <= 100)%Z -> (1 <= t <= 100)%Z -> (1 <= d <= 100)%Z ->
  (101 <= fuel)%nat ->
  (exists q, zeroHitHypergeometricRatio fuel (ofZ T) (ofZ t) (ofZ d) =
             Some (Fin q) /\
             0 <= q /\ q <= 1 /\ (q == 0 <-> (T - t < d)%Z)) /\
  (exists r, F64.zeroHitHypergeometricRatio fuel (F64.ofZ T) (F64.ofZ t)
               (F64.ofZ d) = Some r /\
             F64.inUnit r = true /\
             (F64.isZero r = true <-> (T - t < d)%Z)).
Proof.
  intros HT Ht Hd Hfuel. split.
  - destruct (zeroHit_val fuel T t d ltac:(lia)) as [x [Hx Hv]].
    destruct x as [| | | q]; try contradiction. cbn [val_is] in Hv.
    exists q. split; [exact Hx |].
    destruct (missValue_bounds T t d) as [H0 H1].
    split; [now rewrite Hv |]. split; [now rewrite Hv |].
    rewrite Hv. split.
    + intros E. destruct (Z.ltb_spec (T - t) d) as [H | H]; [exact H |].
      destruct (missValue_positive T t d); [lia | lia |]. lra.
    + intros H. rewrite missValue_zero by lia. reflexivity.
  - pose proof (f64_cell_checked T t d HT Ht Hd) as H.
    unfold f64_cell_ok in H.
    destruct (F64.zeroHitHypergeometricRatio 101 (F64.ofZ T) (F64.ofZ t)
                (F64.ofZ d)) as [r |] eqn:E; [| discriminate H].
    apply andb_true_iff in H. destruct H as [Hu Hz].
    apply Bool.eqb_prop in Hz.
    exists r. split; [now apply (f64_zeroHit_fuel 101 fuel) |].
    split; [exact Hu |]. rewrite Hz. apply Z.ltb_lt.
Qed.

Lemma zeroHit_positive_within_nonTargets_witness :
  (exists q, zeroHitHypergeometricRatio 101 (ofZ 36) (ofZ 3) (ofZ 4) =
             Some (Fin q) /\
             0 <= q /\ q <= 1 /\ (q == 0 <-> (36 - 3 < 4)%Z)) /\
  (exists r, F64.zeroHitHypergeometricRatio 101 (F64.ofZ 36) (F64.ofZ 3)
               (F64.ofZ 4) = Some r /\
             F64.inUnit r = true /\
             (F64.isZero r = true <-> (36 - 3 < 4)%Z)).
Proof.
  apply (zeroHit_positive_within_nonTargets 101 36 3 4); lia.
Defined.

(** C10, as stated, fails: with 1081 cards, 526 targets and 555 draws the
    draws do not exceed the non-targets and the exact value is positive,
    but the binary64 product underflows and the result is 0. *)
Lemma zeroHit_underflow_counterexample :
  (1 <= 526)%Z /\ (1 <= 555 <= 1081 - 526)%Z /\
  F64.zeroHitHypergeometricRatio 600 (F64.ofZ 1081) (F64.ofZ 526)
    (F64.ofZ 555) = Some (F64.ofZ 0) /\
  (exists q, zeroHitHypergeometricRatio 600 (ofZ 1081) (ofZ 526) (ofZ 555) =
             Some (Fin q) /\ 0 < q).
Proof.
  split; [lia |]. split; [lia |]. split; [vm_compute; reflexivity |].
  assert (Hfuel : (Z.to_nat 555 < 600)%nat) by lia.
  destruct (zeroHit_val 600 1081 526 555 Hfuel) as [x [Hx Hv]].
  assert (Hpos : 0 < missValue 1081 526 555)
    by (apply missValue_positive; lia).
  revert Hv Hpos. generalize (missValue 1081 526 555). intros v Hv Hpos.
  destruct x as [| | | q]; try contradiction. cbn [val_is] in Hv.
  exists q. split; [exact Hx |]. now rewrite Hv.
Qed.

(** ** Flooring and clamping the arguments *)

Lemma floorClamp_NaN (hi : Z) : floorClamp NaN hi = NaN.
Proof. reflexivity. Qed.

Lemma floorClamp_ofZ (x : number) (hi : Z) :
  (0 <= hi)%Z -> x <> NaN -> floorClamp x hi = ofZ (clampZ x hi).
Proof.
  intros Hhi Hx. unfold floorClamp, clamp.
  destruct x as [| | | q]; [contradiction | | |]; cbn [floor clampZ].
  - reflexivity.
  - change (min (ofZ hi) PosInf) with (ofZ hi). unfold zero.
    rewrite max_ofZ. f_equal. lia.
  - unfold zero. now rewrite min_ofZ, max_ofZ.
Qed.

Lemma clampZ_range (x : number) (hi : Z) :
  (0 <= hi)%Z -> (0 <= clampZ x hi <= hi)%Z.
Proof. intros H. destruct x; cbn [clampZ]; lia. Qed.

(** A floored and clamped argument is NaN or an integer of the range. *)
Lemma floorClamp_cases (x : number) (hi : Z) :
  (0 <= hi)%Z ->
  (x = NaN /\ floorClamp x hi = NaN) \/
  (x <> NaN /\ exists z, floorClamp x hi = ofZ z /\ (0 <= z <= hi)%Z).
Proof.
  intros Hhi. destruct x as [| | | q].
  - left. split; reflexivity.
  - right. split; [discriminate |]. exists (clampZ NegInf hi).
    split; [now apply floorClamp_ofZ | now apply clampZ_range].
  - right. split; [discriminate |]. exists (clampZ PosInf hi).
    split; [now apply floorClamp_ofZ | now apply clampZ_range].
  - right. split; [discriminate |]. exists (clampZ (Fin q) hi).
    split; [now apply floorClamp_ofZ | now apply clampZ_range].
Qed.

(** The ratio is computed whenever the draw count was floored and clamped. *)
Lemma zeroHit_clamped_draws (fuel : nat) (total t x : number) (hi : Z) :
  (0 <= hi)%Z -> (Z.to_nat hi < fuel)%nat ->
  zeroHitHypergeometricRatio fuel total t (floorClamp x hi) =
  Some (Spec.zeroHitRatio total t (floorClamp x hi)).
Proof.
  intros Hhi Hfuel.
  destruct (floorClamp_cases x hi Hhi) as [[_ E] | [_ [z [E Hz]]]]; rewrite E.
  - apply zeroHit_computes; [discriminate | simpl; lia].
  - apply zeroHit_computes; [discriminate |].
    rewrite indices_ofZ, zrange_length. lia.
Qed.

(** The two keep formulas as the program computes them. *)
Lemma keep_computes (fuel : nat) (l n m : number) :
  (41 <= fuel)%nat ->
  probabilityAtLeastOne fuel keep l n m =
  Some (clamp
          (sub one
             (mul (mul (Spec.zeroHitRatio (ofZ 40) (floorClamp n 40) (ofZ 4))
                       (Spec.zeroHitRatio (ofZ 36) (floorClamp n 40)
                          (floorClamp l 40)))
                  (Spec.zeroHitRatio (ofZ 36) (floorClamp n 40)
                     (floorClamp m 40))))
          zero one).
Proof.
  intros Hfuel. unfold probabilityAtLeastOne. cbv zeta.
  fold (floorClamp n 40) (floorClamp l 40) (floorClamp m 40).
  rewrite (zeroHit_computes fuel (ofZ 40) (floorClamp n 40) (ofZ 4));
    [| discriminate | rewrite indices_ofZ, zrange_length; simpl; lia].
  rewrite !zeroHit_clamped_draws by lia. reflexivity.
Qed.

Lemma restricted_keep_computes (fuel : nat) (n l m : number) :
  (41 <= fuel)%nat ->
  probabilityAtLeastOneKeep fuel n l m =
  Some (clamp
          (sub one
             (mul (Spec.zeroHitRatio (ofZ 36) (floorClamp n 40)
                     (floorClamp l 4))
                  (Spec.zeroHitRatio (ofZ 36) (floorClamp n 40)
                     (floorClamp m 40))))
          zero one).
Proof.
  intros Hfuel. unfold probabilityAtLeastOneKeep. cbv zeta.
  fold (floorClamp n 40) (floorClamp l 4) (floorClamp m 40).
  rewrite !zeroHit_clamped_draws by lia. reflexivity.
Qed.

(** ** The no-keep policy *)

Lemma Spec_kEff_le (a b : Z) : (Spec.kEff (ofZ a) (ofZ b) <= b)%Z.
Proof. unfold Spec.kEff, ofZ. rewrite !Qfloor_Z. lia. Qed.

Lemma combination_ofZ (fuel : nat) (a b : Z) :
  (Z.to_nat b < fuel)%nat ->
  combination fuel (ofZ a) (ofZ b) = Some (Spec.combination (ofZ a) (ofZ b)).
Proof.
  intros H. apply combination_computes.
  pose proof (Spec_kEff_le a b). lia.
Qed.

Section NoKeepLoop.

Variables (fuel0 : nat) (zn zl zk : Z).
Hypothesis fuel0_enough : (41 <= fuel0)%nat.
Hypothesis zl_range : (0 <= zl <= 40)%Z.
Hypothesis zk_range : (zk <= 40)%Z.

Let term (s : number) (k : Z) : number :=
  add s (mul (NoKeepSpec.P_l (ofZ zn) (ofZ zl) k)
             (NoKeepSpec.Q_l (ofZ zn) (ofZ zl) k)).

Lemma noKeep_loop_closed (len : nat) :
  forall (fuel : nat) (k : Z) (s : number),
    (len < fuel)%nat -> (0 <= k)%Z -> (k + Z.of_nat len = zk + 1)%Z ->
    noKeep_loop fuel0 fuel (ofZ zn) (ofZ zl)
      (Spec.combination (add (ofZ 36) (ofZ zl)) (ofZ zl)) (ofZ zk) k s =
    Some (fold_left term (zrange k len) s).
Proof.
  assert (Hterm : forall s k,
    term s k =
    add s (mul (if strict_eq
                     (Spec.combination (add (ofZ 36) (ofZ zl)) (ofZ zl)) zero
                then zero
                else div (mul (Spec.combination (ofZ zn) (ofZ k))
                              (Spec.combination (ofZ (36 + zl - zn))
                                 (ofZ (zl - k))))
                         (Spec.combination (add (ofZ 36) (ofZ zl)) (ofZ zl)))
               (Spec.zeroHitRatio (ofZ 36) (ofZ (zn - k)) (ofZ zl)))).
  { intros s k. unfold term, NoKeepSpec.P_l, NoKeepSpec.Q_l. cbv zeta.
    now rewrite !sub_ofZ, add_ofZ, sub_ofZ. }
  set (D := Spec.combination (add (ofZ 36) (ofZ zl)) (ofZ zl)) in *.
  induction len as [| len IH]; intros fuel k s Hfuel Hk Hlen.
  - destruct fuel as [| fuel]; [lia |].
    cbn [noKeep_loop zrange fold_left]. rewrite leb_ofZ.
    destruct (Z.leb_spec k zk); [lia | reflexivity].
  - destruct fuel as [| fuel]; [lia |].
    cbn [noKeep_loop zrange fold_left]. rewrite leb_ofZ.
    destruct (Z.leb_spec k zk); [| lia].
    rewrite combination_ofZ by lia. cbn [bind].
    rewrite add_ofZ, !sub_ofZ.
    rewrite combination_ofZ by lia. cbn [bind].
    rewrite zeroHit_computes;
      [| discriminate | rewrite indices_ofZ, zrange_length; lia].
    cbn [bind]. rewrite IH by lia. now rewrite Hterm.
Qed.

End NoKeepLoop.

Lemma min_NaN_l (x : number) : min NaN x = NaN.
Proof. reflexivity. Qed.

Lemma min_NaN_r (x : number) : min x NaN = NaN.
Proof. destruct x; reflexivity. Qed.

(** The summation loop against the sum of the specification. *)
Lemma noKeep_loop_missSum (fuel : nat) (x y : number) :
  (42 <= fuel)%nat ->
  let n := floorClamp x 40 in
  let l := floorClamp y 40 in
  noKeep_loop fuel fuel n l (Spec.combination (add (ofZ 36) l) l) (min l n)
    0 zero = Some (NoKeepSpec.missSum n l).
Proof.
  intros Hfuel n l. unfold NoKeepSpec.missSum.
  destruct fuel as [| fuel]; [lia |].
  destruct (floorClamp_cases y 40) as [[_ El] | [_ [zl [El Hl]]]]; [lia | |];
    unfold l; rewrite El.
  - reflexivity.
  - destruct (floorClamp_cases x 40) as [[_ En] | [_ [zn [En Hn]]]]; [lia | |];
      unfold n; rewrite En.
    + reflexivity.
    + rewrite min_ofZ.
      replace (NoKeepSpec.upTo (ofZ (Z.min zl zn)))
        with (zrange 0 (Z.to_nat (Z.min zl zn + 1)))
        by (unfold NoKeepSpec.upTo, ofZ; now rewrite Qfloor_Z).
      apply noKeep_loop_closed; lia.
Qed.

(** ** Finiteness *)

Lemma val_is_finite (x : number) (q : Q) : val_is x q -> isFinite x = true.
Proof. destruct x; simpl; [contradiction .. | reflexivity]. Qed.

Lemma finite_val_is (x : number) :
  isFinite x = true -> exists q, val_is x q.
Proof.
  destruct x as [| | | q]; try discriminate. intros _. exists q. reflexivity.
Qed.

Lemma mul_zero_r (x : number) : isFinite x = true -> mul x zero = zero.
Proof.
  destruct x as [| | | q]; try discriminate. intros _.
  apply fin_eq_ofZ. apply Qmult_0_r.
Qed.

Lemma mul_zero_l (x : number) : isFinite x = true -> mul zero x = zero.
Proof.
  destruct x as [| | | q]; try discriminate. intros _.
  apply fin_eq_ofZ. apply Qmult_0_l.
Qed.

Lemma Spec_zeroHitRatio_NaN_draws (T t : Z) :
  Spec.zeroHitRatio (ofZ T) (ofZ t) NaN = one \/
  Spec.zeroHitRatio (ofZ T) (ofZ t) NaN = zero.
Proof.
  unfold Spec.zeroHitRatio.
  change (leb NaN zero) with false. cbv iota.
  destruct (leb (ofZ t) zero); [now left |].
  destruct (leb (ofZ T) zero); [now left |].
  change (gtb NaN (ofZ T)) with false. cbv iota.
  destruct (ltb (sub (ofZ T) (ofZ t)) zero); [now right |].
  left. reflexivity.
Qed.

(** The ratio of integers is finite whenever the draw count was floored and
    clamped. *)
Lemma Spec_zeroHitRatio_finite (T t : Z) (x : number) (hi : Z) :
  (0 <= hi)%Z ->
  isFinite (Spec.zeroHitRatio (ofZ T) (ofZ t) (floorClamp x hi)) = true.
Proof.
  intros Hhi.
  destruct (floorClamp_cases x hi Hhi) as [[_ E] | [_ [z [E _]]]]; rewrite E.
  - destruct (Spec_zeroHitRatio_NaN_draws T t) as [H | H]; now rewrite H.
  - eapply val_is_finite. apply Spec_zeroHitRatio_val.
Qed.

Lemma combination_clamped (fuel : nat) (y : number) :
  (41 <= fuel)%nat ->
  let l := floorClamp y 40 in
  combination fuel (add (ofZ 36) l) l =
  Some (Spec.combination (add (ofZ 36) l) l).
Proof.
  intros Hfuel l. unfold l.
  destruct (floorClamp_cases y 40) as [[_ E] | [_ [z [E Hz]]]]; [lia | |];
    rewrite E.
  - reflexivity.
  - rewrite add_ofZ. apply combination_ofZ. lia.
Qed.

(** The no-keep policy computes the formula of the specification. *)
Lemma noKeep_formula (fuel : nat) (l n m : number) :
  (42 <= fuel)%nat ->
  probabilityAtLeastOne fuel noKeep l n m =
  Some (NoKeepSpec.atLeastOne (floorClamp n 40) (floorClamp l 40)
          (floorClamp m 40)).
Proof.
  intros Hfuel. unfold probabilityAtLeastOne. cbv zeta.
  fold (floorClamp n 40) (floorClamp l 40) (floorClamp m 40).
  rewrite zeroHit_clamped_draws by lia. cbn [bind].
  rewrite combination_clamped by lia. cbn [bind].
  rewrite noKeep_loop_missSum by lia. reflexivity.
Qed.

(** ** Values in lowest terms and the final clamp *)

Lemma reduced_fin (q : Q) : reduced (fin q).
Proof. unfold reduced, fin. apply Qred_involutive. Qed.

Lemma reduced_mul (a b : number) : reduced (mul a b).
Proof.
  destruct a as [| | | p], b as [| | | q]; try exact I;
    try apply reduced_fin;
    cbn [mul]; unfold scaled_inf;
    repeat match goal with
           | |- context [if ?c then _ else _] => destruct c
           end; exact I.
Qed.

Lemma mul_one_r (x : number) :
  isFinite x = true -> reduced x -> mul x one = x.
Proof.
  destruct x as [| | | q]; try discriminate. intros _ Hr.
  cbn [mul one ofZ]. unfold fin. f_equal.
  transitivity (Qred q); [| exact Hr]. apply Qred_complete. apply Qmult_1_r.
Qed.

Lemma mul_one_l (x : number) :
  isFinite x = true -> reduced x -> mul one x = x.
Proof.
  destruct x as [| | | q]; try discriminate. intros _ Hr.
  cbn [mul one ofZ]. unfold fin. f_equal.
  transitivity (Qred q); [| exact Hr]. apply Qred_complete. apply Qmult_1_l.
Qed.

Lemma reduced_fold_mul (f : Z -> number) (idx : list Z) (p : number) :
  reduced p -> reduced (fold_left (fun r i => mul r (f i)) idx p).
Proof.
  revert p. induction idx as [| i idx IH]; intros p Hp; [exact Hp |].
  cbn [fold_left]. apply IH. apply reduced_mul.
Qed.

Lemma reduced_Spec_zeroHitRatio (total t d : number) :
  reduced (Spec.zeroHitRatio total t d).
Proof.
  unfold Spec.zeroHitRatio, Spec.running_product.
  repeat match goal with
         | |- context [if ?c then _ else _] => destruct c
         end; try reflexivity.
  apply (reduced_fold_mul
           (fun i => div (sub (sub total t) (ofZ i)) (sub total (ofZ i)))).
  reflexivity.
Qed.

Lemma clamp01_Fin (p : Q) :
  clamp (Fin p) zero one =
  if Qle_bool 1 p then one else if Qle_bool 0 p then Fin p else zero.
Proof.
  unfold clamp, min, max, one, zero, ofZ. cbn [leb].
  change (inject_Z 1) with 1. change (inject_Z 0) with 0.
  destruct (Qle_bool 1 p); cbn [leb]; [reflexivity |].
  destruct (Qle_bool 0 p); reflexivity.
Qed.

Ltac Qle_bool_to_Prop :=
  repeat match goal with
         | E : Qle_bool _ _ = true |- _ => apply Qle_bool_iff in E
         | E : Qle_bool _ _ = false |- _ =>
             apply not_true_iff_false in E; rewrite Qle_bool_iff in E;
             apply Qnot_le_lt in E
         end.

Lemma clamp01_val (x : number) (q : Q) :
  val_is x q -> val_is (clamp x zero one) (clampQ q).
Proof.
  destruct x as [| | | p]; cbn [val_is]; try contradiction. intros Hp.
  rewrite clamp01_Fin. unfold clampQ, one, zero, ofZ.
  destruct (Qle_bool 1 p) eqn:E1; destruct (Qle_bool 0 p) eqn:E2;
    destruct (Qle_bool q 0) eqn:E3; destruct (Qle_bool 1 q) eqn:E4;
    Qle_bool_to_Prop; cbn [val_is];
    change (inject_Z 1) with 1; change (inject_Z 0) with 0;
    rewrite ?Hp in *; lra.
Qed.

Lemma clampQ_bounds (q : Q) : 0 <= clampQ q /\ clampQ q <= 1.
Proof.
  unfold clampQ. destruct (Qle_bool q 0) eqn:E0; [lra |].
  destruct (Qle_bool 1 q) eqn:E1; [lra |].
  apply not_true_iff_false in E0, E1. rewrite Qle_bool_iff in E0, E1.
  apply Qnot_le_lt in E0, E1. lra.
Qed.

Lemma clampQ_mono (p q : Q) : p <= q -> clampQ p <= clampQ q.
Proof.
  intros H. unfold clampQ.
  destruct (Qle_bool p 0) eqn:Ep0; destruct (Qle_bool q 0) eqn:Eq0;
    destruct (Qle_bool 1 p) eqn:Ep1; destruct (Qle_bool 1 q) eqn:Eq1;
    Qle_bool_to_Prop; lra.
Qed.

(** The final clamp leaves a value of [0,1] in lowest terms as it is. *)
Lemma clamp_unit (w : Q) :
  0 <= w -> w <= 1 -> clamp (fin w) zero one = fin w.
Proof.
  intros H0 H1. unfold clamp, min, max, fin, one, zero, ofZ. cbn [leb].
  destruct (Qle_bool (inject_Z 1) (Qred w)) eqn:E1.
  - apply Qle_bool_iff in E1. rewrite Qred_correct in E1.
    change (inject_Z 1) with 1 in E1.
    change (Qle_bool (inject_Z 0) (inject_Z 1)) with true. cbv iota.
    f_equal. change (inject_Z 1) with (Qred 1). apply Qred_complete. lra.
  - assert (E0 : Qle_bool (inject_Z 0) (Qred w) = true).
    { apply Qle_bool_iff. rewrite Qred_correct. exact H0. }
    cbn [leb]. now rewrite E0.
Qed.

(** The ratio of integers is a value of [0,1] in lowest terms whenever the
    draw count was floored and clamped. *)
Lemma Spec_zeroHitRatio_unit (T t : Z) (x : number) (hi : Z) :
  (0 <= hi)%Z ->
  exists v, Spec.zeroHitRatio (ofZ T) (ofZ t) (floorClamp x hi) = Fin v /\
            0 <= v /\ v <= 1 /\ Qred v = v.
Proof.
  intros Hhi.
  pose proof (reduced_Spec_zeroHitRatio (ofZ T) (ofZ t) (floorClamp x hi))
    as Hred.
  destruct (floorClamp_cases x hi Hhi) as [[_ E] | [_ [z [E _]]]];
    rewrite E in *.
  - destruct (Spec_zeroHitRatio_NaN_draws T t) as [H | H]; rewrite H.
    + exists 1. repeat split; [lra | lra].
    + exists 0. repeat split; [lra | lra].
  - pose proof (Spec_zeroHitRatio_val T t z) as Hv.
    destruct (Spec.zeroHitRatio (ofZ T) (ofZ t) (ofZ z)) as [| | | v];
      try contradiction.
    cbn [val_is] in Hv. cbn [reduced] in Hred.
    destruct (missValue_bounds T t z). exists v.
    repeat split; [lra | lra | exact Hred].
Qed.

(** With three targets and no mulligan the no-keep sum has the single term
    for k = 0, which is 1. *)
Lemma missSum_3_0 :
  NoKeepSpec.upTo (min (floorClamp (ofZ 0) 40) (floorClamp (ofZ 3) 40)) =
  [0%Z] /\
  NoKeepSpec.missSum (floorClamp (ofZ 3) 40) (floorClamp (ofZ 0) 40) = one.
Proof. split; reflexivity. Qed.

Lemma clampZ_ofZ (z hi : Z) : clampZ (ofZ z) hi = Z.max 0 (Z.min hi z).
Proof. unfold clampZ, ofZ. now rewrite Qfloor_Z. Qed.

(** Clamping an integer draw count does not change the ratio over the 36
    cards. *)
Lemma Spec_zeroHitRatio_clamped_draws (t z : Z) :
  Spec.zeroHitRatio (ofZ 36) (ofZ t) (floorClamp (ofZ z) 40) =
  Spec.zeroHitRatio (ofZ 36) (ofZ t) (ofZ z).
Proof.
  rewrite floorClamp_ofZ by (lia || discriminate). rewrite clampZ_ofZ.
  destruct (Z.leb_spec z 0) as [H | H].
  - replace (Z.max 0 (Z.min 40 z)) with 0%Z by lia.
    unfold Spec.zeroHitRatio, zero. rewrite !leb_ofZ.
    destruct (Z.leb_spec z 0); [reflexivity | lia].
  - destruct (Z.leb_spec z 40) as [H' | H'].
    + now replace (Z.max 0 (Z.min 40 z)) with z by lia.
    + replace (Z.max 0 (Z.min 40 z)) with 40%Z by lia.
      unfold Spec.zeroHitRatio, gtb, zero. rewrite !leb_ofZ, !ltb_ofZ.
      destruct (Z.leb_spec z 0); [lia |].
      destruct (Z.leb_spec t 0); [reflexivity |].
      destruct (Z.ltb_spec 36 z); [reflexivity | lia].
Qed.

(** ** Cross-check between the policies *)

(** C9.  For n = 3, l = 0 and every m the no-keep sum has the single term
    k = 0, and the no-keep policy agrees with the restricted keep-only
    model, whose value is 1 - zeroHitRatio(36, 3, m): on the floored and
    clamped m always, and on m itself when m is an integer. *)
Theorem noKeep_agrees_without_mulligan (fuel : nat) (m : number) :
  (42 <= fuel)%nat ->
  NoKeepSpec.upTo (min (floorClamp (ofZ 0) 40) (floorClamp (ofZ 3) 40)) =
  [0%Z] /\
  probabilityAtLeastOne fuel noKeep (ofZ 0) (ofZ 3) m =
  probabilityAtLeastOneKeep fuel (ofZ 3) (ofZ 0) m /\
  probabilityAtLeastOneKeep fuel (ofZ 3) (ofZ 0) m =
  Some (sub one (Spec.zeroHitRatio (ofZ 36) (ofZ 3) (floorClamp m 40))) /\
  (forall z, m = ofZ z ->
     probabilityAtLeastOneKeep fuel (ofZ 3) (ofZ 0) m =
     Some (sub one (Spec.zeroHitRatio (ofZ 36) (ofZ 3) m))).
Proof.
  intros Hfuel.
  assert (Hkeep : probabilityAtLeastOneKeep fuel (ofZ 3) (ofZ 0) m =
    Some (sub one (Spec.zeroHitRatio (ofZ 36) (ofZ 3) (floorClamp m 40)))).
  { rewrite restricted_keep_computes by lia. f_equal.
    change (floorClamp (ofZ 3) 40) with (ofZ 3).
    change (Spec.zeroHitRatio (ofZ 36) (ofZ 3) (floorClamp (ofZ 0) 4))
      with one.
    destruct (Spec_zeroHitRatio_unit 36 3 m 40) as [v [Ev [H0 [H1 Hr]]]];
      [lia |].
    rewrite Ev. rewrite mul_one_l by (reflexivity || exact Hr).
    cbn [sub one ofZ]. apply clamp_unit.
    - change (inject_Z 1) with 1. lra.
    - change (inject_Z 1) with 1. lra. }
  split; [apply missSum_3_0 |]. split; [| split; [exact Hkeep |]].
  - rewrite Hkeep, noKeep_formula by exact Hfuel. f_equal.
    unfold NoKeepSpec.atLeastOne. destruct missSum_3_0 as [_ ES].
    rewrite ES. unfold NoKeepSpec.Q_m.
    change (floorClamp (ofZ 3) 40) with (ofZ 3).
    destruct (Spec_zeroHitRatio_unit 36 3 m 40) as [v [Ev [H0 [H1 Hr]]]];
      [lia |].
    rewrite Ev. rewrite mul_one_r by (reflexivity || exact Hr).
    cbn [sub one ofZ]. apply clamp_unit.
    + change (inject_Z 1) with 1. lra.
    + change (inject_Z 1) with 1. lra.
  - intros z Ez. rewrite Hkeep. subst m.
    now rewrite Spec_zeroHitRatio_clamped_draws.
Qed.

Lemma noKeep_agrees_without_mulligan_witness :
  NoKeepSpec.upTo (min (floorClamp (ofZ 0) 40) (floorClamp (ofZ 3) 40)) =
  [0%Z] /\
  probabilityAtLeastOne 42 noKeep (ofZ 0) (ofZ 3) (ofZ 5) =
  probabilityAtLeastOneKeep 42 (ofZ 3) (ofZ 0) (ofZ 5) /\
  probabilityAtLeastOneKeep 42 (ofZ 3) (ofZ 0) (ofZ 5) =
  Some (sub one (Spec.zeroHitRatio (ofZ 36) (ofZ 3) (floorClamp (ofZ 5) 40)))
  /\
  (forall z, ofZ 5 = ofZ z ->
     probabilityAtLeastOneKeep 42 (ofZ 3) (ofZ 0) (ofZ 5) =
     Some (sub one (Spec.zeroHitRatio (ofZ 36) (ofZ 3) (ofZ 5)))).
Proof.
  apply (noKeep_agrees_without_mulligan 42 (ofZ 5)). lia.
Defined.

(** ** The no-keep sum on the grid of clamped arguments *)

Lemma adjacent_zrange {A : Type} (R : A -> A -> bool) (f : Z -> A)
    (len : nat) :
  forall a, adjacent R (map f (zrange a len)) = true ->
  forall i, (a <= i)%Z -> (i + 1 < a + Z.of_nat len)%Z ->
  R (f i) (f (i + 1)%Z) = true.
Proof.
  induction len as [| len IH]; intros a H i Hi1 Hi2; [lia |].
  destruct len as [| len]; [lia |].
  change (zrange a (S (S len))) with (a :: zrange (a + 1) (S len)) in H.
  change (zrange (a + 1) (S len))
    with ((a + 1)%Z :: zrange (a + 1 + 1) len) in H.
  cbn [map adjacent] in H. apply andb_true_iff in H. destruct H as [H1 H2].
  destruct (Z.eq_dec i a) as [-> | Hne]; [exact H1 |].
  apply (IH (a + 1)%Z); [exact H2 | lia | lia].
Qed.

Lemma pointwise_map {A B : Type} (R : B -> B -> bool) (f g : A -> B)
    (l : list A) :
  pointwise R (map f l) (map g l) = true ->
  forall x, In x l -> R (f x) (g x) = true.
Proof.
  induction l as [| a l IH]; intros H x Hx; [contradiction |].
  cbn [map pointwise] in H. apply andb_true_iff in H. destruct H as [H1 H2].
  destruct Hx as [-> | Hx]; [exact H1 | now apply IH].
Qed.

Lemma grid_In (z : Z) : (0 <= z <= 40)%Z -> In z grid.
Proof. intros H. apply zrange_In. lia. Qed.

Lemma firstn_grid : firstn 37 grid = zrange 0 37.
Proof. reflexivity. Qed.

Lemma andb3_true (a b c : bool) :
  a && b && c = true -> a = true /\ b = true /\ c = true.
Proof. destruct a, b, c; intros H; try discriminate H; now repeat split. Qed.

Section Table.

Variable F : Z -> Z -> number.
Hypothesis checked : table_check (tableOf F) = true.

Lemma table_parts :
  forallb (forallb nonneg) (tableOf F) = true /\
  forallb (adjacent geb) (tableOf F) = true /\
  adjacent (pointwise geb) (firstn 37 (tableOf F)) = true.
Proof. apply andb3_true. exact checked. Qed.

Lemma table_row_In (zl : Z) :
  (0 <= zl <= 40)%Z -> In (map (fun n => F zl n) grid) (tableOf F).
Proof.
  intros H. unfold tableOf.
  apply (in_map (fun l => map (fun n => F l n) grid)). now apply grid_In.
Qed.

Lemma table_nonneg (zl zn : Z) :
  (0 <= zl <= 40)%Z -> (0 <= zn <= 40)%Z -> nonneg (F zl zn) = true.
Proof.
  intros Hl Hn. destruct table_parts as [H _].
  rewrite forallb_forall in H. specialize (H _ (table_row_In zl Hl)).
  rewrite forallb_forall in H. apply H.
  apply (in_map (fun n => F zl n)). now apply grid_In.
Qed.

Lemma table_row_step (zl zn : Z) :
  (0 <= zl <= 40)%Z -> (0 <= zn < 40)%Z ->
  leb (F zl (zn + 1)%Z) (F zl zn) = true.
Proof.
  intros Hl Hn. destruct table_parts as [_ [H _]].
  rewrite forallb_forall in H. specialize (H _ (table_row_In zl Hl)).
  apply (adjacent_zrange geb (fun n => F zl n) 41 0 H zn); lia.
Qed.

Lemma table_col_step (zl zn : Z) :
  (0 <= zl < 36)%Z -> (0 <= zn <= 40)%Z ->
  leb (F (zl + 1)%Z zn) (F zl zn) = true.
Proof.
  intros Hl Hn. destruct table_parts as [_ [_ H]].
  unfold tableOf in H. rewrite firstn_map, firstn_grid in H.
  pose proof (adjacent_zrange (pointwise geb)
                (fun l => map (fun n => F l n) grid) 37 0 H zl) as Hrows.
  cbv beta in Hrows.
  apply (pointwise_map geb (fun n => F zl n) (fun n => F (zl + 1)%Z n) grid).
  - apply Hrows; lia.
  - now apply grid_In.
Qed.

End Table.

Lemma nth_map_zrange {A : Type} (f : Z -> A) (d : A) (len : nat) :
  forall a i, (a <= i < a + Z.of_nat len)%Z ->
  nth (Z.to_nat (i - a)) (map f (zrange a len)) d = f i.
Proof.
  induction len as [| len IH]; intros a i Hi; [lia |].
  cbn [zrange map]. destruct (Z.eq_dec i a) as [-> | Hne].
  - now rewrite Z.sub_diag.
  - replace (Z.to_nat (i - a)) with (S (Z.to_nat (i - (a + 1)))) by lia.
    cbn [nth]. apply IH. lia.
Qed.

Lemma look_tab (a0 : Z) (rows cols : nat) (f : Z -> Z -> number) (a b : Z) :
  (a0 <= a < a0 + Z.of_nat rows)%Z -> (0 <= b < Z.of_nat cols)%Z ->
  look a0 (tab a0 rows cols f) a b = f a b.
Proof.
  intros Ha Hb. unfold look, tab.
  rewrite (nth_map_zrange (fun a => map (fun b => f a b) (zrange 0 cols)))
    by exact Ha.
  replace (Z.to_nat b) with (Z.to_nat (b - 0)) by lia.
  apply (nth_map_zrange (fun b => f a b)). lia.
Qed.

Lemma fold_left_ext_in {A B : Type} (f g : A -> B -> A) (l : list B) :
  (forall x, In x l -> forall s, f s x = g s x) ->
  forall a, fold_left f l a = fold_left g l a.
Proof.
  induction l as [| x l IH]; intros H a; [reflexivity |].
  cbn [fold_left]. rewrite (H x) by (left; reflexivity).
  apply IH. intros y Hy. apply H. now right.
Qed.

(** Reading from the tables gives the same sum. *)
Lemma cellWith_look (C Zh : Z -> Z -> number) (l n : Z) :
  (0 <= l <= 40)%Z -> (0 <= n <= 40)%Z ->
  cellWith (look (-4) (tab (-4) 81 41 C)) (look 0 (tab 0 41 41 Zh)) l n =
  cellWith C Zh l n.
Proof.
  intros Hl Hn. unfold cellWith. apply fold_left_ext_in.
  intros k Hk s. apply zrange_In in Hk.
  rewrite !look_tab by lia. reflexivity.
Qed.

Lemma upTo_ofZ (z : Z) : NoKeepSpec.upTo (ofZ z) = zrange 0 (Z.to_nat (z + 1)).
Proof. unfold NoKeepSpec.upTo, ofZ. now rewrite Qfloor_Z. Qed.

(** The sum of the specification on integers, in that form. *)
Lemma missSum_cellWith (l n : Z) :
  NoKeepSpec.missSum (ofZ n) (ofZ l) = cellWith combF zhF l n.
Proof.
  unfold NoKeepSpec.missSum, cellWith. rewrite min_ofZ, upTo_ofZ.
  apply fold_left_ext_in. intros k _ s.
  unfold NoKeepSpec.P_l, NoKeepSpec.Q_l, combF, zhF. cbv zeta.
  now rewrite !add_ofZ, !sub_ofZ.
Qed.

Lemma fastCell_missSum (l n : Z) :
  (0 <= l <= 40)%Z -> (0 <= n <= 40)%Z ->
  fastCell l n = NoKeepSpec.missSum (ofZ n) (ofZ l).
Proof.
  intros Hl Hn. rewrite missSum_cellWith. unfold fastCell.
  now apply cellWith_look.
Qed.

Lemma sumTable_checked : table_check (tableOf fastCell) = true.
Proof. vm_cast_no_check (eq_refl true). Qed.

Lemma sumTable_nonneg (zl zn : Z) :
  (0 <= zl <= 40)%Z -> (0 <= zn <= 40)%Z ->
  nonneg (NoKeepSpec.missSum (ofZ zn) (ofZ zl)) = true.
Proof.
  intros Hl Hn. rewrite <- fastCell_missSum by assumption.
  now apply (table_nonneg fastCell sumTable_checked).
Qed.

Lemma sumTable_row_step (zl zn : Z) :
  (0 <= zl <= 40)%Z -> (0 <= zn < 40)%Z ->
  leb (NoKeepSpec.missSum (ofZ (zn + 1)) (ofZ zl))
      (NoKeepSpec.missSum (ofZ zn) (ofZ zl)) = true.
Proof.
  intros Hl Hn. rewrite <- !fastCell_missSum by lia.
  now apply (table_row_step fastCell sumTable_checked).
Qed.

Lemma sumTable_col_step (zl zn : Z) :
  (0 <= zl < 36)%Z -> (0 <= zn <= 40)%Z ->
  leb (NoKeepSpec.missSum (ofZ zn) (ofZ (zl + 1)))
      (NoKeepSpec.missSum (ofZ zn) (ofZ zl)) = true.
Proof.
  intros Hl Hn. rewrite <- !fastCell_missSum by lia.
  now apply (table_col_step fastCell sumTable_checked).
Qed.

(** ** Order on numbers *)

Lemma leb_trans (a b c : number) :
  leb a b = true -> leb b c = true -> leb a c = true.
Proof.
  destruct a as [| | | p], b as [| | | q], c as [| | | r]; cbn [leb];
    try discriminate; try reflexivity.
  intros H1 H2. apply Qle_bool_iff in H1, H2. apply Qle_bool_iff.
  now apply Qle_trans with q.
Qed.

Lemma leb_refl (a : number) : a <> NaN -> leb a a = true.
Proof.
  destruct a as [| | | p]; cbn [leb]; try reflexivity; [contradiction |].
  intros _. apply Qle_bool_iff. apply Qle_refl.
Qed.

Lemma nonneg_val (x : number) :
  nonneg x = true -> exists q, x = Fin q /\ 0 <= q.
Proof.
  destruct x as [| | | q]; cbn [nonneg]; try discriminate.
  intros H. apply Qle_bool_iff in H. now exists q.
Qed.

(** A function that does not increase from one integer to the next does not
    increase over an interval. *)
Lemma antitone_chain (f : Z -> number) (a b : Z) :
  (forall i, (a <= i <= b)%Z -> f i <> NaN) ->
  (forall i, (a <= i < b)%Z -> leb (f (i + 1)%Z) (f i) = true) ->
  forall i j, (a <= i)%Z -> (i <= j)%Z -> (j <= b)%Z ->
  leb (f j) (f i) = true.
Proof.
  intros Hfin Hstep i j Hi Hij Hj.
  replace j with (i + Z.of_nat (Z.to_nat (j - i)))%Z by lia.
  assert (Hk : (i + Z.of_nat (Z.to_nat (j - i)) <= b)%Z) by lia.
  generalize dependent (Z.to_nat (j - i)). intros k.
  induction k as [| k IH]; intros Hk.
  - rewrite Z.add_0_r. apply leb_refl. apply Hfin. lia.
  - apply leb_trans with (f (i + Z.of_nat k)%Z).
    + replace (i + Z.of_nat (S k))%Z with (i + Z.of_nat k + 1)%Z by lia.
      apply Hstep. lia.
    + apply IH. lia.
Qed.

(** ** Monotonicity of the miss product *)

Lemma missProduct_antitone_len (T nt : Z) (len1 len2 : nat) :
  (len1 <= len2)%nat -> (Z.of_nat len2 <= nt <= T)%Z ->
  missProduct T nt len2 <= missProduct T nt len1.
Proof.
  induction 1 as [| len2 Hle IH]; intros Hr; [apply Qle_refl |].
  cbn [missProduct].
  destruct (missProduct_bounds T nt len2) as [P0 P1]; [lia |].
  destruct (factor_bounds (nt - Z.of_nat len2) (T - Z.of_nat len2))
    as [F0 F1]; [lia |].
  apply Qle_trans with (missProduct T nt len2); [nra | apply IH; lia].
Qed.

Lemma factor_mono (a b c : Z) :
  (a <= b)%Z -> (0 < c)%Z ->
  inject_Z a / inject_Z c <= inject_Z b / inject_Z c.
Proof.
  intros Hab Hc. unfold Qdiv. apply Qmult_le_compat_r.
  - now rewrite <- Zle_Qle.
  - apply Qinv_le_0_compat. apply Qlt_le_weak. now apply inject_Z_pos.
Qed.

Lemma missProduct_mono_nonTargets (T nt1 nt2 : Z) (len : nat) :
  (Z.of_nat len <= nt1)%Z -> (nt1 <= nt2)%Z -> (nt2 <= T)%Z ->
  missProduct T nt1 len <= missProduct T nt2 len.
Proof.
  induction len as [| len IH]; intros H1 H2 H3; [apply Qle_refl |].
  cbn [missProduct].
  destruct (missProduct_bounds T nt1 len) as [P0 _]; [lia |].
  destruct (factor_bounds (nt1 - Z.of_nat len) (T - Z.of_nat len))
    as [F0 _]; [lia |].
  pose proof (factor_mono (nt1 - Z.of_nat len) (nt2 - Z.of_nat len)
                (T - Z.of_nat len)) as Hf.
  specialize (IH ltac:(lia) H2 H3). specialize (Hf ltac:(lia) ltac:(lia)).
  set (f1 := inject_Z (nt1 - Z.of_nat len) / inject_Z (T - Z.of_nat len)) in *.
  set (f2 := inject_Z (nt2 - Z.of_nat len) / inject_Z (T - Z.of_nat len)) in *.
  nra.
Qed.

Lemma missValue_antitone_draws (T t d1 d2 : Z) :
  (d1 <= d2)%Z -> missValue T t d2 <= missValue T t d1.
Proof.
  intros Hd. destruct (missValue_bounds T t d1) as [A0 A1].
  destruct (missValue_bounds T t d2) as [B0 B1].
  unfold missValue in *.
  destruct (Z.leb_spec d1 0); [exact B1 |].
  destruct (Z.leb_spec d2 0); [lia |].
  destruct (Z.leb_spec t 0); [apply Qle_refl |].
  destruct (Z.leb_spec T 0); [apply Qle_refl |]. cbn [orb] in *.
  destruct (Z.ltb_spec (T - t) d2); [exact A0 |].
  destruct (Z.ltb_spec (T - t) d1); [lia |].
  apply missProduct_antitone_len; lia.
Qed.

Lemma missValue_antitone_targets (T t1 t2 d : Z) :
  (t1 <= t2)%Z -> missValue T t2 d <= missValue T t1 d.
Proof.
  intros Ht. destruct (missValue_bounds T t1 d) as [A0 A1].
  destruct (missValue_bounds T t2 d) as [B0 B1].
  unfold missValue in *.
  destruct (Z.leb_spec d 0); [apply Qle_refl |].
  destruct (Z.leb_spec t1 0); [exact B1 |].
  destruct (Z.leb_spec t2 0); [lia |].
  destruct (Z.leb_spec T 0); [apply Qle_refl |]. cbn [orb] in *.
  destruct (Z.ltb_spec (T - t2) d); [exact A0 |].
  destruct (Z.ltb_spec (T - t1) d); [lia |].
  apply missProduct_mono_nonTargets; lia.
Qed.

(** ** Values of the ratio on floored and clamped arguments *)

Lemma drawsValue_ofZ (T t z : Z) : drawsValue T t (ofZ z) = missValue T t z.
Proof. unfold drawsValue, ofZ. now rewrite Qfloor_Z. Qed.

Lemma Spec_zeroHitRatio_NaN_val (T t : Z) :
  val_is (Spec.zeroHitRatio (ofZ T) (ofZ t) NaN) (nanDrawsValue T t).
Proof.
  unfold Spec.zeroHitRatio, nanDrawsValue, zero.
  change (leb NaN (ofZ 0)) with false. cbv iota.
  rewrite !leb_ofZ, sub_ofZ, ltb_ofZ.
  destruct (Z.leb_spec t 0); [reflexivity |].
  destruct (Z.leb_spec T 0); [reflexivity |]. cbn [orb].
  change (gtb NaN (ofZ T)) with false. cbv iota.
  destruct (Z.ltb_spec (T - t) 0); reflexivity.
Qed.

Lemma drawsValue_val (T t : Z) (x : number) (hi : Z) :
  (0 <= hi)%Z ->
  val_is (Spec.zeroHitRatio (ofZ T) (ofZ t) (floorClamp x hi))
         (drawsValue T t (floorClamp x hi)).
Proof.
  intros Hhi.
  destruct (floorClamp_cases x hi Hhi) as [[_ E] | [_ [z [E _]]]]; rewrite E.
  - apply Spec_zeroHitRatio_NaN_val.
  - rewrite drawsValue_ofZ. apply Spec_zeroHitRatio_val.
Qed.

Lemma nanDrawsValue_bounds (T t : Z) :
  0 <= nanDrawsValue T t /\ nanDrawsValue T t <= 1.
Proof.
  unfold nanDrawsValue.
  destruct ((t <=? 0) || (T <=? 0))%Z; [lra |].
  destruct (T - t <? 0)%Z; lra.
Qed.

Lemma drawsValue_bounds (T t : Z) (d : number) :
  0 <= drawsValue T t d /\ drawsValue T t d <= 1.
Proof.
  destruct d; cbn [drawsValue];
    (apply nanDrawsValue_bounds || apply missValue_bounds).
Qed.

Lemma nanDrawsValue_antitone (T t1 t2 : Z) :
  (t1 <= t2)%Z -> nanDrawsValue T t2 <= nanDrawsValue T t1.
Proof.
  intros H. unfold nanDrawsValue.
  destruct (Z.leb_spec t1 0); destruct (Z.leb_spec t2 0);
    destruct (Z.leb_spec T 0); cbn [orb];
    destruct (Z.ltb_spec (T - t1) 0); destruct (Z.ltb_spec (T - t2) 0);
    try lra; lia.
Qed.

Lemma drawsValue_antitone_targets (T t1 t2 : Z) (d : number) :
  (t1 <= t2)%Z -> drawsValue T t2 d <= drawsValue T t1 d.
Proof.
  intros H. destruct d; cbn [drawsValue];
    (now apply nanDrawsValue_antitone || now apply missValue_antitone_targets).
Qed.

Lemma clampZ_mono (x1 x2 : number) (hi : Z) :
  (0 <= hi)%Z -> leb x1 x2 = true -> (clampZ x1 hi <= clampZ x2 hi)%Z.
Proof.
  intros Hhi H.
  destruct x1 as [| | | p], x2 as [| | | q]; cbn [leb] in H;
    try discriminate; cbn [clampZ]; try lia.
  apply Qle_bool_iff in H. apply Qfloor_resp_le in H. lia.
Qed.

Lemma leb_not_NaN (x1 x2 : number) :
  leb x1 x2 = true -> x1 <> NaN /\ x2 <> NaN.
Proof.
  destruct x1, x2; cbn [leb]; intros H; try discriminate H;
    split; discriminate.
Qed.

Lemma drawsValue_antitone_draws (T t : Z) (x1 x2 : number) (hi : Z) :
  (0 <= hi)%Z -> leb x1 x2 = true ->
  drawsValue T t (floorClamp x2 hi) <= drawsValue T t (floorClamp x1 hi).
Proof.
  intros Hhi H. destruct (leb_not_NaN x1 x2 H) as [H1 H2].
  rewrite !floorClamp_ofZ, !drawsValue_ofZ by assumption.
  apply missValue_antitone_draws. now apply clampZ_mono.
Qed.

(** ** Values of the results *)

Lemma val_is_one : val_is one 1.
Proof. reflexivity. Qed.

Lemma complement_unit (a : number) (p : Q) :
  val_is a p ->
  exists q, clamp (sub one a) zero one = Fin q /\ 0 <= q /\ q <= 1.
Proof.
  intros Ha.
  pose proof (clamp01_val _ _ (val_is_sub _ _ _ _ val_is_one Ha)) as H.
  destruct (clamp (sub one a) zero one) as [| | | q]; try contradiction.
  cbn [val_is] in H. destruct (clampQ_bounds (1 - p)).
  exists q. split; [reflexivity |]. rewrite H. now split.
Qed.

Lemma complement_leb (a1 a2 : number) (p1 p2 : Q) :
  val_is a1 p1 -> val_is a2 p2 -> p2 <= p1 ->
  leb (clamp (sub one a1) zero one) (clamp (sub one a2) zero one) = true.
Proof.
  intros H1 H2 Hle.
  rewrite (val_is_leb _ _ _ _
             (clamp01_val _ _ (val_is_sub _ _ _ _ val_is_one H1))
             (clamp01_val _ _ (val_is_sub _ _ _ _ val_is_one H2))).
  apply Qle_bool_iff. apply clampQ_mono. lra.
Qed.

(** The sum of the no-keep policy is a finite value [>= 0]. *)
Lemma missSum_val (zn : Z) (y : number) :
  (0 <= zn <= 40)%Z ->
  exists s, val_is (NoKeepSpec.missSum (ofZ zn) (floorClamp y 40)) s /\ 0 <= s.
Proof.
  intros Hn.
  destruct (floorClamp_cases y 40) as [[_ E] | [_ [zl [E Hl]]]]; [lia | |];
    rewrite E.
  - exists 0. split; [reflexivity | lra].
  - destruct (nonneg_val _ (sumTable_nonneg zl zn Hl Hn)) as [q [Eq Hq]].
    exists q. rewrite Eq. split; [reflexivity | exact Hq].
Qed.

(** The miss probabilities are finite when the target count is not NaN. *)
Lemma keep_miss_val (l n m : number) :
  n <> NaN ->
  val_is (mul (mul (Spec.zeroHitRatio (ofZ 40) (floorClamp n 40) (ofZ 4))
                   (Spec.zeroHitRatio (ofZ 36) (floorClamp n 40)
                      (floorClamp l 40)))
              (Spec.zeroHitRatio (ofZ 36) (floorClamp n 40) (floorClamp m 40)))
         (missValue 40 (clampZ n 40) 4 *
          drawsValue 36 (clampZ n 40) (floorClamp l 40) *
          drawsValue 36 (clampZ n 40) (floorClamp m 40)).
Proof.
  intros Hn. rewrite (floorClamp_ofZ n 40) by (lia || exact Hn).
  repeat apply val_is_mul.
  - apply Spec_zeroHitRatio_val.
  - apply drawsValue_val. lia.
  - apply drawsValue_val. lia.
Qed.

Lemma restricted_miss_val (n l m : number) :
  n <> NaN ->
  val_is (mul (Spec.zeroHitRatio (ofZ 36) (floorClamp n 40) (floorClamp l 4))
              (Spec.zeroHitRatio (ofZ 36) (floorClamp n 40) (floorClamp m 40)))
         (drawsValue 36 (clampZ n 40) (floorClamp l 4) *
          drawsValue 36 (clampZ n 40) (floorClamp m 40)).
Proof.
  intros Hn. rewrite (floorClamp_ofZ n 40) by (lia || exact Hn).
  apply val_is_mul; apply drawsValue_val; lia.
Qed.

Lemma noKeep_miss_val (l n m : number) :
  n <> NaN ->
  exists s,
    val_is (NoKeepSpec.missSum (floorClamp n 40) (floorClamp l 40)) s /\
    0 <= s /\
    val_is (mul (NoKeepSpec.Q_m (floorClamp n 40) (floorClamp m 40))
                (NoKeepSpec.missSum (floorClamp n 40) (floorClamp l 40)))
           (drawsValue 36 (clampZ n 40) (floorClamp m 40) * s).
Proof.
  intros Hn. rewrite (floorClamp_ofZ n 40) by (lia || exact Hn).
  destruct (missSum_val (clampZ n 40) l) as [s [Hs Hs0]];
    [apply clampZ_range; lia |].
  exists s. split; [exact Hs |]. split; [exact Hs0 |].
  apply val_is_mul; [| exact Hs]. unfold NoKeepSpec.Q_m.
  apply drawsValue_val. lia.
Qed.

(** ** The range of the results *)

(** C1, as amended.  Every call returns a value, for every policy and all
    arguments; when the target count is not NaN (the other two arguments
    may be NaN, infinite, negative or out of range) the value is a finite
    number of [0,1]. *)
Theorem probability_in_unit_interval (fuel : nat) (keepMode : KeepMode)
    (l n m : number) :
  (42 <= fuel)%nat ->
  (exists r, probabilityAtLeastOne fuel keepMode l n m = Some r /\
             (n <> NaN -> exists q, r = Fin q /\ 0 <= q /\ q <= 1)) /\
  (exists r, probabilityAtLeastOneKeep fuel n l m = Some r /\
             (n <> NaN -> exists q, r = Fin q /\ 0 <= q /\ q <= 1)).
Proof.
  intros Hfuel. split.
  - destruct keepMode.
    + eexists. split; [apply keep_computes; lia |].
      intros Hn. eapply complement_unit. now apply keep_miss_val.
    + eexists. split; [now apply noKeep_formula |].
      intros Hn. destruct (noKeep_miss_val l n m Hn) as [s [_ [_ Hv]]].
      eapply complement_unit. exact Hv.
  - eexists. split; [apply restricted_keep_computes; lia |].
    intros Hn. eapply complement_unit. now apply restricted_miss_val.
Qed.

Lemma probability_in_unit_interval_witness :
  (exists r, probabilityAtLeastOne 42 noKeep PosInf (ofZ (-2)) NaN = Some r /\
             (ofZ (-2) <> NaN -> exists q, r = Fin q /\ 0 <= q /\ q <= 1)) /\
  (exists r, probabilityAtLeastOneKeep 42 (ofZ (-2)) PosInf NaN = Some r /\
             (ofZ (-2) <> NaN -> exists q, r = Fin q /\ 0 <= q /\ q <= 1)).
Proof.
  apply (probability_in_unit_interval 42 noKeep PosInf (ofZ (-2)) NaN). lia.
Defined.

(** C1, as stated, fails: a NaN target count passes the clamp and both
    models return NaN. *)
Lemma probability_NaN_counterexample :
  probabilityAtLeastOne 42 keep (ofZ 0) NaN (ofZ 0) = Some NaN /\
  probabilityAtLeastOne 42 noKeep (ofZ 0) NaN (ofZ 1) = Some NaN /\
  probabilityAtLeastOneKeep 42 NaN (ofZ 1) (ofZ 0) = Some NaN.
Proof.
  repeat split; reflexivity.
Qed.

(** ** The specification's clamps and the program's *)

Lemma clamp_toUnit (x : number) : clamp x zero one = ClampSpec.toUnit x.
Proof.
  destruct x as [| | | p]; try reflexivity.
  rewrite clamp01_Fin. unfold ClampSpec.toUnit, one, zero, ofZ. cbn [ltb leb].
  change (inject_Z 1) with 1. change (inject_Z 0) with 0.
  destruct (Qle_bool 0 p) eqn:E0; destruct (Qle_bool 1 p) eqn:E1;
    cbn [negb]; try reflexivity.
  Qle_bool_to_Prop. lra.
Qed.

Lemma floorClamp_input (x : number) (hi : Z) :
  (0 <= hi)%Z -> floorClamp x hi = ClampSpec.input x hi.
Proof.
  intros H. destruct x as [| | | q]; [reflexivity | | |];
    (rewrite floorClamp_ofZ by (exact H || discriminate)); reflexivity.
Qed.

Lemma input_range (x : number) (hi : Z) :
  (0 <= hi)%Z -> x <> NaN ->
  ClampSpec.input x hi = ofZ (clampZ x hi) /\ (0 <= clampZ x hi <= hi)%Z.
Proof.
  intros H Hx. split; [| now apply clampZ_range].
  destruct x; [contradiction | reflexivity ..].
Qed.

(** A probability model does not return NaN on a target count that is not
    NaN. *)
Lemma keep_not_NaN (fuel : nat) (l n m : number) :
  (41 <= fuel)%nat -> n <> NaN ->
  probabilityAtLeastOne fuel keep l n m <> Some NaN.
Proof.
  intros Hfuel Hn. rewrite keep_computes by exact Hfuel.
  destruct (complement_unit _ _ (keep_miss_val l n m Hn)) as [q [E _]].
  rewrite E. discriminate.
Qed.


(** ** Claims about the keep policy *)

(** C2, as amended.  Under the keep policy the general model returns
    1 - zeroHitRatio(40,n',4) * zeroHitRatio(36,n',l') * zeroHitRatio(36,n',m')
    clamped to [0,1], where n', l', m' are the arguments floored and clamped
    to [0,40]: an integer of [0,40] for every argument that is not NaN
    (fractions and the infinities included), NaN for a NaN argument. *)
Theorem keep_policy_formula (fuel : nat) (l n m : number) :
  (41 <= fuel)%nat ->
  probabilityAtLeastOne fuel keep l n m =
  Some (ClampSpec.toUnit
          (sub one
             (mul (mul (Spec.zeroHitRatio (ofZ 40) (ClampSpec.input n 40)
                          (ofZ 4))
                       (Spec.zeroHitRatio (ofZ 36) (ClampSpec.input n 40)
                          (ClampSpec.input l 40)))
                  (Spec.zeroHitRatio (ofZ 36) (ClampSpec.input n 40)
                     (ClampSpec.input m 40))))) /\
  (forall x, x <> NaN ->
     ClampSpec.input x 40 = ofZ (clampZ x 40) /\ (0 <= clampZ x 40 <= 40)%Z).
Proof.
  intros Hfuel. split.
  - rewrite keep_computes by exact Hfuel.
    now rewrite clamp_toUnit, !floorClamp_input by lia.
  - intros x Hx. apply input_range; [lia | exact Hx].
Qed.

Lemma keep_policy_formula_witness :
  probabilityAtLeastOne 41 keep (Fin (5 # 2)) (ofZ 3) PosInf =
  Some (ClampSpec.toUnit
          (sub one
             (mul (mul (Spec.zeroHitRatio (ofZ 40) (ClampSpec.input (ofZ 3) 40)
                          (ofZ 4))
                       (Spec.zeroHitRatio (ofZ 36) (ClampSpec.input (ofZ 3) 40)
                          (ClampSpec.input (Fin (5 # 2)) 40)))
                  (Spec.zeroHitRatio (ofZ 36) (ClampSpec.input (ofZ 3) 40)
                     (ClampSpec.input PosInf 40))))) /\
  (forall x, x <> NaN ->
     ClampSpec.input x 40 = ofZ (clampZ x 40) /\ (0 <= clampZ x 40 <= 40)%Z).
Proof.
  apply (keep_policy_formula 41 (Fin (5 # 2)) (ofZ 3) PosInf). lia.
Defined.

(** C2, as stated, fails: a NaN target count is not clamped to [0,40]; the
    result is NaN, which no target count of [0,40] gives. *)
Lemma keep_policy_NaN_counterexample :
  clamp (floor NaN) zero (ofZ 40) = NaN /\
  probabilityAtLeastOne 41 keep (ofZ 2) NaN (ofZ 9) = Some NaN /\
  (forall z, (0 <= z <= 40)%Z ->
     probabilityAtLeastOne 41 keep (ofZ 2) (ofZ z) (ofZ 9) <> Some NaN).
Proof.
  split; [reflexivity |]. split; [reflexivity |].
  intros z _. apply keep_not_NaN; [lia | discriminate].
Qed.




(** ** Monotonicity *)

Lemma prod2_le (a1 b1 a2 b2 : Q) :
  0 <= a2 -> a2 <= a1 -> 0 <= b2 -> b2 <= b1 -> a2 * b2 <= a1 * b1.
Proof. intros. nra. Qed.

Lemma prod2_nonneg (a b : Q) : 0 <= a -> 0 <= b -> 0 <= a * b.
Proof. intros. nra. Qed.

Lemma val_is_leb_le (a b : number) (p q : Q) :
  val_is a p -> val_is b q -> leb a b = true -> p <= q.
Proof.
  intros Ha Hb H. rewrite (val_is_leb _ _ _ _ Ha Hb) in H.
  now apply Qle_bool_iff.
Qed.

Lemma missSum_antitone_targets (zn1 zn2 : Z) (y : number) :
  (0 <= zn1)%Z -> (zn1 <= zn2)%Z -> (zn2 <= 40)%Z ->
  leb (NoKeepSpec.missSum (ofZ zn2) (floorClamp y 40))
      (NoKeepSpec.missSum (ofZ zn1) (floorClamp y 40)) = true.
Proof.
  intros H1 H2 H3.
  destruct (floorClamp_cases y 40) as [[_ E] | [_ [zl [E Hl]]]]; [lia | |];
    rewrite E.
  - reflexivity.
  - apply (antitone_chain
             (fun n => NoKeepSpec.missSum (ofZ n) (ofZ zl)) 0 40);
      try assumption.
    + intros i Hi.
      destruct (nonneg_val _ (sumTable_nonneg zl i Hl Hi)) as [q [Eq _]].
      rewrite Eq. discriminate.
    + intros i Hi. now apply sumTable_row_step.
Qed.

Lemma ltb_37_clampZ (y : number) :
  ltb y (ofZ 37) = true -> (clampZ y 40 <= 36)%Z.
Proof.
  destruct y as [| | | q]; cbn [ltb ofZ clampZ]; try discriminate;
    try (intros _; lia).
  intros H. apply negb_true_iff in H. apply not_true_iff_false in H.
  rewrite Qle_bool_iff in H. apply Qnot_le_lt in H.
  assert (Hf : inject_Z (Qfloor q) < inject_Z 37).
  { apply Qle_lt_trans with q; [apply Qfloor_le | exact H]. }
  rewrite <- Zlt_Qlt in Hf. lia.
Qed.

Lemma missSum_antitone_mulligan (zn : Z) (y1 y2 : number) :
  (0 <= zn <= 40)%Z -> leb y1 y2 = true -> ltb y2 (ofZ 37) = true ->
  leb (NoKeepSpec.missSum (ofZ zn) (floorClamp y2 40))
      (NoKeepSpec.missSum (ofZ zn) (floorClamp y1 40)) = true.
Proof.
  intros Hn Hle Hlt. destruct (leb_not_NaN y1 y2 Hle) as [N1 N2].
  rewrite !floorClamp_ofZ by (lia || assumption).
  pose proof (clampZ_mono y1 y2 40 ltac:(lia) Hle).
  pose proof (ltb_37_clampZ y2 Hlt).
  pose proof (clampZ_range y1 40 ltac:(lia)).
  apply (antitone_chain
           (fun l => NoKeepSpec.missSum (ofZ zn) (ofZ l)) 0 36); try lia.
  - intros i Hi.
    destruct (nonneg_val _ (sumTable_nonneg i zn ltac:(lia) Hn))
      as [q [Eq _]].
    rewrite Eq. discriminate.
  - intros i Hi. apply sumTable_col_step; lia.
Qed.

(** Comparing two calls through their miss probabilities. *)
Lemma keep_le (fuel : nat) (l1 n1 m1 l2 n2 m2 : number) :
  (42 <= fuel)%nat -> n1 <> NaN -> n2 <> NaN ->
  missValue 40 (clampZ n2 40) 4 *
  drawsValue 36 (clampZ n2 40) (floorClamp l2 40) *
  drawsValue 36 (clampZ n2 40) (floorClamp m2 40) <=
  missValue 40 (clampZ n1 40) 4 *
  drawsValue 36 (clampZ n1 40) (floorClamp l1 40) *
  drawsValue 36 (clampZ n1 40) (floorClamp m1 40) ->
  le_result (probabilityAtLeastOne fuel keep l1 n1 m1)
            (probabilityAtLeastOne fuel keep l2 n2 m2).
Proof.
  intros Hfuel N1 N2 H. rewrite !keep_computes by lia. cbn [le_result].
  eapply complement_leb; [now apply keep_miss_val .. | exact H].
Qed.

Lemma restricted_le (fuel : nat) (l1 n1 m1 l2 n2 m2 : number) :
  (42 <= fuel)%nat -> n1 <> NaN -> n2 <> NaN ->
  drawsValue 36 (clampZ n2 40) (floorClamp l2 4) *
  drawsValue 36 (clampZ n2 40) (floorClamp m2 40) <=
  drawsValue 36 (clampZ n1 40) (floorClamp l1 4) *
  drawsValue 36 (clampZ n1 40) (floorClamp m1 40) ->
  le_result (probabilityAtLeastOneKeep fuel n1 l1 m1)
            (probabilityAtLeastOneKeep fuel n2 l2 m2).
Proof.
  intros Hfuel N1 N2 H. rewrite !restricted_keep_computes by lia.
  cbn [le_result].
  eapply complement_leb; [now apply restricted_miss_val .. | exact H].
Qed.

Lemma noKeep_le (fuel : nat) (l1 n1 m1 l2 n2 m2 : number) :
  (42 <= fuel)%nat -> n1 <> NaN -> n2 <> NaN ->
  drawsValue 36 (clampZ n2 40) (floorClamp m2 40) <=
  drawsValue 36 (clampZ n1 40) (floorClamp m1 40) ->
  leb (NoKeepSpec.missSum (floorClamp n2 40) (floorClamp l2 40))
      (NoKeepSpec.missSum (floorClamp n1 40) (floorClamp l1 40)) = true ->
  le_result (probabilityAtLeastOne fuel noKeep l1 n1 m1)
            (probabilityAtLeastOne fuel noKeep l2 n2 m2).
Proof.
  intros Hfuel N1 N2 Hq Hs. rewrite !noKeep_formula by lia. cbn [le_result].
  destruct (noKeep_miss_val l1 n1 m1 N1) as [s1 [S1 [P1 V1]]].
  destruct (noKeep_miss_val l2 n2 m2 N2) as [s2 [S2 [P2 V2]]].
  unfold NoKeepSpec.atLeastOne.
  eapply complement_leb; [exact V1 | exact V2 |].
  pose proof (val_is_leb_le _ _ _ _ S2 S1 Hs).
  apply prod2_le; try assumption.
  apply drawsValue_bounds.
Qed.

Lemma leb_refl_missSum (l n : number) :
  n <> NaN ->
  leb (NoKeepSpec.missSum (floorClamp n 40) (floorClamp l 40))
      (NoKeepSpec.missSum (floorClamp n 40) (floorClamp l 40)) = true.
Proof.
  intros Hn. rewrite (floorClamp_ofZ n 40) by (lia || exact Hn).
  destruct (missSum_val (clampZ n 40) l) as [s [Hs _]];
    [apply clampZ_range; lia |].
  apply leb_refl. intros E. rewrite E in Hs. exact Hs.
Qed.

(** C7, as amended.  With a target count that is not NaN: both policies of
    the general model and the restricted model are non-decreasing in the
    later-draw count m and in the target count n; the keep policy and the
    restricted model are non-decreasing in the mulligan count l; the no-keep
    policy is non-decreasing in l as long as l stays below 37. *)
Theorem results_monotone (fuel : nat) :
  (42 <= fuel)%nat ->
  (forall keepMode l n m1 m2, n <> NaN -> leb m1 m2 = true ->
     le_result (probabilityAtLeastOne fuel keepMode l n m1)
               (probabilityAtLeastOne fuel keepMode l n m2)) /\
  (forall n l m1 m2, n <> NaN -> leb m1 m2 = true ->
     le_result (probabilityAtLeastOneKeep fuel n l m1)
               (probabilityAtLeastOneKeep fuel n l m2)) /\
  (forall keepMode l n1 n2 m, leb n1 n2 = true ->
     le_result (probabilityAtLeastOne fuel keepMode l n1 m)
               (probabilityAtLeastOne fuel keepMode l n2 m)) /\
  (forall n1 n2 l m, leb n1 n2 = true ->
     le_result (probabilityAtLeastOneKeep fuel n1 l m)
               (probabilityAtLeastOneKeep fuel n2 l m)) /\
  (forall l1 l2 n m, n <> NaN -> leb l1 l2 = true ->
     le_result (probabilityAtLeastOne fuel keep l1 n m)
               (probabilityAtLeastOne fuel keep l2 n m)) /\
  (forall n l1 l2 m, n <> NaN -> leb l1 l2 = true ->
     le_result (probabilityAtLeastOneKeep fuel n l1 m)
               (probabilityAtLeastOneKeep fuel n l2 m)) /\
  (forall l1 l2 n m, n <> NaN -> leb l1 l2 = true ->
     ltb l2 (ofZ 37) = true ->
     le_result (probabilityAtLeastOne fuel noKeep l1 n m)
               (probabilityAtLeastOne fuel noKeep l2 n m)).
Proof.
  intros Hfuel. repeat split.
  - intros keepMode l n m1 m2 Hn Hm.
    pose proof (drawsValue_antitone_draws 36 (clampZ n 40) m1 m2 40
                  ltac:(lia) Hm) as Hd.
    destruct keepMode.
    + apply keep_le; try assumption.
      apply prod2_le; try exact Hd; try apply drawsValue_bounds;
        [| apply Qle_refl].
      apply prod2_nonneg; [apply missValue_bounds | apply drawsValue_bounds].
    + apply noKeep_le; try assumption. now apply leb_refl_missSum.
  - intros n l m1 m2 Hn Hm.
    pose proof (drawsValue_antitone_draws 36 (clampZ n 40) m1 m2 40
                  ltac:(lia) Hm) as Hd.
    apply restricted_le; try assumption.
    apply prod2_le; try exact Hd; try apply drawsValue_bounds.
    apply Qle_refl.
  - intros keepMode l n1 n2 m Hn. destruct (leb_not_NaN n1 n2 Hn) as [N1 N2].
    pose proof (clampZ_mono n1 n2 40 ltac:(lia) Hn) as Hz.
    destruct keepMode.
    + apply keep_le; try assumption.
      apply prod2_le; try apply drawsValue_bounds;
        try (now apply drawsValue_antitone_targets).
      * apply prod2_nonneg; [apply missValue_bounds | apply drawsValue_bounds].
      * apply prod2_le; try apply drawsValue_bounds;
          try apply missValue_bounds;
          try (now apply drawsValue_antitone_targets).
        now apply missValue_antitone_targets.
    + apply noKeep_le; try assumption.
      * now apply drawsValue_antitone_targets.
      * rewrite (floorClamp_ofZ n1 40), (floorClamp_ofZ n2 40)
          by (lia || assumption).
        pose proof (clampZ_range n1 40 ltac:(lia)).
        pose proof (clampZ_range n2 40 ltac:(lia)).
        apply missSum_antitone_targets; lia.
  - intros n1 n2 l m Hn. destruct (leb_not_NaN n1 n2 Hn) as [N1 N2].
    pose proof (clampZ_mono n1 n2 40 ltac:(lia) Hn) as Hz.
    apply restricted_le; try assumption.
    apply prod2_le; try apply drawsValue_bounds;
      now apply drawsValue_antitone_targets.
  - intros l1 l2 n m Hn Hl.
    pose proof (drawsValue_antitone_draws 36 (clampZ n 40) l1 l2 40
                  ltac:(lia) Hl) as Hd.
    apply keep_le; try assumption.
    apply prod2_le; try apply drawsValue_bounds; [| | apply Qle_refl].
    + apply prod2_nonneg; [apply missValue_bounds | apply drawsValue_bounds].
    + apply prod2_le; try apply drawsValue_bounds;
        try apply missValue_bounds; [apply Qle_refl | exact Hd].
  - intros n l1 l2 m Hn Hl.
    pose proof (drawsValue_antitone_draws 36 (clampZ n 40) l1 l2 4
                  ltac:(lia) Hl) as Hd.
    apply restricted_le; try assumption.
    apply prod2_le; try apply drawsValue_bounds; [exact Hd | apply Qle_refl].
  - intros l1 l2 n m Hn Hl Hlt.
    apply noKeep_le; try assumption; [apply Qle_refl |].
    rewrite (floorClamp_ofZ n 40) by (lia || assumption).
    apply missSum_antitone_mulligan; try assumption.
    apply clampZ_range. lia.
Qed.

Lemma results_monotone_witness :
  le_result (probabilityAtLeastOne 42 noKeep (ofZ 35) (ofZ 1) (ofZ 0))
            (probabilityAtLeastOne 42 noKeep (ofZ 36) (ofZ 1) (ofZ 0)).
Proof.
  destruct (results_monotone 42) as [_ [_ [_ [_ [_ [_ H]]]]]]; [lia |].
  apply H; [discriminate | reflexivity | reflexivity].
Defined.

(** C7, as stated, fails: under the no-keep policy with one target and no
    later draws, a mulligan of 36 cards gives 1/2 and one of 37 cards gives
    36/73. *)
Lemma noKeep_mulligan_counterexample :
  probabilityAtLeastOne 42 noKeep (ofZ 36) (ofZ 1) (ofZ 0) =
  Some (Fin (1 # 2)) /\
  probabilityAtLeastOne 42 noKeep (ofZ 37) (ofZ 1) (ofZ 0) =
  Some (Fin (36 # 73)) /\
  leb (ofZ 36) (ofZ 37) = true /\
  leb (Fin (1 # 2)) (Fin (36 # 73)) = false.
Proof.
  repeat split; vm_compute; reflexivity.
Qed.

(** ** The combination as a binomial coefficient *)

Lemma factQ_pos (n : nat) : 0 < factQ n.
Proof.
  unfold factQ. apply inject_Z_pos.
  pose proof (lt_O_fact n). lia.
Qed.

Lemma factQ_S (n : nat) : factQ (S n) == inject_Z (Z.of_nat (S n)) * factQ n.
Proof.
  unfold factQ. rewrite <- inject_Z_mult. apply inject_Z_injective.
  change (fact (S n)) with (S n * fact n)%nat. lia.
Qed.

Lemma risingQ_fact (m len : nat) :
  risingQ (Z.of_nat m) len * factQ len * factQ m == factQ (m + len).
Proof.
  induction len as [| len IH].
  - cbn [risingQ]. rewrite Nat.add_0_r. unfold factQ at 1. simpl fact.
    change (inject_Z (Z.of_nat 1)) with 1. ring.
  - cbn [risingQ]. replace (m + S len)%nat with (S (m + len)) by lia.
    rewrite (factQ_S len), (factQ_S (m + len)), <- IH.
    replace (Z.of_nat m + Z.of_nat (S len))%Z with (Z.of_nat (S (m + len)))
      by lia.
    assert (H : ~ inject_Z (Z.of_nat (S len)) == 0).
    { intros E. assert (0 < inject_Z (Z.of_nat (S len)))
        by (apply inject_Z_pos; lia). lra. }
    field. exact H.
Qed.

Section CombinationFold.

Variables m : Z.

Let step (r : number) (i : Z) : number :=
  mul r (div (ofZ (m + i)) (ofZ i)).

Lemma fold_risingQ (len : nat) :
  val_is (fold_left step (zrange 1 len) one) (risingQ m len).
Proof.
  induction len as [| len IH]; [reflexivity |].
  rewrite zrange_snoc, fold_left_app. cbn [fold_left risingQ].
  unfold step at 1.
  replace (1 + Z.of_nat len)%Z with (Z.of_nat (S len)) by lia.
  apply val_is_mul; [exact IH |].
  apply val_is_div; try apply val_is_ofZ.
  intros E. assert (0 < inject_Z (Z.of_nat (S len)))
    by (apply inject_Z_pos; lia).
  lra.
Qed.

End CombinationFold.

(** The value of [Spec.combination] on integers [0 <= k <= n]. *)
Lemma Spec_combination_val (n k : Z) :
  (0 <= k <= n)%Z ->
  exists v, val_is (Spec.combination (ofZ n) (ofZ k)) v /\
            v * (factQ (Z.to_nat k) * factQ (Z.to_nat (n - k))) ==
            factQ (Z.to_nat n).
Proof.
  intros H. unfold Spec.combination, ofZ. rewrite !Qfloor_Z. cbv zeta.
  destruct (Z.ltb_spec k 0); [lia |].
  rewrite Z.gtb_ltb. destruct (Z.ltb_spec n k); [lia |]. cbn [orb].
  set (e := Z.min k (n - k)).
  assert (He : (0 <= e <= n)%Z) by (unfold e; lia).
  assert (Hsym : factQ (Z.to_nat k) * factQ (Z.to_nat (n - k)) ==
                 factQ (Z.to_nat e) * factQ (Z.to_nat (n - e))).
  { unfold e. destruct (Z.min_spec k (n - k)) as [[_ ->] | [_ ->]].
    - reflexivity.
    - replace (n - (n - k))%Z with k by lia. ring. }
  pose proof (risingQ_fact (Z.to_nat (n - e)) (Z.to_nat e)) as HR.
  replace (Z.to_nat (n - e) + Z.to_nat e)%nat with (Z.to_nat n) in HR by lia.
  rewrite Z2Nat.id in HR by lia.
  destruct (Z.eqb_spec e 0) as [E0 | E0].
  - exists 1. split; [reflexivity |]. rewrite Hsym, <- HR.
    rewrite E0. cbn [Z.to_nat risingQ]. ring.
  - exists (risingQ (n - e) (Z.to_nat e)). split.
    + apply (fold_risingQ (n - e)).
    + rewrite Hsym, <- HR. ring.
Qed.

Lemma Spec_combination_outside (n k : Z) :
  (k < 0 \/ n < k)%Z -> Spec.combination (ofZ n) (ofZ k) = zero.
Proof.
  intros H. unfold Spec.combination, ofZ. rewrite !Qfloor_Z. cbv zeta.
  rewrite Z.gtb_ltb.
  destruct (Z.ltb_spec k 0); [reflexivity |].
  destruct (Z.ltb_spec n k); [reflexivity | lia].
Qed.

(** X2.  On integers, [combination(n, k)] and [combination(n, n - k)] are the
    same result, also outside 0 <= k <= n, where both are 0, and for every
    fuel. *)
Theorem combination_symmetric (fuel : nat) (n k : Z) :
  combination fuel (ofZ n) (ofZ k) = combination fuel (ofZ n) (ofZ (n - k)).
Proof.
  unfold combination. cbn [isFinite negb orb ofZ floor]. cbv zeta.
  rewrite !Qfloor_Z. fold (ofZ n) (ofZ k) (ofZ (n - k)).
  unfold gtb, zero. rewrite !ltb_ofZ, !sub_ofZ, !min_ofZ, !strict_eq_ofZ.
  replace (n - (n - k))%Z with k by lia.
  rewrite (Z.min_comm (n - k) k).
  destruct (Z.ltb_spec k 0); destruct (Z.ltb_spec n k);
    destruct (Z.ltb_spec (n - k) 0); destruct (Z.ltb_spec n (n - k));
    cbn [orb]; try reflexivity; lia.
Qed.

Lemma Spec_combination_0 (a : Z) :
  (0 <= a)%Z -> Spec.combination (ofZ a) (ofZ 0) = one.
Proof.
  intros H. unfold Spec.combination, ofZ. rewrite !Qfloor_Z. cbv zeta.
  rewrite Z.gtb_ltb. destruct (Z.ltb_spec a 0); [lia |].
  cbn [Z.ltb orb]. rewrite Z.min_l by lia. reflexivity.
Qed.

(** [C(36 + l, l)] is not zero. *)
Lemma denominator_positive (zl : Z) :
  (0 <= zl)%Z ->
  exists v, val_is (Spec.combination (ofZ (36 + zl)) (ofZ zl)) v /\ ~ v == 0.
Proof.
  intros H. destruct (Spec_combination_val (36 + zl) zl) as [v [Hv Hf]];
    [lia |].
  exists v. split; [exact Hv |]. intros E. rewrite E in Hf.
  pose proof (factQ_pos (Z.to_nat (36 + zl))). lra.
Qed.

(** ** Claims about the no-keep policy *)

Lemma Some_inj {A : Type} (a b : A) : Some a = Some b -> a = b.
Proof. intros H. now injection H. Qed.

Lemma denominator_not_zero (fuel : nat) (z : Z) :
  (0 <= z <= 40)%Z -> (41 <= fuel)%nat ->
  combination fuel (add (ofZ 36) (ofZ z)) (ofZ z) <> Some zero.
Proof.
  intros Hz Hfuel H. rewrite add_ofZ, combination_ofZ in H by lia.
  apply Some_inj in H.
  destruct (denominator_positive z ltac:(lia)) as [v [Hv Hne]].
  rewrite H in Hv. apply Hne. symmetry. exact Hv.
Qed.

(** The denominator [combination(36 + l, l)] of the no-keep policy is 0
    only for a NaN mulligan count. *)
Lemma noKeep_denominator (fuel : nat) (l : number) :
  (41 <= fuel)%nat ->
  combination fuel (add (ofZ 36) (floorClamp l 40)) (floorClamp l 40) =
  Some zero <-> l = NaN.
Proof.
  intros Hfuel. split; [| intros ->; reflexivity].
  intros H.
  assert (D : l = NaN \/ l <> NaN)
    by (destruct l; [left; reflexivity | right; discriminate ..]).
  destruct D as [D | D]; [exact D | exfalso].
  rewrite floorClamp_input in H by lia.
  destruct (input_range l 40 ltac:(lia) D) as [E R]. rewrite E in H.
  revert R H. generalize (clampZ l 40). intros z R H.
  exact (denominator_not_zero fuel z R Hfuel H).
Qed.

Lemma noKeep_NaN_mulligan (fuel : nat) (n m : number) :
  (42 <= fuel)%nat -> n <> NaN ->
  probabilityAtLeastOne fuel noKeep NaN n m = Some one.
Proof.
  intros Hfuel Hn. rewrite noKeep_formula by exact Hfuel. f_equal.
  unfold NoKeepSpec.atLeastOne.
  change (floorClamp NaN 40) with NaN.
  assert (HS : NoKeepSpec.missSum (floorClamp n 40) NaN = zero).
  { unfold NoKeepSpec.missSum. now rewrite min_NaN_l. }
  rewrite HS. unfold NoKeepSpec.Q_m.
  rewrite (floorClamp_ofZ n 40) by (lia || exact Hn).
  rewrite mul_zero_r by (apply Spec_zeroHitRatio_finite; lia).
  reflexivity.
Qed.

(** C3, as amended.  Under the no-keep policy the general model returns
    1 - Q_m * (sum over k = 0..min(l',n') of P_l(k) * Q_l(k)) clamped to
    [0,1], with Q_m = zeroHitRatio(36,n',m'), Q_l(k) = zeroHitRatio(36,n'-k,l')
    and P_l(k) = combination(n',k) * combination(36+l'-n', l'-k) /
    combination(36+l', l'), taken to be 0 when that denominator is 0; n', l',
    m' are the arguments floored and clamped to [0,40], integers of [0,40]
    for arguments that are not NaN and NaN for a NaN argument.  The
    denominator the program computes, combination(36+l, l) on its own
    clamped l, is 0 exactly when l is NaN; the result is then 1 provided the
    target count is not NaN. *)
Theorem noKeep_policy_formula (fuel : nat) (l n m : number) :
  (42 <= fuel)%nat ->
  probabilityAtLeastOne fuel noKeep l n m =
  Some (ClampSpec.toUnit
          (sub one
             (mul (NoKeepSpec.Q_m (ClampSpec.input n 40) (ClampSpec.input m 40))
                  (NoKeepSpec.missSum (ClampSpec.input n 40)
                     (ClampSpec.input l 40))))) /\
  (forall x, x <> NaN ->
     ClampSpec.input x 40 = ofZ (clampZ x 40) /\ (0 <= clampZ x 40 <= 40)%Z) /\
  (combination fuel (add (ofZ 36) (floorClamp l 40)) (floorClamp l 40) =
   Some zero <-> l = NaN) /\
  (forall n0 m0, n0 <> NaN ->
     probabilityAtLeastOne fuel noKeep NaN n0 m0 = Some one).
Proof.
  intros Hfuel. split; [| split; [| split]].
  - rewrite noKeep_formula by exact Hfuel. unfold NoKeepSpec.atLeastOne.
    now rewrite clamp_toUnit, !floorClamp_input by lia.
  - intros x Hx. apply input_range; [lia | exact Hx].
  - apply noKeep_denominator. lia.
  - intros n0 m0 Hn. now apply noKeep_NaN_mulligan.
Qed.

Lemma noKeep_policy_formula_witness :
  probabilityAtLeastOne 42 noKeep (ofZ 2) (ofZ 3) (ofZ 9) =
  Some (ClampSpec.toUnit
          (sub one
             (mul (NoKeepSpec.Q_m (ClampSpec.input (ofZ 3) 40)
                     (ClampSpec.input (ofZ 9) 40))
                  (NoKeepSpec.missSum (ClampSpec.input (ofZ 3) 40)
                     (ClampSpec.input (ofZ 2) 40))))) /\
  (forall x, x <> NaN ->
     ClampSpec.input x 40 = ofZ (clampZ x 40) /\ (0 <= clampZ x 40 <= 40)%Z) /\
  (combination 42 (add (ofZ 36) (floorClamp (ofZ 2) 40))
     (floorClamp (ofZ 2) 40) =
   Some zero <-> ofZ 2 = NaN) /\
  (forall n0 m0, n0 <> NaN ->
     probabilityAtLeastOne 42 noKeep NaN n0 m0 = Some one).
Proof.
  apply (noKeep_policy_formula 42 (ofZ 2) (ofZ 3) (ofZ 9)). lia.
Defined.

(** C3, as stated, fails: with l and n both NaN the denominator
    combination(36+l, l) is 0 and the sum is 0, but Q_m is NaN and so is
    the result. *)
Lemma noKeep_degenerate_counterexample :
  strict_eq
    (Spec.combination (add (ofZ 36) (floorClamp NaN 40)) (floorClamp NaN 40))
    zero = true /\
  combination 42 (add (ofZ 36) (floorClamp NaN 40)) (floorClamp NaN 40) =
  Some zero /\
  probabilityAtLeastOne 42 noKeep NaN NaN (ofZ 1) = Some NaN.
Proof.
  repeat split; reflexivity.
Qed.

(** ** The probability models at the ends of the ranges *)

Lemma Spec_zeroHitRatio_no_targets (total d : number) :
  Spec.zeroHitRatio total (ofZ 0) d = one.
Proof.
  unfold Spec.zeroHitRatio. destruct (leb d zero); reflexivity.
Qed.

Lemma Spec_zeroHitRatio_no_draws (total t : number) :
  Spec.zeroHitRatio total t (ofZ 0) = one.
Proof. reflexivity. Qed.

Lemma Spec_zeroHitRatio_zero (T t d : Z) :
  (1 <= T)%Z -> (1 <= t)%Z -> (1 <= d)%Z -> (T - t < d)%Z ->
  Spec.zeroHitRatio (ofZ T) (ofZ t) (ofZ d) = zero.
Proof.
  intros HT Ht Hd Hs.
  pose proof (Spec_zeroHitRatio_val T t d) as Hv.
  pose proof (reduced_Spec_zeroHitRatio (ofZ T) (ofZ t) (ofZ d)) as Hr.
  rewrite missValue_zero in Hv by assumption.
  destruct (Spec.zeroHitRatio (ofZ T) (ofZ t) (ofZ d)) as [| | | v];
    try contradiction.
  cbn [val_is reduced] in *. unfold zero, ofZ. f_equal.
  rewrite <- Hr. change (inject_Z 0) with (Qred 0). now apply Qred_complete.
Qed.

Lemma clampZ_nonpos (x : number) (hi : Z) :
  (0 <= hi)%Z -> leb x zero = true -> clampZ x hi = 0%Z.
Proof.
  intros Hhi H. destruct x as [| | | q]; cbn [leb zero ofZ] in H;
    try discriminate; cbn [clampZ]; [reflexivity |].
  apply Qle_bool_iff in H.
  assert (Hf : inject_Z (Qfloor q) <= inject_Z 0).
  { apply Qle_trans with q; [apply Qfloor_le | exact H]. }
  rewrite <- Zle_Qle in Hf. lia.
Qed.

Lemma floorClamp_nonpos (x : number) (hi : Z) :
  (0 <= hi)%Z -> leb x zero = true -> floorClamp x hi = ofZ 0.
Proof.
  intros Hhi H. destruct (leb_not_NaN _ _ H) as [Hx _].
  now rewrite floorClamp_ofZ, clampZ_nonpos.
Qed.

Lemma clampZ_at_least (x : number) (lo hi : Z) :
  (0 <= lo <= hi)%Z -> leb (ofZ lo) x = true -> (lo <= clampZ x hi)%Z.
Proof.
  intros Hlo H. destruct x as [| | | q]; cbn [leb ofZ] in H;
    try discriminate; cbn [clampZ]; [lia |].
  apply Qle_bool_iff in H. apply Qfloor_resp_le in H.
  rewrite Qfloor_Z in H. lia.
Qed.

Lemma reduced_Spec_combination (n k : number) :
  reduced (Spec.combination n k).
Proof.
  unfold Spec.combination.
  destruct n as [| | | p]; [reflexivity .. |].
  destruct k as [| | | q]; [reflexivity .. |].
  cbv zeta.
  repeat match goal with
         | |- context [if ?c then _ else _] => destruct c
         end; try reflexivity.
  apply (reduced_fold_mul
           (fun i =>
              div (ofZ (Qfloor p - Z.min (Qfloor q) (Qfloor p - Qfloor q) + i))
                  (ofZ i))).
  reflexivity.
Qed.

Lemma div_self (x : number) (v : Q) :
  val_is x v -> ~ v == 0 -> div x x = one.
Proof.
  destruct x as [| | | w]; cbn [val_is]; try contradiction.
  intros Hw Hv. cbn [div].
  destruct (Qeq_bool w 0) eqn:E.
  - apply Qeq_bool_eq in E. exfalso. apply Hv. now rewrite <- Hw.
  - apply fin_eq_ofZ. change (inject_Z 1) with 1. field.
    intros C. apply Hv. now rewrite <- Hw.
Qed.

Lemma strict_eq_zero_false (x : number) (v : Q) :
  val_is x v -> ~ v == 0 -> strict_eq x zero = false.
Proof.
  destruct x as [| | | w]; cbn [val_is]; try contradiction.
  intros Hw Hv. cbn [strict_eq zero ofZ].
  apply not_true_iff_false. intros E. apply Qeq_bool_eq in E.
  apply Hv. rewrite <- Hw. exact E.
Qed.

(** Without targets the no-keep sum is 1. *)
Lemma missSum_no_targets (zl : Z) :
  (0 <= zl)%Z -> NoKeepSpec.missSum (ofZ 0) (ofZ zl) = one.
Proof.
  intros H. unfold NoKeepSpec.missSum. rewrite min_ofZ, Z.min_r by lia.
  change (NoKeepSpec.upTo (ofZ 0)) with [0%Z]. cbn [fold_left].
  unfold NoKeepSpec.P_l, NoKeepSpec.Q_l. cbv zeta.
  rewrite add_ofZ, !sub_ofZ, Z.sub_0_r, Z.sub_0_r.
  change (0 - 0)%Z with 0%Z. rewrite Spec_zeroHitRatio_no_targets.
  destruct (denominator_positive zl H) as [v [Hv Hne]].
  rewrite (strict_eq_zero_false _ _ Hv Hne).
  change (Spec.combination (ofZ 0) (ofZ 0)) with one.
  rewrite mul_one_l;
    [| eapply val_is_finite; exact Hv | apply reduced_Spec_combination].
  rewrite (div_self _ _ Hv Hne). reflexivity.
Qed.

(** X4.  With no target in the deck (n <= 0) the keep policy and the
    restricted keep-only model return 0 for every l and m, and the no-keep
    policy returns 0 as soon as l is not NaN. *)
Theorem no_targets_no_hit (fuel : nat) (l n m : number) :
  (42 <= fuel)%nat -> leb n zero = true ->
  probabilityAtLeastOne fuel keep l n m = Some zero /\
  probabilityAtLeastOneKeep fuel n l m = Some zero /\
  (l <> NaN -> probabilityAtLeastOne fuel noKeep l n m = Some zero).
Proof.
  intros Hfuel Hn. repeat split.
  - rewrite keep_computes by lia.
    rewrite (floorClamp_nonpos n 40) by (lia || exact Hn).
    now rewrite !Spec_zeroHitRatio_no_targets.
  - rewrite restricted_keep_computes by lia.
    rewrite (floorClamp_nonpos n 40) by (lia || exact Hn).
    now rewrite !Spec_zeroHitRatio_no_targets.
  - intros Hl. rewrite noKeep_formula by exact Hfuel.
    rewrite (floorClamp_nonpos n 40) by (lia || exact Hn).
    rewrite (floorClamp_ofZ l 40) by (lia || exact Hl).
    unfold NoKeepSpec.atLeastOne, NoKeepSpec.Q_m.
    rewrite Spec_zeroHitRatio_no_targets, missSum_no_targets;
      [reflexivity | apply clampZ_range; lia].
Qed.

Lemma no_targets_no_hit_witness :
  probabilityAtLeastOne 42 keep (ofZ 4) (ofZ 0) (ofZ 40) = Some zero /\
  probabilityAtLeastOneKeep 42 (ofZ 0) (ofZ 4) (ofZ 40) = Some zero /\
  (ofZ 4 <> NaN ->
   probabilityAtLeastOne 42 noKeep (ofZ 4) (ofZ 0) (ofZ 40) = Some zero).
Proof.
  apply no_targets_no_hit; [lia | reflexivity].
Defined.

(** X5.  With 37 targets or more the keep policy returns 1 for every l and m:
    the four kept cards cannot all miss. *)
Theorem keep_certain_from_37_targets (fuel : nat) (l n m : number) :
  (42 <= fuel)%nat -> leb (ofZ 37) n = true ->
  probabilityAtLeastOne fuel keep l n m = Some one.
Proof.
  intros Hfuel Hn. destruct (leb_not_NaN _ _ Hn) as [_ Nn].
  rewrite keep_computes by lia.
  rewrite (floorClamp_ofZ n 40) by (lia || exact Nn).
  pose proof (clampZ_at_least n 37 40 ltac:(lia) Hn).
  pose proof (clampZ_range n 40 ltac:(lia)).
  rewrite (Spec_zeroHitRatio_zero 40 (clampZ n 40) 4) by lia.
  rewrite mul_zero_l by (apply Spec_zeroHitRatio_finite; lia).
  rewrite mul_zero_l by (apply Spec_zeroHitRatio_finite; lia).
  reflexivity.
Qed.

Lemma keep_certain_from_37_targets_witness :
  probabilityAtLeastOne 42 keep (ofZ 0) (ofZ 37) (ofZ 0) = Some one.
Proof.
  apply keep_certain_from_37_targets; [lia | reflexivity].
Defined.

(** Without a mulligan the no-keep sum is 1 up to 36 targets and 0 above. *)
Lemma missSum_no_mulligan (zn : Z) :
  (0 <= zn <= 40)%Z ->
  NoKeepSpec.missSum (ofZ zn) (ofZ 0) = if (zn <=? 36)%Z then one else zero.
Proof.
  intros H. unfold NoKeepSpec.missSum. rewrite min_ofZ, Z.min_l by lia.
  change (NoKeepSpec.upTo (ofZ 0)) with [0%Z]. cbn [fold_left].
  unfold NoKeepSpec.P_l, NoKeepSpec.Q_l. cbv zeta.
  rewrite Spec_zeroHitRatio_no_draws.
  rewrite add_ofZ, !sub_ofZ. change (0 - 0)%Z with 0%Z.
  change (Spec.combination (ofZ (36 + 0)) (ofZ 0)) with one.
  change (strict_eq one zero) with false. cbv iota.
  rewrite (Spec_combination_0 zn) by lia.
  destruct (Z.leb_spec zn 36).
  - rewrite (Spec_combination_0 (36 + 0 - zn)) by lia. reflexivity.
  - rewrite (Spec_combination_outside (36 + 0 - zn) 0) by lia. reflexivity.
Qed.

(** X6.  With no card redrawn (l <= 0) and fewer than 37 targets, the no-keep
    policy returns what the restricted keep-only model returns, and that is
    1 - z for z the result of [zeroHitHypergeometricRatio] on 36 cards, the
    clamped n and the clamped m. *)
Theorem noKeep_without_mulligan (fuel : nat) (l n m : number) :
  (42 <= fuel)%nat -> leb l zero = true -> ltb n (ofZ 37) = true ->
  probabilityAtLeastOne fuel noKeep l n m =
  probabilityAtLeastOneKeep fuel n l m /\
  exists z,
    zeroHitHypergeometricRatio fuel (ofZ 36) (floorClamp n 40)
      (floorClamp m 40) = Some z /\
    probabilityAtLeastOneKeep fuel n l m = Some (sub one z).
Proof.
  intros Hfuel Hl Hn.
  assert (Nn : n <> NaN) by (intros ->; discriminate Hn).
  pose proof (ltb_37_clampZ n Hn) as H36.
  pose proof (clampZ_range n 40 ltac:(lia)) as Hr.
  assert (Hkeep : probabilityAtLeastOneKeep fuel n l m =
    Some (sub one (Spec.zeroHitRatio (ofZ 36) (floorClamp n 40)
                     (floorClamp m 40)))).
  { rewrite restricted_keep_computes by lia. f_equal.
    rewrite (floorClamp_nonpos l 4) by (lia || exact Hl).
    rewrite Spec_zeroHitRatio_no_draws.
    rewrite (floorClamp_ofZ n 40) by (lia || exact Nn).
    destruct (Spec_zeroHitRatio_unit 36 (clampZ n 40) m 40)
      as [v [Ev [H0 [H1 Hv]]]]; [lia |].
    rewrite Ev. rewrite mul_one_l by (reflexivity || exact Hv).
    cbn [sub one ofZ]. apply clamp_unit; change (inject_Z 1) with 1; lra. }
  split;
    [| eexists; split;
       [apply zeroHit_clamped_draws; lia | exact Hkeep]].
  rewrite Hkeep, noKeep_formula by exact Hfuel. f_equal.
  unfold NoKeepSpec.atLeastOne, NoKeepSpec.Q_m.
  rewrite (floorClamp_nonpos l 40) by (lia || exact Hl).
  rewrite (floorClamp_ofZ n 40) by (lia || exact Nn).
  rewrite missSum_no_mulligan by lia.
  destruct (Z.leb_spec (clampZ n 40) 36); [| lia].
  destruct (Spec_zeroHitRatio_unit 36 (clampZ n 40) m 40)
    as [v [Ev [H0 [H1 Hv]]]]; [lia |].
  rewrite Ev. rewrite mul_one_r by (reflexivity || exact Hv).
  cbn [sub one ofZ]. apply clamp_unit; change (inject_Z 1) with 1; lra.
Qed.

Lemma noKeep_without_mulligan_witness :
  probabilityAtLeastOne 42 noKeep (ofZ 0) (ofZ 20) (ofZ 9) =
  probabilityAtLeastOneKeep 42 (ofZ 20) (ofZ 0) (ofZ 9) /\
  exists z,
    zeroHitHypergeometricRatio 42 (ofZ 36) (floorClamp (ofZ 20) 40)
      (floorClamp (ofZ 9) 40) = Some z /\
    probabilityAtLeastOneKeep 42 (ofZ 20) (ofZ 0) (ofZ 9) = Some (sub one z).
Proof.
  apply noKeep_without_mulligan; [lia | reflexivity | reflexivity].
Defined.

(** X7.  With no card redrawn (l <= 0) and 37 targets or more, the no-keep
    policy returns 1 for every m, whereas the restricted keep-only model
    returns 0 when m <= 0: from 37 targets on the two no longer agree. *)
Theorem noKeep_certain_from_37_targets (fuel : nat) (l n m : number) :
  (42 <= fuel)%nat -> leb l zero = true -> leb (ofZ 37) n = true ->
  probabilityAtLeastOne fuel noKeep l n m = Some one /\
  (leb m zero = true -> probabilityAtLeastOneKeep fuel n l m = Some zero).
Proof.
  intros Hfuel Hl Hn. destruct (leb_not_NaN _ _ Hn) as [_ Nn].
  pose proof (clampZ_at_least n 37 40 ltac:(lia) Hn).
  pose proof (clampZ_range n 40 ltac:(lia)).
  split.
  - rewrite noKeep_formula by exact Hfuel. f_equal.
    unfold NoKeepSpec.atLeastOne, NoKeepSpec.Q_m.
    rewrite (floorClamp_nonpos l 40) by (lia || exact Hl).
    rewrite (floorClamp_ofZ n 40) by (lia || exact Nn).
    rewrite missSum_no_mulligan by lia.
    destruct (Z.leb_spec (clampZ n 40) 36); [lia |].
    rewrite mul_zero_r by (apply Spec_zeroHitRatio_finite; lia).
    reflexivity.
  - intros Hm. rewrite restricted_keep_computes by lia.
    rewrite (floorClamp_nonpos l 4) by (lia || exact Hl).
    rewrite (floorClamp_nonpos m 40) by (lia || exact Hm).
    now rewrite !Spec_zeroHitRatio_no_draws.
Qed.

Lemma noKeep_certain_from_37_targets_witness :
  probabilityAtLeastOne 42 noKeep (ofZ 0) (ofZ 38) (ofZ 0) = Some one /\
  (leb (ofZ 0) zero = true ->
   probabilityAtLeastOneKeep 42 (ofZ 38) (ofZ 0) (ofZ 0) = Some zero).
Proof.
  apply noKeep_certain_from_37_targets; [lia | reflexivity | reflexivity].
Defined.

(** ** The two keep models against each other *)

Lemma clampZ_below_5 (l : number) :
  ltb l (ofZ 5) = true -> clampZ l 40 = clampZ l 4.
Proof.
  destruct l as [| | | q]; cbn [ltb ofZ clampZ]; try discriminate;
    try reflexivity.
  intros H. apply negb_true_iff in H. apply not_true_iff_false in H.
  rewrite Qle_bool_iff in H. apply Qnot_le_lt in H.
  assert (Hf : inject_Z (Qfloor q) < inject_Z 5).
  { apply Qle_lt_trans with q; [apply Qfloor_le | exact H]. }
  rewrite <- Zlt_Qlt in Hf. lia.
Qed.

Lemma prod2_unit (a b : Q) :
  0 <= a -> a <= 1 -> 0 <= b -> b <= 1 -> 0 <= a * b /\ a * b <= 1.
Proof. intros. split; nra. Qed.

(** X8.  For l below 5 and a target count that is not NaN, the restricted
    keep-only model never exceeds the keep policy of the general model. *)
Theorem restricted_at_most_keep (fuel : nat) (l n m : number) :
  (42 <= fuel)%nat -> n <> NaN -> ltb l (ofZ 5) = true ->
  le_result (probabilityAtLeastOneKeep fuel n l m)
            (probabilityAtLeastOne fuel keep l n m).
Proof.
  intros Hfuel Nn Hl.
  assert (Nl : l <> NaN) by (intros ->; discriminate Hl).
  pose proof (keep_miss_val l n m Nn) as Hk.
  pose proof (restricted_miss_val n l m Nn) as Hr.
  assert (El : floorClamp l 40 = floorClamp l 4).
  { rewrite !floorClamp_ofZ by (lia || exact Nl).
    now rewrite clampZ_below_5. }
  rewrite El in Hk.
  rewrite keep_computes, restricted_keep_computes by lia. rewrite El.
  cbn [le_result]. eapply complement_leb; [exact Hr | exact Hk |].
  destruct (missValue_bounds 40 (clampZ n 40) 4) as [A0 A1].
  destruct (drawsValue_bounds 36 (clampZ n 40) (floorClamp l 4)) as [B0 B1].
  destruct (drawsValue_bounds 36 (clampZ n 40) (floorClamp m 40)) as [C0 C1].
  destruct (prod2_unit _ _ B0 B1 C0 C1) as [BC0 BC1].
  rewrite <- Qmult_assoc.
  rewrite <- (Qmult_1_l (drawsValue 36 (clampZ n 40) (floorClamp l 4) *
                         drawsValue 36 (clampZ n 40) (floorClamp m 40))) at 2.
  apply Qmult_le_compat_r; assumption.
Qed.

Lemma restricted_at_most_keep_witness :
  le_result (probabilityAtLeastOneKeep 42 (ofZ 3) (ofZ 4) (ofZ 9))
            (probabilityAtLeastOne 42 keep (ofZ 4) (ofZ 3) (ofZ 9)).
Proof.
  apply restricted_at_most_keep; [lia | discriminate | reflexivity].
Defined.

(** ** [clamp] *)

Ltac destruct_ifs :=
  repeat match goal with
         | |- context [if ?c then _ else _] => destruct c eqn:?
         | H : context [if ?c then _ else _] |- _ => destruct c eqn:?
         end.

(** X9.  [clamp] returns NaN exactly when one of its three arguments is
    NaN. *)
Theorem clamp_NaN_iff (value lo hi : number) :
  clamp value lo hi = NaN <-> value = NaN \/ lo = NaN \/ hi = NaN.
Proof.
  unfold clamp, max, min.
  destruct value, lo, hi; cbn [leb]; destruct_ifs;
    split; intros H; try discriminate H; auto;
    destruct H as [H | [H | H]]; discriminate H.
Qed.

Lemma val_is_clamp (v lo hi : number) (a b c : Q) :
  val_is v a -> val_is lo b -> val_is hi c ->
  val_is (clamp v lo hi) (clampQ3 a b c).
Proof.
  destruct v as [| | | v], lo as [| | | lo], hi as [| | | hi];
    cbn [val_is]; try contradiction.
  intros Ha Hb Hc. unfold clamp, min, max, clampQ3. cbn [leb].
  assert (E1 : Qle_bool hi v = Qle_bool c a) by (now rewrite Ha, Hc).
  assert (E2 : Qle_bool lo hi = Qle_bool b c) by (now rewrite Hb, Hc).
  assert (E3 : Qle_bool lo v = Qle_bool b a) by (now rewrite Ha, Hb).
  rewrite E1. destruct (Qle_bool c a); cbn [leb].
  - rewrite E2. destruct (Qle_bool b c); cbn [val_is]; assumption.
  - rewrite E3. destruct (Qle_bool b a); cbn [val_is]; assumption.
Qed.

Lemma clampQ3_range (a b c : Q) :
  b <= c -> b <= clampQ3 a b c /\ clampQ3 a b c <= c.
Proof.
  intros H. unfold clampQ3. cbv zeta.
  repeat match goal with
         | |- context [Qle_bool c ?y] => destruct (Qle_bool c y) eqn:?
         end;
    repeat match goal with
           | |- context [Qle_bool ?x ?y] => destruct (Qle_bool x y) eqn:?
           end;
    Qle_bool_to_Prop; lra.
Qed.

Lemma clampQ3_inside (a b c : Q) :
  b <= a -> a <= c -> clampQ3 a b c == a.
Proof.
  intros H1 H2. unfold clampQ3. cbv zeta.
  repeat match goal with
         | |- context [Qle_bool c ?y] => destruct (Qle_bool c y) eqn:?
         end;
    repeat match goal with
           | |- context [Qle_bool ?x ?y] => destruct (Qle_bool x y) eqn:?
           end;
    Qle_bool_to_Prop; lra.
Qed.

Lemma clampQ3_mono (a a' b c : Q) :
  a <= a' -> clampQ3 a b c <= clampQ3 a' b c.
Proof.
  intros H. unfold clampQ3. cbv zeta.
  repeat match goal with
         | |- context [Qle_bool c ?y] => destruct (Qle_bool c y) eqn:?
         end;
    repeat match goal with
           | |- context [Qle_bool ?x ?y] => destruct (Qle_bool x y) eqn:?
           end;
    Qle_bool_to_Prop; lra.
Qed.

(** X10.  For a value that is not NaN and bounds lo <= hi, the result of [clamp]
    lies between lo and hi, and is the value itself when the value is already
    between them. *)
Theorem clamp_within_bounds (value lo hi : number) :
  value <> NaN -> leb lo hi = true ->
  leb lo (clamp value lo hi) = true /\
  leb (clamp value lo hi) hi = true /\
  (leb lo value = true -> leb value hi = true ->
   strict_eq (clamp value lo hi) value = true).
Proof.
  intros Hv Hb. unfold clamp, min, max.
  destruct value as [| | | v]; [contradiction | | |];
    destruct lo as [| | | lo], hi as [| | | hi]; cbn [leb] in *;
    try discriminate Hb;
    repeat match goal with
           | |- context [Qle_bool ?x ?y] =>
               lazymatch goal with
               | H : Qle_bool x y = _ |- _ => rewrite H
               | _ => destruct (Qle_bool x y) eqn:?
               end; cbn [leb strict_eq]
           end;
    Qle_bool_to_Prop;
    repeat split; intros;
    repeat match goal with
           | |- Qle_bool _ _ = true => apply Qle_bool_iff
           | |- Qeq_bool _ _ = true => apply Qeq_bool_iff
           | H : true = false |- _ => discriminate H
           | H : false = true |- _ => discriminate H
           | H : Qle_bool _ _ = true |- _ => apply Qle_bool_iff in H
           end;
    try reflexivity; try lra; try discriminate;
    cbn [strict_eq]; apply Qeq_bool_iff; reflexivity.
Qed.

(** X11.  With inverted bounds (hi < lo) [clamp] returns lo, whatever the value
    (NaN apart). *)
Theorem clamp_inverted_bounds (value lo hi : number) :
  value <> NaN -> ltb hi lo = true -> clamp value lo hi = lo.
Proof.
  intros Hv Hb. unfold clamp, min, max.
  destruct value as [| | | v]; [contradiction | | |];
    destruct lo as [| | | lo], hi as [| | | hi]; cbn [ltb leb] in *;
    try discriminate Hb; try reflexivity;
    try (apply negb_true_iff in Hb);
    repeat match goal with
           | |- context [Qle_bool ?x ?y] =>
               lazymatch goal with
               | H : Qle_bool x y = _ |- _ => rewrite H
               | _ => destruct (Qle_bool x y) eqn:?
               end; cbn [leb]
           end;
    try reflexivity; Qle_bool_to_Prop; exfalso; lra.
Qed.

Lemma clamp_inverted_bounds_witness :
  clamp (ofZ 7) (ofZ 10) (ofZ 5) = ofZ 10.
Proof.
  apply clamp_inverted_bounds; [discriminate | reflexivity].
Defined.

Lemma clamp_within_bounds_witness :
  leb (ofZ 0) (clamp (ofZ 50) (ofZ 0) (ofZ 40)) = true /\
  leb (clamp (ofZ 50) (ofZ 0) (ofZ 40)) (ofZ 40) = true /\
  (leb (ofZ 0) (ofZ 50) = true -> leb (ofZ 50) (ofZ 40) = true ->
   strict_eq (clamp (ofZ 50) (ofZ 0) (ofZ 40)) (ofZ 50) = true).
Proof.
  apply clamp_within_bounds; [discriminate | reflexivity].
Defined.

(** ** The range slider *)

Lemma val_is_Fin (q : Q) : val_is (Fin q) q.
Proof. cbn [val_is]. reflexivity. Qed.

Lemma moderate_finite (x : number) : moderate x = true -> isFinite x = true.
Proof.
  unfold moderate. destruct x as [| | | q]; cbn [leb ofZ andb isFinite];
    intros H; try discriminate H; reflexivity.
Qed.

Lemma isFinite_Fin (x : number) :
  isFinite x = true -> exists q, x = Fin q.
Proof. destruct x as [| | | q]; try discriminate. intros _. now exists q. Qed.

Lemma val_is_round (x : number) (q : Q) :
  val_is x q -> val_is (round x) (inject_Z (Qfloor (q + (1 # 2)))).
Proof.
  destruct x as [| | | p]; cbn [val_is]; try contradiction.
  intros H. unfold round, ofZ. cbn [val_is]. now rewrite H.
Qed.

Lemma strict_eq_val (x y : number) (p q : Q) :
  val_is x p -> val_is y q -> strict_eq x y = Qeq_bool p q.
Proof.
  destruct x as [| | | a], y as [| | | b]; cbn [val_is]; try contradiction.
  intros Ha Hb. cbn [strict_eq].
  destruct (Qeq_bool a b) eqn:E1, (Qeq_bool p q) eqn:E2; try reflexivity.
  - apply Qeq_bool_iff in E1. apply Qeq_bool_neq in E2. exfalso. apply E2.
    now rewrite <- Ha, <- Hb.
  - apply Qeq_bool_iff in E2. apply Qeq_bool_neq in E1. exfalso. apply E1.
    now rewrite Ha, Hb.
Qed.

Lemma strict_eq_of_val (x y : number) (p q : Q) :
  val_is x p -> val_is y q -> p == q -> strict_eq x y = true.
Proof.
  intros Hx Hy H. rewrite (strict_eq_val _ _ _ _ Hx Hy).
  now apply Qeq_bool_iff.
Qed.

Lemma leb_of_val (x y : number) (p q : Q) :
  val_is x p -> val_is y q -> p <= q -> leb x y = true.
Proof.
  intros Hx Hy H. rewrite (val_is_leb _ _ _ _ Hx Hy).
  now apply Qle_bool_iff.
Qed.

Lemma Qfloor_unique (x : Q) (z : Z) :
  inject_Z z <= x -> x < inject_Z (z + 1) -> Qfloor x = z.
Proof.
  intros H1 H2.
  assert (A : (z <= Qfloor x)%Z).
  { apply Qfloor_resp_le in H1. now rewrite Qfloor_Z in H1. }
  assert (B : (Qfloor x < z + 1)%Z).
  { rewrite Zlt_Qlt. apply Qle_lt_trans with x; [apply Qfloor_le | exact H2]. }
  lia.
Qed.

Lemma quantize_val (b c s a : Q) :
  ~ s == 0 ->
  val_is (DualRangeSlider.quantize (Fin b) (Fin c) (Fin s) (Fin a))
         (clampQ3 (snapQ b s a) b c).
Proof.
  intros Hs. unfold DualRangeSlider.quantize. cbv zeta.
  apply val_is_clamp; try apply val_is_Fin. unfold snapQ.
  apply val_is_add; [| apply val_is_Fin].
  apply val_is_mul; [| apply val_is_Fin].
  apply val_is_round. apply val_is_div; try apply val_is_Fin.
  - apply val_is_sub; apply val_is_Fin.
  - exact Hs.
Qed.

Lemma snapQ_near (b s a : Q) :
  0 < s -> a - s / 2 <= snapQ b s a /\ snapQ b s a <= a + s / 2.
Proof.
  intros Hs. unfold snapQ.
  set (u := (a - b) / s).
  set (k := inject_Z (Qfloor (u + (1 # 2)))).
  assert (Hu : u * s == a - b) by (unfold u; field; lra).
  assert (K1 : k <= u + (1 # 2)) by apply Qfloor_le.
  assert (K2 : u + (1 # 2) < k + 1).
  { unfold k. pose proof (Qlt_floor (u + (1 # 2))) as H.
    rewrite inject_Z_plus in H. exact H. }
  assert (M1 : k * s <= (u + (1 # 2)) * s)
    by (apply Qmult_le_compat_r; lra).
  assert (M2 : (u + (1 # 2)) * s <= (k + 1) * s)
    by (apply Qmult_le_compat_r; lra).
  assert (E1 : (u + (1 # 2)) * s == a - b + s / 2).
  { rewrite <- Hu. field. }
  assert (E2 : (k + 1) * s == k * s + s) by ring.
  split; lra.
Qed.

Lemma snapQ_grid (b s : Q) (k : Z) :
  ~ s == 0 -> snapQ b s (inject_Z k * s + b) == inject_Z k * s + b.
Proof.
  intros Hs. unfold snapQ.
  assert (E : (inject_Z k * s + b - b) / s + (1 # 2) == inject_Z k + (1 # 2))
    by (field; exact Hs).
  rewrite E. rewrite (Qfloor_unique (inject_Z k + (1 # 2)) k).
  - reflexivity.
  - lra.
  - rewrite inject_Z_plus. change (inject_Z 1) with 1. lra.
Qed.

Lemma snapQ_comp (b s a a' : Q) : a == a' -> snapQ b s a == snapQ b s a'.
Proof.
  intros H. unfold snapQ.
  assert (F : Qfloor ((a - b) / s + (1 # 2)) =
              Qfloor ((a' - b) / s + (1 # 2))).
  { apply Qfloor_comp. now rewrite H. }
  now rewrite F.
Qed.

Lemma clampQ3_comp (a a' b c : Q) :
  a == a' -> clampQ3 a b c == clampQ3 a' b c.
Proof.
  intros H. apply Qle_antisym; apply clampQ3_mono; rewrite H; apply Qle_refl.
Qed.

Lemma not_strict_eq_zero (s : Q) :
  strict_eq (Fin s) zero = false -> ~ s == 0.
Proof.
  cbn [strict_eq zero ofZ]. intros H E.
  apply Qeq_bool_neq in H. apply H. exact E.
Qed.

(** X12.  For finite props with min <= max and a step that is not 0, [quantize]
    maps every finite value into [min, max]. *)
Theorem quantize_within_range (min max step value : number) :
  isFinite min = true -> isFinite max = true -> isFinite step = true ->
  isFinite value = true -> strict_eq step zero = false ->
  leb min max = true ->
  leb min (DualRangeSlider.quantize min max step value) = true /\
  leb (DualRangeSlider.quantize min max step value) max = true.
Proof.
  intros Fm FM Fs Fv Hs Hle.
  destruct (isFinite_Fin _ Fm) as [b ->]. destruct (isFinite_Fin _ FM) as [c ->].
  destruct (isFinite_Fin _ Fs) as [s ->]. destruct (isFinite_Fin _ Fv) as [a ->].
  pose proof (quantize_val b c s a (not_strict_eq_zero s Hs)) as Hq.
  cbn [leb] in Hle. apply Qle_bool_iff in Hle.
  destruct (clampQ3_range (snapQ b s a) b c Hle).
  split.
  - eapply leb_of_val; [apply val_is_Fin | exact Hq | assumption].
  - eapply leb_of_val; [exact Hq | apply val_is_Fin | assumption].
Qed.

Lemma quantize_within_range_witness :
  leb (ofZ 0) (DualRangeSlider.quantize (ofZ 0) (ofZ 40) one (Fin (987 # 10)))
  = true /\
  leb (DualRangeSlider.quantize (ofZ 0) (ofZ 40) one (Fin (987 # 10))) (ofZ 40)
  = true.
Proof.
  apply quantize_within_range; reflexivity.
Defined.

(** X13.  For an integer min a, an integer step s that is not 0 and an
    integer k, all of a, s, k s and k s + a of magnitude at most 2^53,
    [quantize] leaves the grid value k s + a unchanged when it lies in
    [min, max]. *)
Theorem quantize_fixes_grid (a s k : Z) (max : number) :
  (Z.abs a <= 2 ^ 53)%Z -> (0 < Z.abs s <= 2 ^ 53)%Z ->
  (Z.abs (k * s) <= 2 ^ 53)%Z -> (Z.abs (k * s + a) <= 2 ^ 53)%Z ->
  isFinite max = true ->
  (a <= k * s + a)%Z -> leb (ofZ (k * s + a)) max = true ->
  strict_eq (DualRangeSlider.quantize (ofZ a) max (ofZ s) (ofZ (k * s + a)))
            (ofZ (k * s + a)) = true.
Proof.
  intros _ Hs _ _ FM H1 H2.
  destruct (isFinite_Fin _ FM) as [c ->].
  assert (Hs' : ~ inject_Z s == 0).
  { intros E. apply (inject_Z_injective s 0) in E. lia. }
  unfold ofZ at 1 2 3.
  pose proof (quantize_val (inject_Z a) c (inject_Z s) (inject_Z (k * s + a))
                Hs') as Hq.
  eapply strict_eq_of_val; [exact Hq | apply val_is_ofZ |].
  assert (Ev : inject_Z (k * s + a) == inject_Z k * inject_Z s + inject_Z a)
    by (rewrite inject_Z_plus, inject_Z_mult; reflexivity).
  assert (Esnap : snapQ (inject_Z a) (inject_Z s) (inject_Z (k * s + a)) ==
                  inject_Z (k * s + a)).
  { rewrite (snapQ_comp _ _ _ _ Ev), Ev. now apply snapQ_grid. }
  rewrite (clampQ3_comp _ _ (inject_Z a) c Esnap).
  apply clampQ3_inside.
  - rewrite <- Zle_Qle. exact H1.
  - unfold ofZ in H2. cbn [leb] in H2. now apply Qle_bool_iff.
Qed.

Lemma quantize_fixes_grid_witness :
  strict_eq (DualRangeSlider.quantize (ofZ 0) (ofZ 40) (ofZ 1)
               (ofZ (7 * 1 + 0)))
            (ofZ (7 * 1 + 0)) = true.
Proof.
  apply (quantize_fixes_grid 0 1 7 (ofZ 40)); try reflexivity; lia.
Defined.

(** X14.  With the pages' props min = 0 and step = 1, [quantize] moves a
    value of [0, max] by at most 1/2. *)
Theorem quantize_nearest (max value : number) :
  isFinite max = true -> isFinite value = true ->
  leb zero value = true -> leb value max = true ->
  exists r a,
    DualRangeSlider.quantize zero max one value = Fin r /\
    value = Fin a /\
    a - (1 # 2) <= r /\ r <= a + (1 # 2).
Proof.
  intros FM Fv H1 H2.
  destruct (isFinite_Fin _ FM) as [c ->]. destruct (isFinite_Fin _ Fv) as [a ->].
  unfold zero, one, ofZ in *. change (inject_Z 0) with 0 in *.
  change (inject_Z 1) with 1 in *.
  cbn [leb] in H1, H2. apply Qle_bool_iff in H1, H2.
  assert (Hs' : ~ 1 == 0) by lra.
  pose proof (quantize_val 0 c 1 a Hs') as Hq.
  destruct (DualRangeSlider.quantize (Fin 0) (Fin c) (Fin 1) (Fin a))
    as [| | | r]; try contradiction.
  cbn [val_is] in Hq. exists r, a.
  split; [reflexivity |]. split; [reflexivity |].
  destruct (snapQ_near 0 1 a ltac:(lra)) as [N1 N2].
  change (1 / 2) with (1 # 2) in N1, N2. rewrite Hq.
  unfold clampQ3. cbv zeta.
  repeat match goal with
         | |- context [Qle_bool c ?y] => destruct (Qle_bool c y) eqn:?
         end;
    repeat match goal with
           | |- context [Qle_bool ?x ?y] => destruct (Qle_bool x y) eqn:?
           end;
    Qle_bool_to_Prop; split; lra.
Qed.

Lemma quantize_nearest_witness :
  exists r a,
    DualRangeSlider.quantize zero (ofZ 40) one (Fin (25 # 10)) = Fin r /\
    Fin (25 # 10) = Fin a /\
    a - (1 # 2) <= r /\ r <= a + (1 # 2).
Proof.
  apply quantize_nearest; reflexivity.
Defined.

Lemma div_zero_not_finite (x : number) : isFinite (div x zero) = false.
Proof.
  destruct x as [| | | p]; try reflexivity. cbn [div zero ofZ].
  change (Qeq_bool (inject_Z 0) 0) with true. cbv iota.
  unfold scaled_inf. destruct (Qeq_bool p 0); [reflexivity |].
  destruct (Qle_bool 0 p); reflexivity.
Qed.

Lemma round_not_finite (x : number) :
  isFinite x = false -> isFinite (round x) = false.
Proof. destruct x; try discriminate; intros _; reflexivity. Qed.

Lemma mul_not_finite_zero (x : number) :
  isFinite x = false -> mul x zero = NaN.
Proof. destruct x; try discriminate; intros _; reflexivity. Qed.

Lemma clamp_NaN_value (lo hi : number) : clamp NaN lo hi = NaN.
Proof. unfold clamp. rewrite min_NaN_r. destruct lo; reflexivity. Qed.

(** X15.  With step 0, [quantize] returns NaN for every value and every
    range. *)
Theorem quantize_step_zero (min max value : number) :
  DualRangeSlider.quantize min max zero value = NaN.
Proof.
  unfold DualRangeSlider.quantize. cbv zeta.
  rewrite mul_not_finite_zero
    by (apply round_not_finite, div_zero_not_finite).
  apply clamp_NaN_value.
Qed.

Lemma quantize_val_gen (min max step value : number) (b c s a : Q) :
  val_is min b -> val_is max c -> val_is step s -> val_is value a ->
  ~ s == 0 ->
  val_is (DualRangeSlider.quantize min max step value)
         (clampQ3 (snapQ b s a) b c).
Proof.
  intros Hb Hc Hs Ha Hne. unfold DualRangeSlider.quantize. cbv zeta.
  apply val_is_clamp; try assumption. unfold snapQ.
  apply val_is_add; [| assumption].
  apply val_is_mul; [| assumption].
  apply val_is_round. apply val_is_div; try assumption.
  apply val_is_sub; assumption.
Qed.

Lemma clampQ3_at_lo (b c : Q) : clampQ3 b b c == b.
Proof.
  unfold clampQ3. cbv zeta.
  repeat match goal with
         | |- context [Qle_bool c ?y] => destruct (Qle_bool c y) eqn:?
         end;
    repeat match goal with
           | |- context [Qle_bool ?x ?y] => destruct (Qle_bool x y) eqn:?
           end;
    Qle_bool_to_Prop; lra.
Qed.

Lemma snapQ_at_min (b s : Q) : ~ s == 0 -> snapQ b s b == b.
Proof.
  intros Hs.
  rewrite (snapQ_comp b s b (inject_Z 0 * s + b)) by ring.
  rewrite snapQ_grid by exact Hs. ring.
Qed.

Lemma positionToValue_val (b c s x rl w : Q) :
  ~ s == 0 ->
  val_is (DualRangeSlider.positionToValue (Fin b) (Fin c) (Fin s)
            (Some {| DualRangeSlider.rect_left := Fin rl;
                     DualRangeSlider.rect_width := Fin w |})
            (Fin x))
         (clampQ3 (snapQ b s (b + ratioQ x rl w * (c - b))) b c).
Proof.
  intros Hs. unfold DualRangeSlider.positionToValue. cbv zeta.
  cbn [DualRangeSlider.rect_left DualRangeSlider.rect_width].
  apply quantize_val_gen; try apply val_is_Fin; [| exact Hs].
  apply val_is_add; [apply val_is_Fin |].
  apply val_is_mul; [| apply val_is_sub; apply val_is_Fin].
  unfold ratioQ. change (strict_eq (Fin w) zero) with (Qeq_bool w 0).
  destruct (Qeq_bool w 0) eqn:E; [reflexivity |].
  apply val_is_div; try apply val_is_Fin.
  - apply val_is_clamp;
      [apply val_is_sub; apply val_is_Fin
      | apply (val_is_ofZ 0) | apply val_is_Fin].
  - now apply Qeq_bool_neq.
Qed.

Lemma ratioQ_left (x rl w : Q) : x <= rl -> ratioQ x rl w == 0.
Proof.
  intros H. unfold ratioQ. destruct (Qeq_bool w 0) eqn:E; [reflexivity |].
  apply Qeq_bool_neq in E.
  assert (C : clampQ3 (x - rl) 0 w == 0).
  { unfold clampQ3. cbv zeta.
    repeat match goal with
           | |- context [Qle_bool w ?y] => destruct (Qle_bool w y) eqn:?
           end;
      repeat match goal with
             | |- context [Qle_bool ?a ?y] => destruct (Qle_bool a y) eqn:?
             end;
      Qle_bool_to_Prop; lra. }
  rewrite C. field. exact E.
Qed.

Lemma ratioQ_right (x rl w : Q) : 0 < w -> rl + w <= x -> ratioQ x rl w == 1.
Proof.
  intros Hw H. unfold ratioQ. destruct (Qeq_bool w 0) eqn:E.
  - apply Qeq_bool_iff in E. lra.
  - assert (C : clampQ3 (x - rl) 0 w == w).
    { unfold clampQ3. cbv zeta.
      repeat match goal with
             | |- context [Qle_bool w ?y] => destruct (Qle_bool w y) eqn:?
             end;
        repeat match goal with
               | |- context [Qle_bool ?a ?y] => destruct (Qle_bool a y) eqn:?
               end;
        Qle_bool_to_Prop; lra. }
    rewrite C. field. lra.
Qed.

Lemma ratioQ_zero_width (x rl w : Q) : w == 0 -> ratioQ x rl w == 0.
Proof.
  intros H. unfold ratioQ. apply Qeq_bool_iff in H. now rewrite H.
Qed.

Lemma positionToValue_at (b c s x rl w raw : Q) :
  ~ s == 0 -> b + ratioQ x rl w * (c - b) == raw ->
  val_is (DualRangeSlider.positionToValue (Fin b) (Fin c) (Fin s)
            (Some {| DualRangeSlider.rect_left := Fin rl;
                     DualRangeSlider.rect_width := Fin w |})
            (Fin x))
         (clampQ3 (snapQ b s raw) b c).
Proof.
  intros Hs Hraw. eapply val_is_Qeq; [now apply positionToValue_val |].
  apply clampQ3_comp. now apply snapQ_comp.
Qed.

(** X16.  Without a measured track, [positionToValue] ignores the pointer:
    it returns min when there is no rectangle and, for min and max of
    magnitude at most 2^1022 and a finite step that is not 0, a value equal
    to min when the rectangle has width 0. *)
Theorem positionToValue_unmeasured (min max step clientX : number) :
  moderate min = true -> moderate max = true -> isFinite step = true ->
  strict_eq step zero = false ->
  DualRangeSlider.positionToValue min max step None clientX = min /\
  (forall r, strict_eq (DualRangeSlider.rect_width r) zero = true ->
     strict_eq (DualRangeSlider.positionToValue min max step (Some r) clientX)
               min = true).
Proof.
  intros Mm MM Fs Hs. split; [reflexivity |].
  pose proof (moderate_finite _ Mm) as Fm.
  pose proof (moderate_finite _ MM) as FM.
  intros r Hw. unfold DualRangeSlider.positionToValue. cbv zeta. rewrite Hw.
  destruct (isFinite_Fin _ Fm) as [b ->]. destruct (isFinite_Fin _ FM) as [c ->].
  destruct (isFinite_Fin _ Fs) as [s ->].
  pose proof (not_strict_eq_zero s Hs) as Hs'.
  assert (Hraw : val_is (add (Fin b) (mul zero (sub (Fin c) (Fin b)))) b).
  { eapply val_is_Qeq.
    - apply val_is_add; [apply val_is_Fin |].
      apply val_is_mul; [apply (val_is_ofZ 0) |].
      apply val_is_sub; apply val_is_Fin.
    - change (inject_Z 0) with 0. ring. }
  eapply strict_eq_of_val;
    [apply (quantize_val_gen _ _ _ _ b c s b); try apply val_is_Fin;
       [exact Hraw | exact Hs']
    | apply val_is_Fin |].
  rewrite (clampQ3_comp _ _ b c (snapQ_at_min b s Hs')).
  apply clampQ3_at_lo.
Qed.

Lemma positionToValue_unmeasured_witness :
  DualRangeSlider.positionToValue (ofZ 0) (ofZ 40) one None NaN = ofZ 0 /\
  (forall r, strict_eq (DualRangeSlider.rect_width r) zero = true ->
     strict_eq (DualRangeSlider.positionToValue (ofZ 0) (ofZ 40) one (Some r)
                  NaN)
               (ofZ 0) = true).
Proof.
  apply positionToValue_unmeasured; reflexivity.
Defined.

Lemma positionToValue_range (min max step clientX : number)
    (rect : option DualRangeSlider.DOMRect) :
  isFinite min = true -> isFinite max = true -> isFinite step = true ->
  isFinite clientX = true -> strict_eq step zero = false ->
  leb min max = true ->
  (forall r, rect = Some r ->
     isFinite (DualRangeSlider.rect_left r) = true /\
     isFinite (DualRangeSlider.rect_width r) = true) ->
  leb min (DualRangeSlider.positionToValue min max step rect clientX) = true /\
  leb (DualRangeSlider.positionToValue min max step rect clientX) max = true.
Proof.
  intros Fm FM Fs Fx Hs Hle Hr.
  destruct (isFinite_Fin _ Fm) as [b ->]. destruct (isFinite_Fin _ FM) as [c ->].
  destruct (isFinite_Fin _ Fs) as [s ->]. destruct (isFinite_Fin _ Fx) as [x ->].
  pose proof (not_strict_eq_zero s Hs) as Hs'.
  destruct rect as [[rl w] |].
  - destruct (Hr _ eq_refl) as [Fl Fw].
    cbn [DualRangeSlider.rect_left DualRangeSlider.rect_width] in *.
    destruct (isFinite_Fin _ Fl) as [l ->].
    destruct (isFinite_Fin _ Fw) as [w' ->].
    pose proof (positionToValue_val b c s x l w' Hs') as Hv.
    cbn [leb] in Hle. apply Qle_bool_iff in Hle.
    destruct (clampQ3_range (snapQ b s (b + ratioQ x l w' * (c - b))) b c Hle).
    split.
    + eapply leb_of_val; [apply val_is_Fin | exact Hv | assumption].
    + eapply leb_of_val; [exact Hv | apply val_is_Fin | assumption].
  - cbn [DualRangeSlider.positionToValue]. split; [| exact Hle].
    apply leb_refl. discriminate.
Qed.

(** X17.  For min <= max of magnitude at most 2^1022, a finite step that is
    not 0 and a finite pointer abscissa and rectangle, [positionToValue]
    returns a value of [min, max]. *)
Theorem positionToValue_within_range (min max step clientX : number)
    (rect : option DualRangeSlider.DOMRect) :
  moderate min = true -> moderate max = true -> isFinite step = true ->
  isFinite clientX = true -> strict_eq step zero = false ->
  leb min max = true ->
  (forall r, rect = Some r ->
     isFinite (DualRangeSlider.rect_left r) = true /\
     isFinite (DualRangeSlider.rect_width r) = true) ->
  leb min (DualRangeSlider.positionToValue min max step rect clientX) = true /\
  leb (DualRangeSlider.positionToValue min max step rect clientX) max = true.
Proof.
  intros Mm MM. intros.
  apply positionToValue_range; try assumption; now apply moderate_finite.
Qed.

Lemma positionToValue_within_range_witness :
  leb (ofZ 0)
      (DualRangeSlider.positionToValue (ofZ 0) (ofZ 40) one
         (Some {| DualRangeSlider.rect_left := ofZ 10;
                  DualRangeSlider.rect_width := ofZ 300 |}) (ofZ 5000))
  = true /\
  leb (DualRangeSlider.positionToValue (ofZ 0) (ofZ 40) one
         (Some {| DualRangeSlider.rect_left := ofZ 10;
                  DualRangeSlider.rect_width := ofZ 300 |}) (ofZ 5000))
      (ofZ 40) = true.
Proof.
  apply positionToValue_within_range; try reflexivity.
  intros r E. injection E as <-. split; reflexivity.
Defined.

(** X18.  For integers min and max of magnitude at most 2^52, a finite step
    that is not 0 and a track of positive width: a pointer at or left of the
    track's left edge gives min, and a pointer whose distance
    clientX - rect.left from that edge is at least the width gives
    [quantize(max)]. *)
Theorem positionToValue_track_ends (a b : Z) (step xl xr : number)
    (r : DualRangeSlider.DOMRect) :
  (Z.abs a <= 2 ^ 52)%Z -> (Z.abs b <= 2 ^ 52)%Z ->
  isFinite step = true -> strict_eq step zero = false ->
  isFinite xl = true -> isFinite xr = true ->
  isFinite (DualRangeSlider.rect_left r) = true ->
  isFinite (DualRangeSlider.rect_width r) = true ->
  ltb zero (DualRangeSlider.rect_width r) = true ->
  leb xl (DualRangeSlider.rect_left r) = true ->
  leb (DualRangeSlider.rect_width r) (sub xr (DualRangeSlider.rect_left r))
  = true ->
  strict_eq (DualRangeSlider.positionToValue (ofZ a) (ofZ b) step (Some r) xl)
            (ofZ a) = true /\
  strict_eq (DualRangeSlider.positionToValue (ofZ a) (ofZ b) step (Some r) xr)
            (DualRangeSlider.quantize (ofZ a) (ofZ b) step (ofZ b)) = true.
Proof.
  intros _ _ Fs Hs Fxl Fxr Fl Fw Hw Hl Hr. destruct r as [rl w].
  cbn [DualRangeSlider.rect_left DualRangeSlider.rect_width] in *.
  destruct (isFinite_Fin _ Fs) as [s ->].
  destruct (isFinite_Fin _ Fxl) as [x1 ->].
  destruct (isFinite_Fin _ Fxr) as [x2 ->].
  destruct (isFinite_Fin _ Fl) as [l ->]. destruct (isFinite_Fin _ Fw) as [w' ->].
  pose proof (not_strict_eq_zero s Hs) as Hs'.
  cbn [ltb zero ofZ] in Hw. apply negb_true_iff in Hw.
  apply not_true_iff_false in Hw. rewrite Qle_bool_iff in Hw.
  apply Qnot_le_lt in Hw. change (inject_Z 0) with 0 in Hw.
  unfold ofZ. set (mn := inject_Z a). set (mx := inject_Z b).
  split.
  - cbn [leb] in Hl. apply Qle_bool_iff in Hl.
    eapply strict_eq_of_val;
      [apply (positionToValue_at mn mx s x1 l w' mn Hs') | apply val_is_Fin |].
    + rewrite ratioQ_left by exact Hl. ring.
    + rewrite (clampQ3_comp _ _ mn mx (snapQ_at_min mn s Hs')).
      apply clampQ3_at_lo.
  - assert (H' : l + w' <= x2).
    { pose proof (val_is_leb _ _ _ _ (val_is_Fin w')
                    (val_is_sub _ _ _ _ (val_is_Fin x2) (val_is_Fin l))) as E.
      rewrite E in Hr. apply Qle_bool_iff in Hr. lra. }
    eapply strict_eq_of_val;
      [apply (positionToValue_at mn mx s x2 l w' mx Hs')
      | apply (quantize_val mn mx s mx Hs') | reflexivity].
    rewrite ratioQ_right by assumption. ring.
Qed.

Lemma positionToValue_track_ends_witness :
  strict_eq (DualRangeSlider.positionToValue (ofZ 0) (ofZ 40) one
               (Some {| DualRangeSlider.rect_left := ofZ 10;
                        DualRangeSlider.rect_width := ofZ 300 |}) (ofZ 3))
            (ofZ 0) = true /\
  strict_eq (DualRangeSlider.positionToValue (ofZ 0) (ofZ 40) one
               (Some {| DualRangeSlider.rect_left := ofZ 10;
                        DualRangeSlider.rect_width := ofZ 300 |}) (ofZ 310))
            (DualRangeSlider.quantize (ofZ 0) (ofZ 40) one (ofZ 40)) = true.
Proof.
  apply (positionToValue_track_ends 0 40 one (ofZ 3) (ofZ 310)
           {| DualRangeSlider.rect_left := ofZ 10;
              DualRangeSlider.rect_width := ofZ 300 |}); try reflexivity; lia.
Defined.

Lemma leb_total (a b : number) :
  a <> NaN -> b <> NaN -> leb a b = false -> leb b a = true.
Proof.
  destruct a as [| | | p], b as [| | | q]; cbn [leb];
    try contradiction; try discriminate; try reflexivity.
  intros _ _ H. apply not_true_iff_false in H. rewrite Qle_bool_iff in H.
  apply Qnot_le_lt in H. apply Qle_bool_iff. lra.
Qed.

Lemma leb_left_not_NaN (a b : number) : leb a b = true -> a <> NaN.
Proof. intros H. now destruct (leb_not_NaN a b H). Qed.

Lemma leb_right_not_NaN (a b : number) : leb a b = true -> b <> NaN.
Proof. intros H. now destruct (leb_not_NaN a b H). Qed.

Lemma onMove_ordered
    (min max step valueMin valueMax clientX : number)
    (dragging : option DualRangeSlider.Handle)
    (rect : option DualRangeSlider.DOMRect) (a b : number) :
  isFinite min = true -> isFinite max = true -> isFinite step = true ->
  isFinite clientX = true -> strict_eq step zero = false ->
  (forall r, rect = Some r ->
     isFinite (DualRangeSlider.rect_left r) = true /\
     isFinite (DualRangeSlider.rect_width r) = true) ->
  leb min valueMin = true -> leb valueMin max = true ->
  leb min valueMax = true -> leb valueMax max = true ->
  DualRangeSlider.onMove min max step valueMin valueMax dragging rect clientX
  = Some (a, b) ->
  leb a b = true /\ leb min a = true /\ leb b max = true /\
  match dragging with
  | Some DualRangeSlider.handle_min =>
      b = valueMax /\ strict_eq a valueMin = false
  | Some DualRangeSlider.handle_max =>
      a = valueMin /\ strict_eq b valueMax = false
  | None => False
  end.
Proof.
  intros Fm FM Fs Fx Hs Hr L1 L2 L3 L4 H.
  assert (Hle : leb min max = true) by (eapply leb_trans; eassumption).
  destruct (positionToValue_range min max step clientX rect
              Fm FM Fs Fx Hs Hle Hr) as [V1 V2].
  unfold DualRangeSlider.onMove in H. cbv zeta in H.
  set (val := DualRangeSlider.positionToValue min max step rect clientX) in *.
  pose proof (leb_right_not_NaN _ _ V1) as Nv.
  pose proof (leb_right_not_NaN _ _ L1) as N1.
  pose proof (leb_right_not_NaN _ _ L3) as N3.
  destruct dragging as [[|] |]; [| | discriminate H].
  - destruct (negb (strict_eq (JsNumber.min val valueMax) valueMin)) eqn:E;
      [| discriminate H].
    injection H as <- <-. apply negb_true_iff in E.
    assert (Em : JsNumber.min val valueMax =
                 if leb val valueMax then val else valueMax).
    { unfold JsNumber.min. destruct val, valueMax; try reflexivity;
        contradiction. }
    rewrite Em in *. destruct (leb val valueMax) eqn:C.
    + repeat split; assumption.
    + repeat split; try assumption. now apply leb_refl.
  - destruct (negb (strict_eq (JsNumber.max val valueMin) valueMax)) eqn:E;
      [| discriminate H].
    injection H as <- <-. apply negb_true_iff in E.
    assert (Em : JsNumber.max val valueMin =
                 if leb val valueMin then valueMin else val).
    { unfold JsNumber.max. destruct val, valueMin; try reflexivity;
        contradiction. }
    rewrite Em in *. destruct (leb val valueMin) eqn:C.
    + repeat split; try assumption. now apply leb_refl.
    + repeat split; try assumption. now apply leb_total.
Qed.

Lemma onTouchMove_onMove
    (min max step valueMin valueMax : number)
    (dragging : option DualRangeSlider.Handle)
    (rect : option DualRangeSlider.DOMRect) (touch : option number) :
  DualRangeSlider.onTouchMove min max step valueMin valueMax dragging rect
    touch =
  match touch with
  | Some clientX =>
      DualRangeSlider.onMove min max step valueMin valueMax dragging rect
        clientX
  | None => None
  end.
Proof.
  destruct dragging as [[|] |], touch as [clientX |]; reflexivity.
Qed.

(** X19.  For min and max of magnitude at most 2^1022, a finite step that is
    not 0 and both current values in [min, max]: whenever [onMove], or [onTouchMove] on a touch at the same
    abscissa, calls [onChange(a, b)], the pair is ordered (a <= b) and inside
    [min, max], the handle that is not dragged keeps its value, and the
    dragged one has changed. *)
Theorem drag_keeps_handles_ordered
    (min max step valueMin valueMax clientX : number)
    (dragging : option DualRangeSlider.Handle)
    (rect : option DualRangeSlider.DOMRect) (a b : number) :
  moderate min = true -> moderate max = true -> isFinite step = true ->
  isFinite clientX = true -> strict_eq step zero = false ->
  (forall r, rect = Some r ->
     isFinite (DualRangeSlider.rect_left r) = true /\
     isFinite (DualRangeSlider.rect_width r) = true) ->
  leb min valueMin = true -> leb valueMin max = true ->
  leb min valueMax = true -> leb valueMax max = true ->
  DualRangeSlider.onMove min max step valueMin valueMax dragging rect clientX
  = Some (a, b) \/
  DualRangeSlider.onTouchMove min max step valueMin valueMax dragging rect
    (Some clientX) = Some (a, b) ->
  leb a b = true /\ leb min a = true /\ leb b max = true /\
  match dragging with
  | Some DualRangeSlider.handle_min =>
      b = valueMax /\ strict_eq a valueMin = false
  | Some DualRangeSlider.handle_max =>
      a = valueMin /\ strict_eq b valueMax = false
  | None => False
  end.
Proof.
  intros Mm MM Fs Fx Hs Hr L1 L2 L3 L4 H.
  pose proof (moderate_finite _ Mm) as Fm.
  pose proof (moderate_finite _ MM) as FM.
  apply (onMove_ordered min max step valueMin valueMax clientX dragging rect);
    try assumption.
  destruct H as [H | H]; [exact H |].
  now rewrite onTouchMove_onMove in H.
Qed.

Lemma drag_keeps_handles_ordered_witness :
  leb (ofZ 9) (ofZ 9) = true /\ leb (ofZ 0) (ofZ 9) = true /\
  leb (ofZ 9) (ofZ 40) = true /\ (ofZ 9 = ofZ 9 /\
  strict_eq (ofZ 9) (ofZ 3) = false).
Proof.
  apply (drag_keeps_handles_ordered (ofZ 0) (ofZ 40) one (ofZ 3) (ofZ 9)
           (ofZ 5000) (Some DualRangeSlider.handle_min)
           (Some {| DualRangeSlider.rect_left := ofZ 10;
                    DualRangeSlider.rect_width := ofZ 300 |})
           (ofZ 9) (ofZ 9)); try reflexivity.
  - intros r E. injection E as <-. split; reflexivity.
  - right. reflexivity.
Defined.

(** ** The selected range in percent *)

Lemma percent_val (b c v : Q) :
  ~ c - b == 0 ->
  val_is (DualRangeSlider.percent (Fin b) (Fin c) (Fin v))
         ((v - b) / (c - b) * 100).
Proof.
  intros H. unfold DualRangeSlider.percent, DualRangeSlider.range.
  apply val_is_mul; [| apply (val_is_ofZ 100)].
  apply val_is_div; [| | exact H]; apply val_is_sub; apply val_is_Fin.
Qed.

Lemma percentQ_mono (b c v1 v2 : Q) :
  b < c -> v1 <= v2 ->
  (v1 - b) / (c - b) * 100 <= (v2 - b) / (c - b) * 100.
Proof.
  intros Hbc H. apply Qmult_le_compat_r; [| lra].
  unfold Qdiv. apply Qmult_le_compat_r; [lra |].
  apply Qinv_le_0_compat. lra.
Qed.

Lemma leb_Fin_l (x : number) (q : Q) :
  leb (Fin q) x = true -> isFinite x = true \/ x = PosInf.
Proof. destruct x; cbn [leb]; try discriminate; auto. Qed.

(** X20.  For min < max of magnitude at most 2^1022 and
    min <= valueMin <= valueMax <= max, [percent] sends
    min to 0 and max to 100, [left] and [right] satisfy
    0 <= left <= right <= 100, and the width of the selected range,
    [Math.max(0, right - left)], is right - left. *)
Theorem percent_of_selected_range (min max valueMin valueMax : number) :
  moderate min = true -> moderate max = true -> ltb min max = true ->
  leb min valueMin = true -> leb valueMin valueMax = true ->
  leb valueMax max = true ->
  strict_eq (DualRangeSlider.percent min max min) zero = true /\
  strict_eq (DualRangeSlider.percent min max max) (ofZ 100) = true /\
  leb zero (DualRangeSlider.left min max valueMin) = true /\
  leb (DualRangeSlider.left min max valueMin)
      (DualRangeSlider.right min max valueMax) = true /\
  leb (DualRangeSlider.right min max valueMax) (ofZ 100) = true /\
  strict_eq (DualRangeSlider.selectedWidth min max valueMin valueMax)
            (sub (DualRangeSlider.right min max valueMax)
                 (DualRangeSlider.left min max valueMin)) = true.
Proof.
  intros Mm MM Hlt L1 L2 L3.
  pose proof (moderate_finite _ Mm) as Fm.
  pose proof (moderate_finite _ MM) as FM.
  destruct (isFinite_Fin _ Fm) as [b ->]. destruct (isFinite_Fin _ FM) as [c ->].
  destruct valueMin as [| | | v1]; try discriminate L1;
    [destruct valueMax; discriminate |].
  destruct valueMax as [| | | v2]; try discriminate L2; try discriminate L3.
  cbn [ltb leb] in *. apply negb_true_iff in Hlt.
  apply not_true_iff_false in Hlt. rewrite Qle_bool_iff in Hlt.
  apply Qnot_le_lt in Hlt. apply Qle_bool_iff in L1, L2, L3.
  assert (Hne : ~ c - b == 0) by lra.
  unfold DualRangeSlider.left, DualRangeSlider.right,
    DualRangeSlider.selectedWidth.
  pose proof (percent_val b c b Hne) as Pb.
  pose proof (percent_val b c c Hne) as Pc.
  pose proof (percent_val b c v1 Hne) as P1.
  pose proof (percent_val b c v2 Hne) as P2.
  assert (Eb : (b - b) / (c - b) * 100 == 0) by (field; exact Hne).
  assert (Ec : (c - b) / (c - b) * 100 == 100) by (field; exact Hne).
  pose proof (percentQ_mono b c b v1 Hlt L1) as M1.
  pose proof (percentQ_mono b c v1 v2 Hlt L2) as M2.
  pose proof (percentQ_mono b c v2 c Hlt L3) as M3.
  repeat split.
  - eapply strict_eq_of_val; [exact Pb | apply (val_is_ofZ 0) | exact Eb].
  - eapply strict_eq_of_val; [exact Pc | apply (val_is_ofZ 100) | exact Ec].
  - eapply leb_of_val; [apply (val_is_ofZ 0) | exact P1 |].
    change (inject_Z 0) with 0. lra.
  - eapply leb_of_val; [exact P1 | exact P2 | exact M2].
  - eapply leb_of_val; [exact P2 | apply (val_is_ofZ 100) |].
    change (inject_Z 100) with 100. lra.
  - pose proof (val_is_sub _ _ _ _ P2 P1) as Hd.
    destruct (sub (DualRangeSlider.percent (Fin b) (Fin c) (Fin v2))
                  (DualRangeSlider.percent (Fin b) (Fin c) (Fin v1)))
      as [| | | dq] eqn:Ed; try contradiction.
    cbn [val_is] in Hd.
    assert (Hpos : Qle_bool 0 dq = true).
    { apply Qle_bool_iff. rewrite Hd. lra. }
    unfold DualRangeSlider.right, DualRangeSlider.left. rewrite Ed.
    change (JsNumber.max zero (Fin dq))
      with (if Qle_bool 0 dq then Fin dq else zero).
    rewrite Hpos. cbn [strict_eq]. apply Qeq_bool_iff. reflexivity.
Qed.

Lemma percent_of_selected_range_witness :
  strict_eq (DualRangeSlider.percent (ofZ 0) (ofZ 40) (ofZ 0)) zero = true /\
  strict_eq (DualRangeSlider.percent (ofZ 0) (ofZ 40) (ofZ 40)) (ofZ 100)
  = true /\
  leb zero (DualRangeSlider.left (ofZ 0) (ofZ 40) (ofZ 1)) = true /\
  leb (DualRangeSlider.left (ofZ 0) (ofZ 40) (ofZ 1))
      (DualRangeSlider.right (ofZ 0) (ofZ 40) (ofZ 9)) = true /\
  leb (DualRangeSlider.right (ofZ 0) (ofZ 40) (ofZ 9)) (ofZ 100) = true /\
  strict_eq (DualRangeSlider.selectedWidth (ofZ 0) (ofZ 40) (ofZ 1) (ofZ 9))
            (sub (DualRangeSlider.right (ofZ 0) (ofZ 40) (ofZ 9))
                 (DualRangeSlider.left (ofZ 0) (ofZ 40) (ofZ 1))) = true.
Proof.
  apply percent_of_selected_range; reflexivity.
Defined.

Lemma div_by_zero_value (x : number) (q : Q) :
  q == 0 -> isFinite (div x (Fin q)) = false.
Proof.
  intros H. apply Qeq_bool_iff in H.
  destruct x as [| | | p]; cbn [div]; try reflexivity.
  - destruct (Qle_bool 0 q); reflexivity.
  - destruct (Qle_bool 0 q); reflexivity.
  - rewrite H. unfold scaled_inf. destruct (Qeq_bool p 0); [reflexivity |].
    destruct (Qle_bool 0 p); reflexivity.
Qed.

Lemma mul_not_finite (x y : number) :
  isFinite x = false -> isFinite (mul x y) = false.
Proof.
  destruct x as [| | | p]; try discriminate; intros _;
    destruct y as [| | | q]; try reflexivity; cbn [mul]; unfold scaled_inf;
    destruct (Qeq_bool q 0); try reflexivity;
    destruct (Qle_bool 0 q); reflexivity.
Qed.

(** X21.  When min equals max, [percent] is not finite (NaN or an infinity) for
    every value. *)
Theorem percent_of_empty_range (min max v : number) :
  isFinite min = true -> strict_eq min max = true ->
  isFinite (DualRangeSlider.percent min max v) = false.
Proof.
  intros Fm H. destruct (isFinite_Fin _ Fm) as [b ->].
  destruct max as [| | | c]; try discriminate H.
  cbn [strict_eq] in H. apply Qeq_bool_iff in H.
  unfold DualRangeSlider.percent, DualRangeSlider.range.
  apply mul_not_finite. cbn [sub]. unfold fin.
  apply div_by_zero_value. rewrite Qred_correct, H. ring.
Qed.

Lemma percent_of_empty_range_witness :
  isFinite (DualRangeSlider.percent (ofZ 3) (ofZ 3) (ofZ 3)) = false.
Proof.
  apply percent_of_empty_range; reflexivity.
Defined.

(** ** The sweep of a slider *)

Lemma toLength_ofZ (z : Z) :
  toLength (ofZ z) = Z.max 0 (Z.min (2 ^ 53 - 1) z).
Proof. unfold toLength, ofZ. now rewrite Qfloor_Z. Qed.

Lemma map_add_zrange (s : Z) (len : nat) :
  forall i0,
    map (fun i => add (ofZ s) (ofZ i)) (zrange i0 len) =
    map ofZ (zrange (s + i0) len).
Proof.
  induction len as [| len IH]; intros i0; [reflexivity |].
  cbn [zrange map]. rewrite add_ofZ, IH. do 3 f_equal. lia.
Qed.

Lemma valuesBetween_ofZ (a b : Z) :
  valuesBetween (ofZ a) (ofZ b) =
  if (2 ^ 32 - 1 <? Z.abs (a - b) + 1)%Z then inl RangeError
  else inr (map ofZ (zrange (Z.min a b) (Z.to_nat (Z.abs (a - b) + 1)))).
Proof.
  unfold valuesBetween, arrayFromLength. cbv zeta.
  rewrite min_ofZ, max_ofZ, sub_ofZ. change one with (ofZ 1).
  rewrite add_ofZ, toLength_ofZ.
  replace (Z.max a b - Z.min a b + 1)%Z with (Z.abs (a - b) + 1)%Z by lia.
  assert (P53 : (2 ^ 53 - 1 = 9007199254740991)%Z) by reflexivity.
  assert (P32 : (2 ^ 32 - 1 = 4294967295)%Z) by reflexivity.
  rewrite P53, P32.
  destruct (Z.ltb_spec 4294967295 (Z.abs (a - b) + 1));
    destruct (Z.ltb_spec 4294967295
                (Z.max 0 (Z.min 9007199254740991 (Z.abs (a - b) + 1))));
    try lia; [reflexivity |].
  rewrite map_add_zrange. do 3 f_equal; lia.
Qed.

(** X22.  For two integer slider values of magnitude at most 2^53 and less
    than 2^32 - 1 apart, the sweep is the list of the consecutive integers
    from the smaller to the larger, ends included, and it does not depend on
    the order of the two values. *)
Theorem valuesBetween_integers (a b : Z) :
  (Z.abs a <= 2 ^ 53)%Z -> (Z.abs b <= 2 ^ 53)%Z ->
  (Z.abs (a - b) < 2 ^ 32 - 1)%Z ->
  valuesBetween (ofZ a) (ofZ b) =
  inr (map ofZ (zrange (Z.min a b) (Z.to_nat (Z.abs (a - b) + 1)))) /\
  valuesBetween (ofZ a) (ofZ b) = valuesBetween (ofZ b) (ofZ a).
Proof.
  intros _ _ H. rewrite !valuesBetween_ofZ.
  assert (P32 : (2 ^ 32 - 1 = 4294967295)%Z) by reflexivity.
  rewrite P32 in *.
  replace (Z.abs (b - a)) with (Z.abs (a - b)) by lia.
  rewrite (Z.min_comm b a).
  destruct (Z.ltb_spec 4294967295 (Z.abs (a - b) + 1)); [lia |].
  split; reflexivity.
Qed.

Lemma valuesBetween_integers_witness :
  valuesBetween (ofZ 9) (ofZ 1) =
  inr (map ofZ (zrange (Z.min 9 1) (Z.to_nat (Z.abs (9 - 1) + 1)))) /\
  valuesBetween (ofZ 9) (ofZ 1) = valuesBetween (ofZ 1) (ofZ 9).
Proof.
  apply valuesBetween_integers; [lia | lia | reflexivity].
Defined.

(** X23.  For two integers 2^32 - 1 or more apart, the sweep throws a
    [RangeError]. *)
Theorem valuesBetween_too_long (a b : Z) :
  (2 ^ 32 - 1 <= Z.abs (a - b))%Z ->
  valuesBetween (ofZ a) (ofZ b) = inl RangeError.
Proof.
  intros H. rewrite valuesBetween_ofZ.
  assert (P32 : (2 ^ 32 - 1 = 4294967295)%Z) by reflexivity.
  rewrite P32 in *.
  destruct (Z.ltb_spec 4294967295 (Z.abs (a - b) + 1)); [reflexivity | lia].
Qed.

Lemma valuesBetween_too_long_witness :
  valuesBetween (ofZ 0) (ofZ 4294967295) = inl RangeError.
Proof.
  apply (valuesBetween_too_long 0 4294967295). discriminate.
Defined.

(** X24.  When one of the two slider values is NaN the sweep is empty. *)
Theorem valuesBetween_NaN (x : number) :
  valuesBetween NaN x = inr [] /\ valuesBetween x NaN = inr [].
Proof.
  split; [reflexivity |].
  unfold valuesBetween. cbv zeta. rewrite min_NaN_r.
  assert (E : max x NaN = NaN) by (destruct x; reflexivity).
  rewrite E. reflexivity.
Qed.

(** ** The tables *)

(** The general model is non-decreasing in the later-draw count. *)
Lemma general_draws_monotone (fuel : nat) (keepMode : KeepMode)
    (l n m1 m2 : number) :
  (42 <= fuel)%nat -> n <> NaN -> leb m1 m2 = true ->
  le_result (probabilityAtLeastOne fuel keepMode l n m1)
            (probabilityAtLeastOne fuel keepMode l n m2).
Proof.
  intros Hfuel Hn Hm.
  pose proof (drawsValue_antitone_draws 36 (clampZ n 40) m1 m2 40
                ltac:(lia) Hm) as Hd.
  destruct keepMode.
  - apply keep_le; try assumption.
    apply prod2_le; try exact Hd; try apply drawsValue_bounds;
      [| apply Qle_refl].
    apply prod2_nonneg; [apply missValue_bounds | apply drawsValue_bounds].
  - apply noKeep_le; try assumption. now apply leb_refl_missSum.
Qed.

Lemma restricted_draws_monotone (fuel : nat) (n l m1 m2 : number) :
  (42 <= fuel)%nat -> n <> NaN -> leb m1 m2 = true ->
  le_result (probabilityAtLeastOneKeep fuel n l m1)
            (probabilityAtLeastOneKeep fuel n l m2).
Proof.
  intros Hfuel Hn Hm.
  pose proof (drawsValue_antitone_draws 36 (clampZ n 40) m1 m2 40
                ltac:(lia) Hm) as Hd.
  apply restricted_le; try assumption.
  apply prod2_le; try exact Hd; try apply drawsValue_bounds.
  apply Qle_refl.
Qed.

Lemma restricted_mulligan_monotone (fuel : nat) (n l1 l2 m : number) :
  (42 <= fuel)%nat -> n <> NaN -> leb l1 l2 = true ->
  le_result (probabilityAtLeastOneKeep fuel n l1 m)
            (probabilityAtLeastOneKeep fuel n l2 m).
Proof.
  intros Hfuel Hn Hl.
  pose proof (drawsValue_antitone_draws 36 (clampZ n 40) l1 l2 4
                ltac:(lia) Hl) as Hd.
  apply restricted_le; try assumption.
  apply prod2_le; try apply drawsValue_bounds; [exact Hd | apply Qle_refl].
Qed.

Lemma general_result_unit (fuel : nat) (keepMode : KeepMode)
    (l n m : number) :
  (42 <= fuel)%nat -> n <> NaN ->
  exists q, probabilityAtLeastOne fuel keepMode l n m = Some (Fin q) /\
            0 <= q /\ q <= 1.
Proof.
  intros Hfuel Hn. destruct keepMode.
  - rewrite keep_computes by lia.
    destruct (complement_unit _ _ (keep_miss_val l n m Hn)) as [q [E H]].
    exists q. now rewrite E.
  - rewrite noKeep_formula by exact Hfuel.
    destruct (noKeep_miss_val l n m Hn) as [s [_ [_ Hv]]].
    destruct (complement_unit _ _ Hv) as [q [E H]].
    exists q. unfold NoKeepSpec.atLeastOne. now rewrite E.
Qed.

Lemma restricted_result_unit (fuel : nat) (n l m : number) :
  (42 <= fuel)%nat -> n <> NaN ->
  exists q, probabilityAtLeastOneKeep fuel n l m = Some (Fin q) /\
            0 <= q /\ q <= 1.
Proof.
  intros Hfuel Hn. rewrite restricted_keep_computes by lia.
  destruct (complement_unit _ _ (restricted_miss_val n l m Hn)) as [q [E H]].
  exists q. now rewrite E.
Qed.

(** A function that does not decrease from an integer to the next gives a
    sorted list on consecutive integers. *)
Lemma Sorted_map_zrange {A : Type} (R : A -> A -> Prop) (f : Z -> A)
    (len : nat) :
  forall s, (forall i, R (f i) (f (i + 1)%Z)) ->
            Sorted R (map f (zrange s len)).
Proof.
  induction len as [| len IH]; intros s H; [constructor |].
  cbn [zrange map]. constructor; [now apply IH |].
  destruct len as [| len]; [constructor |].
  cbn [zrange map]. constructor. apply H.
Qed.

Lemma leb_ofZ_succ (i : Z) : leb (ofZ i) (ofZ (i + 1)) = true.
Proof. rewrite leb_ofZ. apply Z.leb_le. lia. Qed.

Lemma ofZ_not_NaN (z : Z) : ofZ z <> NaN.
Proof. discriminate. Qed.

(** X25.  On sweeps of integer slider values, [tableData] has one row per n and
    one cell per m; every cell is a finite value of [0, 1], and every row is
    non-decreasing from left to right, under both policies and for every
    mulligan count. *)
Theorem tableData_rows (fuel : nat) (keepMode : KeepMode)
    (mulliganCount : number) (a b c d : Z) (nValues mValues : list number) :
  (42 <= fuel)%nat ->
  valuesBetween (ofZ a) (ofZ b) = inr nValues ->
  valuesBetween (ofZ c) (ofZ d) = inr mValues ->
  length (Home.tableData fuel keepMode mulliganCount nValues mValues) =
  length nValues /\
  Forall (fun row =>
            length row = length mValues /\
            Forall (fun cell => exists q, cell = Some (Fin q) /\
                                          0 <= q /\ q <= 1) row /\
            Sorted le_result row)
         (Home.tableData fuel keepMode mulliganCount nValues mValues).
Proof.
  intros Hfuel Hn Hm. unfold Home.tableData.
  split; [apply length_map |].
  rewrite valuesBetween_ofZ in Hn, Hm.
  destruct (2 ^ 32 - 1 <? Z.abs (a - b) + 1)%Z; [discriminate Hn |].
  destruct (2 ^ 32 - 1 <? Z.abs (c - d) + 1)%Z; [discriminate Hm |].
  injection Hn as <-. injection Hm as <-.
  apply Forall_forall. intros row Hrow.
  apply in_map_iff in Hrow. destruct Hrow as [n [<- Hin]].
  apply in_map_iff in Hin. destruct Hin as [zn [<- _]].
  split; [apply length_map |]. split.
  - apply Forall_forall. intros cell Hcell.
    apply in_map_iff in Hcell. destruct Hcell as [m [<- _]].
    apply general_result_unit; [exact Hfuel | apply ofZ_not_NaN].
  - rewrite map_map. apply Sorted_map_zrange. intros i.
    apply general_draws_monotone;
      [exact Hfuel | apply ofZ_not_NaN | apply leb_ofZ_succ].
Qed.

Lemma tableData_rows_witness :
  length (Home.tableData 42 noKeep (ofZ 2) [ofZ 3] [ofZ 1; ofZ 2]) =
  length [ofZ 3] /\
  Forall (fun row =>
            length row = length [ofZ 1; ofZ 2] /\
            Forall (fun cell => exists q, cell = Some (Fin q) /\
                                          0 <= q /\ q <= 1) row /\
            Sorted le_result row)
         (Home.tableData 42 noKeep (ofZ 2) [ofZ 3] [ofZ 1; ofZ 2]).
Proof.
  apply (tableData_rows 42 noKeep (ofZ 2) 3 3 1 2); [lia | reflexivity ..].
Defined.

(** X26.  On a sweep of integer slider values and a target count that is not
    NaN, every cell of the table of the restricted model is a finite value
    of [0, 1], every row (fixed l) is non-decreasing in m, and every column
    (fixed m) is non-decreasing in l over [lRows]. *)
Theorem tableRows_sorted (fuel : nat) (n : number) (c d : Z)
    (mValues : list number) :
  (42 <= fuel)%nat -> n <> NaN ->
  valuesBetween (ofZ c) (ofZ d) = inr mValues ->
  Forall (fun row =>
            Forall (fun cell => exists q, cell = Some (Fin q) /\
                                          0 <= q /\ q <= 1) row /\
            Sorted le_result row)
         (MulliganKeepPage.tableRows fuel n mValues) /\
  (forall m, In m mValues ->
     Sorted le_result
       (map (fun l => probabilityAtLeastOneKeep fuel n (ofZ l) m)
            MulliganKeepPage.lRows)).
Proof.
  intros Hfuel Hn Hm. unfold MulliganKeepPage.tableRows.
  rewrite valuesBetween_ofZ in Hm.
  destruct (2 ^ 32 - 1 <? Z.abs (c - d) + 1)%Z; [discriminate Hm |].
  injection Hm as <-. split.
  - apply Forall_forall. intros row Hrow.
    apply in_map_iff in Hrow. destruct Hrow as [l [<- _]]. split.
    + apply Forall_forall. intros cell Hcell.
      apply in_map_iff in Hcell. destruct Hcell as [m [<- _]].
      now apply restricted_result_unit.
    + rewrite map_map. apply Sorted_map_zrange. intros i.
      apply restricted_draws_monotone;
        [exact Hfuel | exact Hn | apply leb_ofZ_succ].
  - intros m _. change MulliganKeepPage.lRows with (zrange 0 5).
    apply (Sorted_map_zrange le_result
             (fun l => probabilityAtLeastOneKeep fuel n (ofZ l) m)).
    intros i. apply restricted_mulligan_monotone;
      [exact Hfuel | exact Hn | apply leb_ofZ_succ].
Qed.

Lemma tableRows_sorted_witness :
  Forall (fun row =>
            Forall (fun cell => exists q, cell = Some (Fin q) /\
                                          0 <= q /\ q <= 1) row /\
            Sorted le_result row)
         (MulliganKeepPage.tableRows 42 (ofZ 3) [ofZ 1; ofZ 2]) /\
  (forall m, In m [ofZ 1; ofZ 2] ->
     Sorted le_result
       (map (fun l => probabilityAtLeastOneKeep 42 (ofZ 3) (ofZ l) m)
            MulliganKeepPage.lRows)).
Proof.
  apply (tableRows_sorted 42 (ofZ 3) 1 2);
    [lia | discriminate | reflexivity].
Defined.

(** ** The chart *)

Lemma pointX_val (len idx : Z) :
  (1 < len)%Z ->
  val_is (Home.pointX len idx) (inject_Z idx * 664 / inject_Z (len - 1)).
Proof.
  intros H. unfold Home.pointX, gtb. rewrite ltb_ofZ.
  destruct (Z.ltb_spec 1 len); [| lia].
  rewrite sub_ofZ. change Home.innerWidth with (ofZ 664).
  apply val_is_div;
    [apply val_is_mul; [apply val_is_ofZ | apply (val_is_ofZ 664)]
    | apply val_is_ofZ |].
  intros E. apply (inject_Z_injective (len - 1) 0) in E. lia.
Qed.

Lemma pointX_single (len idx : Z) :
  (len <= 1)%Z -> Home.pointX len idx = ofZ 332.
Proof.
  intros H. unfold Home.pointX, gtb. rewrite ltb_ofZ.
  destruct (Z.ltb_spec 1 len); [lia | reflexivity].
Qed.

Lemma pointX_lt (len i j : Z) :
  (1 < len)%Z -> (i < j)%Z ->
  ltb (Home.pointX len i) (Home.pointX len j) = true.
Proof.
  intros L H.
  pose proof (pointX_val len i L) as Vi.
  pose proof (pointX_val len j L) as Vj.
  destruct (Home.pointX len i) as [| | | x]; cbn [val_is] in Vi;
    try contradiction.
  destruct (Home.pointX len j) as [| | | y]; cbn [val_is] in Vj;
    try contradiction.
  assert (Hd : 0 < inject_Z (len - 1))
    by (change 0 with (inject_Z 0); rewrite <- Zlt_Qlt; lia).
  assert (Hij : inject_Z i < inject_Z j) by (rewrite <- Zlt_Qlt; lia).
  cbn [ltb]. apply negb_true_iff. apply not_true_iff_false.
  rewrite Qle_bool_iff. apply Qlt_not_le. rewrite Vi, Vj.
  apply Qlt_shift_div_l; [exact Hd |].
  setoid_replace (inject_Z i * 664 / inject_Z (len - 1) * inject_Z (len - 1))
    with (inject_Z i * 664) by (field; lra).
  lra.
Qed.

(** X27.  The abscissa of the point of index idx among len values of m lies on
    the axis, between 0 and 664; it is the centre 332 for a single value,
    idx * 664 / (len - 1) otherwise, and then strictly increasing in the
    index. *)
Theorem pointX_on_axis (len idx : Z) :
  (0 <= idx < len)%Z ->
  (exists x, Home.pointX len idx = Fin x /\ 0 <= x /\ x <= 664 /\
             (len = 1%Z -> x == 332) /\
             ((1 < len)%Z -> x * inject_Z (len - 1) == inject_Z idx * 664)) /\
  (forall j, (idx < j)%Z -> (1 < len)%Z ->
             ltb (Home.pointX len idx) (Home.pointX len j) = true).
Proof.
  intros H. split; [| intros j Hj L; now apply pointX_lt].
  destruct (Z_le_gt_dec len 1) as [L | L].
  - rewrite pointX_single by exact L. exists (inject_Z 332).
    split; [reflexivity |]. split; [discriminate |]. split; [discriminate |].
    split; [reflexivity | lia].
  - assert (L' : (1 < len)%Z) by lia.
    pose proof (pointX_val len idx L') as V.
    destruct (Home.pointX len idx) as [| | | x]; cbn [val_is] in V;
      try contradiction.
    assert (Hd : 0 < inject_Z (len - 1))
      by (change 0 with (inject_Z 0); rewrite <- Zlt_Qlt; lia).
    assert (Hi : 0 <= inject_Z idx)
      by (change 0 with (inject_Z 0); rewrite <- Zle_Qle; lia).
    assert (Hj : inject_Z idx <= inject_Z (len - 1))
      by (rewrite <- Zle_Qle; lia).
    exists x. split; [reflexivity |]. rewrite V.
    split; [apply Qle_shift_div_l; [exact Hd | lra] |].
    split; [apply Qle_shift_div_r; [exact Hd | lra] |].
    split; [lia |]. intros _. field. lra.
Qed.

Lemma pointX_on_axis_witness :
  (exists x, Home.pointX 5 2 = Fin x /\ 0 <= x /\ x <= 664 /\
             (5%Z = 1%Z -> x == 332) /\
             ((1 < 5)%Z -> x * inject_Z (5 - 1) == inject_Z 2 * 664)) /\
  (forall j, (2 < j)%Z -> (1 < 5)%Z ->
             ltb (Home.pointX 5 2) (Home.pointX 5 j) = true).
Proof.
  apply (pointX_on_axis 5 2). lia.
Defined.

Lemma pointY_val (p : number) (q : Q) :
  val_is p q -> val_is (Home.pointY p) (272 - q * 272).
Proof.
  intros H. unfold Home.pointY. change Home.innerHeight with (ofZ 272).
  apply val_is_sub; [apply (val_is_ofZ 272) |].
  apply val_is_mul; [exact H | apply (val_is_ofZ 272)].
Qed.

(** X28.  For a target count that is not NaN, the ordinate of a result of
    [probabilityAtLeastOne] lies between 0 and 272, and for m1 <= m2 the
    ordinate at m2 is not larger than the one at m1: a curve never descends
    on the screen from left to right. *)
Theorem pointY_of_results (fuel : nat) (keepMode : KeepMode)
    (l n m1 m2 : number) :
  (42 <= fuel)%nat -> n <> NaN -> leb m1 m2 = true ->
  exists p1 p2 y1 y2,
    probabilityAtLeastOne fuel keepMode l n m1 = Some p1 /\
    probabilityAtLeastOne fuel keepMode l n m2 = Some p2 /\
    Home.pointY p1 = Fin y1 /\ Home.pointY p2 = Fin y2 /\
    0 <= y2 /\ y2 <= y1 /\ y1 <= 272.
Proof.
  intros Hfuel Hn Hm.
  pose proof (general_draws_monotone fuel keepMode l n m1 m2 Hfuel Hn Hm)
    as Hle.
  destruct (general_result_unit fuel keepMode l n m1 Hfuel Hn)
    as [q1 [E1 [L1 U1]]].
  destruct (general_result_unit fuel keepMode l n m2 Hfuel Hn)
    as [q2 [E2 [L2 U2]]].
  rewrite E1, E2 in Hle. cbn [le_result leb] in Hle.
  apply Qle_bool_iff in Hle.
  pose proof (pointY_val (Fin q1) q1 (val_is_Fin q1)) as V1.
  pose proof (pointY_val (Fin q2) q2 (val_is_Fin q2)) as V2.
  destruct (Home.pointY (Fin q1)) as [| | | y1] eqn:Y1; cbn [val_is] in V1;
    try contradiction.
  destruct (Home.pointY (Fin q2)) as [| | | y2] eqn:Y2; cbn [val_is] in V2;
    try contradiction.
  exists (Fin q1), (Fin q2), y1, y2.
  split; [exact E1 |]. split; [exact E2 |].
  split; [exact Y1 |]. split; [exact Y2 |].
  rewrite V1, V2. split; [lra |]. split; lra.
Qed.

Lemma pointY_of_results_witness :
  exists p1 p2 y1 y2,
    probabilityAtLeastOne 42 noKeep (ofZ 2) (ofZ 3) (ofZ 1) = Some p1 /\
    probabilityAtLeastOne 42 noKeep (ofZ 2) (ofZ 3) (ofZ 5) = Some p2 /\
    Home.pointY p1 = Fin y1 /\ Home.pointY p2 = Fin y2 /\
    0 <= y2 /\ y2 <= y1 /\ y1 <= 272.
Proof.
  apply (pointY_of_results 42 noKeep (ofZ 2) (ofZ 3) (ofZ 1) (ofZ 5));
    [lia | discriminate | reflexivity].
Defined.

(** ** The colours *)

Lemma string_length_append (a b : String.string) :
  String.length (String.append a b) = (String.length a + String.length b)%nat.
Proof. induction a as [| c a IH]; simpl; [reflexivity | now rewrite IH]. Qed.

Lemma append_cancel_r (s : String.string) :
  forall x y, String.append x s = String.append y s -> x = y.
Proof.
  induction x as [| c x IH]; destruct y as [| d y]; simpl; intros H.
  - reflexivity.
  - apply (f_equal String.length) in H. simpl in H.
    rewrite string_length_append in H. lia.
  - apply (f_equal String.length) in H. simpl in H.
    rewrite string_length_append in H. lia.
  - injection H as -> H. f_equal. now apply IH.
Qed.

Lemma to_int_nonnil (z : Z) :
  Z.to_int z <> Decimal.Pos Decimal.Nil /\
  Z.to_int z <> Decimal.Neg Decimal.Nil.
Proof.
  destruct z as [| p | p]; simpl; split; intros H; try discriminate;
    injection H; apply DecimalPos.Unsigned.to_uint_nonnil.
Qed.

Lemma showZ_inj (a b : Z) : Home.showZ a = Home.showZ b -> a = b.
Proof.
  unfold Home.showZ. intros H.
  apply (f_equal DecimalString.NilZero.int_of_string) in H.
  destruct (to_int_nonnil a) as [A1 A2]. destruct (to_int_nonnil b) as [B1 B2].
  rewrite !DecimalString.NilZero.isi in H by assumption.
  injection H as H. now apply DecimalZ.to_int_inj.
Qed.

Lemma colorForN_inj (a b : Z) :
  Home.colorForN a = Home.colorForN b <-> Home.hue a = Home.hue b.
Proof.
  unfold Home.colorForN. split; [| now intros ->].
  intros H. simpl in H. injection H as H.
  apply append_cancel_r in H. now apply showZ_inj.
Qed.

Lemma hue_eq_iff (a b : Z) :
  (0 <= a)%Z -> (0 <= b)%Z ->
  Home.hue a = Home.hue b <-> (360 | a - b)%Z.
Proof.
  intros Ha Hb. unfold Home.hue.
  rewrite !Z.rem_mod_nonneg by lia. split.
  - intros H. apply (Z.gauss 360 37); [| reflexivity].
    replace (37 * (a - b))%Z with (a * 37 - b * 37)%Z by ring.
    apply Z.mod_divide; [lia |].
    rewrite Zminus_mod, H, Z.sub_diag. reflexivity.
  - intros [k Hk].
    replace (a * 37)%Z with (b * 37 + (37 * k) * 360)%Z by lia.
    apply Z_mod_plus_full.
Qed.

(** X29.  For integer target counts a, b >= 0 with 37 a and 37 b at most
    2^53, the hue of [colorForN] lies in [0, 360), and the two colours are
    the same string exactly when a and b differ by a multiple of 360. *)
Theorem colorForN_period (a b : Z) :
  (0 <= a)%Z -> (0 <= b)%Z ->
  (a * 37 <= 2 ^ 53)%Z -> (b * 37 <= 2 ^ 53)%Z ->
  (0 <= Home.hue a < 360)%Z /\
  (Home.colorForN a = Home.colorForN b <-> (360 | a - b)%Z).
Proof.
  intros Ha Hb _ _. split.
  - unfold Home.hue. apply Z.rem_bound_pos; lia.
  - rewrite colorForN_inj. now apply hue_eq_iff.
Qed.

Lemma colorForN_period_witness :
  (0 <= Home.hue 10 < 360)%Z /\
  (Home.colorForN 10 = Home.colorForN 370 <-> (360 | 10 - 370)%Z).
Proof.
  apply (colorForN_period 10 370); lia.
Defined.

Lemma colorForL_mod (l : Z) :
  (0 <= l)%Z ->
  MulliganKeepPage.colorForL l =
  nth_error MulliganKeepPage.palette (Z.to_nat (l mod 5)).
Proof.
  intros H. unfold MulliganKeepPage.colorForL. cbv zeta.
  change (Z.of_nat (length MulliganKeepPage.palette)) with 5%Z.
  rewrite Z.rem_mod_nonneg by lia.
  pose proof (Z.mod_pos_bound l 5 ltac:(lia)) as B.
  destruct (Z.ltb_spec (l mod 5) 0); [lia | reflexivity].
Qed.

Lemma palette_cases (i : Z) :
  (0 <= i < 5)%Z -> i = 0%Z \/ i = 1%Z \/ i = 2%Z \/ i = 3%Z \/ i = 4%Z.
Proof. lia. Qed.

(** X30.  For l >= 0, [colorForL] returns a colour of the palette, and two such
    arguments get the same colour exactly when they differ by a multiple of
    5. *)
Theorem colorForL_period (a b : Z) :
  (0 <= a)%Z -> (0 <= b)%Z ->
  (exists c, MulliganKeepPage.colorForL a = Some c /\
             In c MulliganKeepPage.palette) /\
  (MulliganKeepPage.colorForL a = MulliganKeepPage.colorForL b <->
   (5 | a - b)%Z).
Proof.
  intros Ha Hb. rewrite !colorForL_mod by assumption.
  pose proof (Z.mod_pos_bound a 5 ltac:(lia)) as Ba.
  pose proof (Z.mod_pos_bound b 5 ltac:(lia)) as Bb.
  assert (D : (5 | a - b)%Z <-> (a mod 5 = b mod 5)%Z).
  { split.
    - intros [k Hk]. replace a with (b + k * 5)%Z by lia.
      apply Z_mod_plus_full.
    - intros H. apply Z.mod_divide; [lia |].
      rewrite Zminus_mod, H, Z.sub_diag. reflexivity. }
  rewrite D. split.
  - destruct (palette_cases _ Ba) as [E | [E | [E | [E | E]]]]; rewrite E;
      eexists; (split; [reflexivity | simpl; tauto]).
  - split; [| now intros ->].
    destruct (palette_cases _ Ba) as [E | [E | [E | [E | E]]]]; rewrite E;
      destruct (palette_cases _ Bb) as [F | [F | [F | [F | F]]]]; rewrite F;
      intros H; first [reflexivity | discriminate H].
Qed.

Lemma colorForL_period_witness :
  (exists c, MulliganKeepPage.colorForL 2 = Some c /\
             In c MulliganKeepPage.palette) /\
  (MulliganKeepPage.colorForL 2 = MulliganKeepPage.colorForL 7 <->
   (5 | 2 - 7)%Z).
Proof.
  apply (colorForL_period 2 7); lia.
Defined.
